(** * A relay server for chat rooms: model of [chat_server.py]

    The development follows the class [ChatServer]: the two identity
    dictionaries, the two subscription dictionaries, the bounded history
    deques, the per-room log files and the sockets the server writes to.
    Handlers are written in a state-and-exception monad over one [World]
    value, so that a raised exception keeps the mutations made so far,
    as in Python. *)

From Stdlib Require Import NArith ZArith Lia.
From stdpp Require Import gmap strings list fin_maps.

Local Open Scope N_scope.
Set Warnings "-clear-no-such-hyp".

(** ** Python strings and bytes

    A [str] is its sequence of code points, a [bytes] value its sequence
    of octets; both are lists of [N]. *)

Abbreviation pystr := (list N) (only parsing).
Abbreviation pybytes := (list N) (only parsing).

(** String literals of the source, written in ASCII. *)
Definition py (s : string) : pystr :=
  (λ a, Ascii.N_of_ascii a) <$> String.list_ascii_of_string s.

Definition NL : N := 10.     (* "\n" *)
Definition BAR : N := 124.   (* "|" *)

(** [str.encode("utf-8")] with the strict error handler, as used by
    [open(path, "a", encoding="utf-8")]: a lone surrogate cannot be
    encoded and raises [UnicodeEncodeError] ([None] here). *)
Definition utf8_encode_char (c : N) : option pybytes :=
  if c <? 0x80 then Some [c]
  else if c <? 0x800 then Some [0xC0 + c / 64; 0x80 + c mod 64]
  else if (0xD800 <=? c) && (c <=? 0xDFFF) then None
  else if c <? 0x10000 then
    Some [0xE0 + c / 4096; 0x80 + (c / 64) mod 64; 0x80 + c mod 64]
  else if c <? 0x110000 then
    Some [0xF0 + c / 262144; 0x80 + (c / 4096) mod 64;
          0x80 + (c / 64) mod 64; 0x80 + c mod 64]
  else None.

Fixpoint utf8_encode (s : pystr) : option pybytes :=
  match s with
  | [] => Some []
  | c :: s' =>
    match utf8_encode_char c, utf8_encode s' with
    | Some b, Some bs => Some (b ++ bs)
    | _, _ => None
    end
  end.

Definition is_continuation (b : N) : bool := (0x80 <=? b) && (b <? 0xC0).

(** [bytes.decode("utf-8", errors="ignore")]: an invalid start byte is
    skipped alone, an invalid continuation byte makes the decoder skip
    the bytes before it and resume at it, and a sequence cut by the end
    of the input is skipped whole. *)
Fixpoint utf8_decode_ignore (l : pybytes) : pystr :=
  match l with
  | [] => []
  | b0 :: l1 =>
    if b0 <? 0x80 then b0 :: utf8_decode_ignore l1
    else if b0 <? 0xC2 then utf8_decode_ignore l1
    else if b0 <? 0xE0 then
      match l1 with
      | [] => []
      | b1 :: l2 =>
        if is_continuation b1
        then ((b0 - 0xC0) * 64 + (b1 - 0x80)) :: utf8_decode_ignore l2
        else utf8_decode_ignore l1
      end
    else if b0 <? 0xF0 then
      match l1 with
      | [] => []
      | b1 :: l2 =>
        if is_continuation b1
           && negb ((b0 =? 0xE0) && (b1 <? 0xA0))
           && negb ((b0 =? 0xED) && (0xA0 <=? b1))
        then
          match l2 with
          | [] => []
          | b2 :: l3 =>
            if is_continuation b2
            then ((b0 - 0xE0) * 4096 + (b1 - 0x80) * 64 + (b2 - 0x80))
                   :: utf8_decode_ignore l3
            else utf8_decode_ignore l2
          end
        else utf8_decode_ignore l1
      end
    else if b0 <? 0xF5 then
      match l1 with
      | [] => []
      | b1 :: l2 =>
        if is_continuation b1
           && negb ((b0 =? 0xF0) && (b1 <? 0x90))
           && negb ((b0 =? 0xF4) && (0x90 <=? b1))
        then
          match l2 with
          | [] => []
          | b2 :: l3 =>
            if is_continuation b2 then
              match l3 with
              | [] => []
              | b3 :: l4 =>
                if is_continuation b3
                then ((b0 - 0xF0) * 262144 + (b1 - 0x80) * 4096
                      + (b2 - 0x80) * 64 + (b3 - 0x80))
                       :: utf8_decode_ignore l4
                else utf8_decode_ignore l3
              end
            else utf8_decode_ignore l2
          end
        else utf8_decode_ignore l1
      end
    else utf8_decode_ignore l1
  end.

(** ** Sequences: [deque(maxlen=n)], slices, [split], [rstrip], [rfind] *)

Section Sequences.
Context {A : Type}.

(** The last [n] items of a list. *)
Definition lastn (n : nat) (l : list A) : list A :=
  drop (length l - n)%nat l.

(** [d.append(x)] on a [deque(maxlen=n)]: a full deque discards its
    leftmost item. *)
Definition deque_append (maxlen : nat) (d : list A) (x : A) : list A :=
  lastn maxlen (d ++ [x]).

(** [d.appendleft(x)] on a [deque(maxlen=n)]: a full deque discards
    its rightmost item, the end opposite to the insertion. *)
Definition deque_appendleft (maxlen : nat) (d : list A) (x : A) : list A :=
  take maxlen (x :: d).

(** [l[start:]] for any integer [start]; a negative one counts from the
    end and is clipped at the start of the list. *)
Definition slice_from (start : Z) (l : list A) : list A :=
  if (start <? 0)%Z
  then drop (Z.to_nat (Z.max 0 (Z.of_nat (length l) + start))) l
  else drop (Z.to_nat start) l.
End Sequences.

(** [buffer.rfind(b"\n")]: the index of the last occurrence. *)
Fixpoint rfind (b : N) (l : pybytes) : option nat :=
  match l with
  | [] => None
  | x :: l' =>
    match rfind b l' with
    | Some i => Some (S i)
    | None => if x =? b then Some 0%nat else None
    end
  end.

(** The text before and after the first occurrence of [sep]. *)
Fixpoint partition_at (sep : N) (s : pystr) : option (pystr * pystr) :=
  match s with
  | [] => None
  | c :: s' =>
    if c =? sep then Some ([], s')
    else match partition_at sep s' with
         | Some (pre, post) => Some (c :: pre, post)
         | None => None
         end
  end.

(** [s.split(sep, maxsplit)] for a separator of one character. *)
Fixpoint split (sep : N) (maxsplit : nat) (s : pystr) : list pystr :=
  match maxsplit with
  | O => [s]
  | S m =>
    match partition_at sep s with
    | Some (pre, post) => pre :: split sep m post
    | None => [s]
    end
  end.

(** [s.rstrip(c)] for one character. *)
Fixpoint rstrip (c : N) (s : pystr) : pystr :=
  match s with
  | [] => []
  | x :: s' =>
    match rstrip c s' with
    | [] => if x =? c then [] else [x]
    | r => x :: r
    end
  end.

(** ** Message records and the log file format *)

(** The dict [{"type": "message", "room", "username", "message", "ts"}];
    the ["type"] entry is the same in every record. *)
Record Message := mkMessage {
  msg_room : pystr;
  msg_username : pystr;
  msg_message : pystr;
  msg_ts : pystr;
}.

Global Instance Message_eq_dec : EqDecision Message.
Proof. solve_decision. Defined.

(** The text written by [_append_to_room_log]. *)
Definition log_line (record : Message) : pystr :=
  msg_ts record ++ [BAR] ++ msg_username record ++ [BAR]
    ++ msg_message record ++ [NL].

(** One turn of the parsing loop of [_read_last_lines_from_log]:
    [None] is a line the loop skips. *)
Definition parse_line (room : pystr) (line : pystr) : option Message :=
  let line := rstrip NL line in
  match line with
  | [] => None
  | _ =>
    match split BAR 2 line with
    | [ts; username; msg] => Some (mkMessage room username msg ts)
    | _ => None
    end
  end.

(** ** The backward scan of [_read_last_lines_from_log] *)

Definition CHUNK : nat := 4096.

(** The inner [while b"\n" in buffer] loop.  Every turn shortens the
    buffer, so its length bounds the number of turns. *)
Fixpoint drain_lines (fuel : nat) (count : nat)
    (buffer : pybytes) (lines : list pystr) : pybytes * list pystr :=
  match fuel with
  | O => (buffer, lines)
  | S fuel' =>
    match rfind NL buffer with
    | None => (buffer, lines)
    | Some idx =>
      let line_bytes := drop (S idx) buffer in
      let buffer := take idx buffer in
      let lines :=
        match line_bytes with
        | [] => lines
        | _ => deque_appendleft count lines (utf8_decode_ignore line_bytes)
        end in
      drain_lines fuel' count buffer lines
    end
  end.

(** The outer [while pointer > 0 and len(lines) < count] loop.  Every
    turn lowers [pointer], so [pointer] turns are enough. *)
Fixpoint read_chunks (fuel : nat) (file : pybytes) (count : nat)
    (pointer : nat) (buffer : pybytes) (lines : list pystr) : list pystr :=
  match fuel with
  | O => lines
  | S fuel' =>
    if (0 <? pointer)%nat && (length lines <? count)%nat then
      let read_size := Nat.min CHUNK pointer in
      let pointer := (pointer - read_size)%nat in
      let chunk := take read_size (drop pointer file) in
      let buffer := chunk ++ buffer in
      let '(buffer, lines) := drain_lines (length buffer) count buffer lines in
      let '(buffer, lines) :=
        match buffer with
        | _ :: _ =>
          if (pointer =? 0)%nat
          then ([], deque_appendleft count lines (utf8_decode_ignore buffer))
          else (buffer, lines)
        | [] => (buffer, lines)
        end in
      read_chunks fuel' file count pointer buffer lines
    else lines
  end.

(** The lines kept by the scan of a file, before parsing. *)
Definition tail_lines (file : pybytes) (count : nat) : list pystr :=
  read_chunks (length file) file count (length file) [] [].

(** The records made from the kept lines. *)
Definition parse_lines (room : pystr) (lines : list pystr) : list Message :=
  omap (parse_line room) lines.

(** [_read_last_lines_from_log] on the content of the room's log file,
    [None] when the file does not exist. *)
Definition read_last_lines_of (room : pystr) (file : option pybytes)
    (count : nat) : list Message :=
  match file with
  | None => []
  | Some content => parse_lines room (tail_lines content count)
  end.

(** ** Values of a decoded JSON envelope *)

#[warnings="-register-all"] Inductive jval :=
| JNull
| JBool (b : bool)
| JNum (n : Z)
| JStr (s : pystr)
| JArr (l : list jval)
| JObj (l : list (pystr * jval)).

(** [data.get(key)]: a missing key gives [None]. *)
Definition dict_get (data : gmap pystr jval) (key : pystr) : jval :=
  default JNull (data !! key).

(** Truth value of a Python object, as tested by [not x]. *)
Definition truthy (v : jval) : bool :=
  match v with
  | JNull => false
  | JBool b => b
  | JNum n => negb (n =? 0)%Z
  | JStr s => match s with [] => false | _ => true end
  | JArr l => match l with [] => false | _ => true end
  | JObj l => match l with [] => false | _ => true end
  end.

Definition isinstance_str (v : jval) : bool :=
  match v with JStr _ => true | _ => false end.

(** [v == ""]. *)
Definition is_empty_str (v : jval) : bool :=
  match v with JStr [] => true | _ => false end.

(** ** Frames sent to a socket

    The server sends [json.dumps] of a dict; a frame is that dict. *)
Inductive Frame :=
| OkFrame (event : pystr) (data : list (pystr * pystr))
| ErrorFrame (code message : pystr)
| HistoryFrame (room : pystr) (messages : list Message)
| MessageFrame (record : Message).

Global Instance Frame_eq_dec : EqDecision Frame.
Proof. solve_decision. Defined.

(** ** The server and what surrounds it *)

Abbreviation conn := nat (only parsing).

(** The five dictionaries of [ChatServer], then the sockets (close
    code and reason once closed, frames sent so far) and the log
    directory (file name to content, and the names that cannot be
    opened for appending). *)
Record World := mkWorld {
  username_to_ws : gmap pystr conn;
  ws_to_username : gmap conn pystr;
  room_to_subscribers : gmap pystr (gset conn);
  ws_to_rooms : gmap conn (gset pystr);
  room_to_history : gmap pystr (list Message);
  closed : gmap conn (Z * pystr);
  sent : gmap conn (list Frame);
  files : gmap pystr pybytes;
  unwritable : gset pystr;
}.

Definition empty_world : World :=
  mkWorld ∅ ∅ ∅ ∅ ∅ ∅ ∅ ∅ ∅.

Definition set_username_to_ws (f : gmap pystr conn → gmap pystr conn) (w : World) : World :=
  mkWorld (f (username_to_ws w)) (ws_to_username w) (room_to_subscribers w)
    (ws_to_rooms w) (room_to_history w) (closed w) (sent w) (files w) (unwritable w).
Definition set_ws_to_username (f : gmap conn pystr → gmap conn pystr) (w : World) : World :=
  mkWorld (username_to_ws w) (f (ws_to_username w)) (room_to_subscribers w)
    (ws_to_rooms w) (room_to_history w) (closed w) (sent w) (files w) (unwritable w).
Definition set_room_to_subscribers
    (f : gmap pystr (gset conn) → gmap pystr (gset conn)) (w : World) : World :=
  mkWorld (username_to_ws w) (ws_to_username w) (f (room_to_subscribers w))
    (ws_to_rooms w) (room_to_history w) (closed w) (sent w) (files w) (unwritable w).
Definition set_ws_to_rooms
    (f : gmap conn (gset pystr) → gmap conn (gset pystr)) (w : World) : World :=
  mkWorld (username_to_ws w) (ws_to_username w) (room_to_subscribers w)
    (f (ws_to_rooms w)) (room_to_history w) (closed w) (sent w) (files w) (unwritable w).
Definition set_room_to_history
    (f : gmap pystr (list Message) → gmap pystr (list Message)) (w : World) : World :=
  mkWorld (username_to_ws w) (ws_to_username w) (room_to_subscribers w)
    (ws_to_rooms w) (f (room_to_history w)) (closed w) (sent w) (files w) (unwritable w).
Definition set_closed (f : gmap conn (Z * pystr) → gmap conn (Z * pystr)) (w : World) : World :=
  mkWorld (username_to_ws w) (ws_to_username w) (room_to_subscribers w)
    (ws_to_rooms w) (room_to_history w) (f (closed w)) (sent w) (files w) (unwritable w).
Definition set_sent (f : gmap conn (list Frame) → gmap conn (list Frame)) (w : World) : World :=
  mkWorld (username_to_ws w) (ws_to_username w) (room_to_subscribers w)
    (ws_to_rooms w) (room_to_history w) (closed w) (f (sent w)) (files w) (unwritable w).
Definition set_files (f : gmap pystr pybytes → gmap pystr pybytes) (w : World) : World :=
  mkWorld (username_to_ws w) (ws_to_username w) (room_to_subscribers w)
    (ws_to_rooms w) (room_to_history w) (closed w) (sent w) (f (files w)) (unwritable w).

(** A socket is open until it has a close code. *)
Definition is_open (w : World) (ws : conn) : Prop := closed w !! ws = None.

(** The frames sent to a socket so far, oldest first. *)
Definition outbox (w : World) (ws : conn) : list Frame :=
  default [] (sent w !! ws).

(** The subscribers of a room; a room never subscribed to has none. *)
Definition subscribers (w : World) (room : pystr) : gset conn :=
  default ∅ (room_to_subscribers w !! room).

(** The history deque of a room; a room never touched has an empty one. *)
Definition history (w : World) (room : pystr) : list Message :=
  default [] (room_to_history w !! room).

(** ** Computations that change the world and may raise *)

Inductive exn := ConnectionClosed | OSError | UnicodeEncodeError.

Global Instance exn_eq_dec : EqDecision exn.
Proof. solve_decision. Defined.

Inductive outcome (A : Type) :=
| Return (a : A)
| Raise (e : exn).
Arguments Return {A} a.
Arguments Raise {A} e.

Definition Py (A : Type) : Type := World → outcome A * World.

Definition ret {A} (a : A) : Py A := λ w, (Return a, w).
Definition raise {A} (e : exn) : Py A := λ w, (Raise e, w).
Definition bind {A B} (m : Py A) (k : A → Py B) : Py B :=
  λ w, match m w with
       | (Return a, w') => k a w'
       | (Raise e, w') => (Raise e, w')
       end.
Definition modify (f : World → World) : Py unit := λ w, (Return (), f w).
Definition get : Py World := λ w, (Return w, w).

(** [try: m except e: handler]. *)
Definition try_except {A} (m : Py A) (e : exn) (handler : Py A) : Py A :=
  λ w, match m w with
       | (Raise e', w') => if decide (e' = e) then handler w' else (Raise e', w')
       | r => r
       end.

Notation "'do' x ← m ; k" := (bind m (λ x, k))
  (at level 10, x name, m at level 100, k at level 200).
Notation "'exec' m ; k" := (bind m (λ _, k))
  (at level 10, m at level 100, k at level 200).

(** [for x in xs: body(x)]. *)
Fixpoint for_each {A} (xs : list A) (body : A → Py unit) : Py unit :=
  match xs with
  | [] => ret ()
  | x :: xs' => exec body x; for_each xs' body
  end.

(** [await websocket.send(payload)]: raises on a closed socket. *)
Definition ws_send (ws : conn) (payload : Frame) : Py unit :=
  λ w, match closed w !! ws with
       | Some _ => (Raise ConnectionClosed, w)
       | None => (Return (), set_sent <[ws := outbox w ws ++ [payload]]> w)
       end.

(** [await websocket.close(code, reason)]: nothing on a closed socket. *)
Definition ws_close (ws : conn) (code : Z) (reason : pystr) : Py unit :=
  λ w, match closed w !! ws with
       | Some _ => (Return (), w)
       | None => (Return (), set_closed <[ws := (code, reason)]> w)
       end.

(** ** Settings read from the environment at import time

    [HISTORY_SIZE] is the [maxlen] of every history deque; a negative
    value makes [deque(maxlen=...)] raise on the first access to any
    room, so the capacity is a natural number here.
    [HISTORY_ON_SUBSCRIBE] is only used in a slice and may be any
    integer.  [unicode_isalnum] is [str.isalnum] on a character outside
    ASCII, a table of the Unicode database. *)
Record Config := mkConfig {
  HISTORY_SIZE : nat;
  HISTORY_ON_SUBSCRIBE : Z;
  unicode_isalnum : N → bool;
}.

(** The values used when the environment sets nothing. *)
Definition default_config : Config := mkConfig 100 5 (λ _, false).

(** ** The methods of [ChatServer] *)

Section Server.
Context (cfg : Config).

(** [c.isalnum()] for one character. *)
Definition isalnum (c : N) : bool :=
  if c <? 128
  then ((48 <=? c) && (c <=? 57)) || ((65 <=? c) && (c <=? 90))
       || ((97 <=? c) && (c <=? 122))
  else unicode_isalnum cfg c.

(** [_room_log_path]: the name of the room's file inside [LOG_DIR]. *)
Definition _room_log_path (room : pystr) : pystr :=
  let safe_room :=
    List.filter (λ c, isalnum c || (c =? 45) || (c =? 95)) room in
  let safe_room := match safe_room with [] => py "room" | _ => safe_room end in
  safe_room ++ py ".txt".

(** [_append_to_room_log]: opening the file for appending creates it;
    the line is encoded before anything is written. *)
Definition _append_to_room_log (room : pystr) (record : Message) : Py unit :=
  λ w,
    let path := _room_log_path room in
    if bool_decide (path ∈ unwritable w) then (Raise OSError, w)
    else
      let content := default [] (files w !! path) in
      match utf8_encode (log_line record) with
      | None => (Raise UnicodeEncodeError, set_files <[path := content]> w)
      | Some line => (Return (), set_files <[path := content ++ line]> w)
      end.

(** [_read_last_lines_from_log]: reads the log directory only. *)
Definition _read_last_lines_from_log (w : World) (room : pystr)
    (count : nat) : list Message :=
  read_last_lines_of room (files w !! _room_log_path room) count.

(** One turn of the loop over [rooms] in [_cleanup]. *)
Definition discard_subscriber (ws : conn)
    (m : gmap pystr (gset conn)) (room : pystr) : gmap pystr (gset conn) :=
  match m !! room with
  | Some subs =>
    if bool_decide (subs ≠ ∅) && bool_decide (ws ∈ subs)
    then <[room := subs ∖ {[ws]}]> m
    else m
  | None => m
  end.

(** The effect of [_cleanup], which raises nothing. *)
Definition cleanup_world (ws : conn) (w : World) : World :=
  let username := ws_to_username w !! ws in
  let w := set_ws_to_username (delete ws) w in
  let w :=
    match username with
    | Some (c :: u) =>
      if bool_decide (username_to_ws w !! (c :: u) = Some ws)
      then set_username_to_ws (delete (c :: u)) w
      else w
    | _ => w
    end in
  let rooms := default ∅ (ws_to_rooms w !! ws) in
  let w := set_ws_to_rooms (delete ws) w in
  set_room_to_subscribers
    (λ m, foldl (discard_subscriber ws) m (elements rooms)) w.

Definition _cleanup (ws : conn) : Py unit := modify (cleanup_world ws).

Definition _send_ok (ws : conn) (event : pystr)
    (data : list (pystr * pystr)) : Py unit :=
  ws_send ws (OkFrame event data).

Definition _send_error (ws : conn) (code message : pystr) : Py unit :=
  ws_send ws (ErrorFrame code message).

Definition _safe_send (ws : conn) (payload : Frame) : Py unit :=
  try_except (ws_send ws payload) ConnectionClosed (_cleanup ws).

(** [_broadcast]: the subscriber set is copied to a list first; the
    gathered sends are run in the order of that list. *)
Definition _broadcast (room : pystr) (record : Message) : Py unit :=
  do w ← get;
  let subs := elements (subscribers w room) in
  match subs with
  | [] => ret ()
  | _ =>
    let payload := MessageFrame record in
    for_each subs (λ ws, _safe_send ws payload)
  end.

(** [_send_recent_history]: reading [self.room_to_history[room]]
    creates the deque of a room seen for the first time. *)
Definition _send_recent_history (ws : conn) (room : pystr) (count : Z)
    : Py unit :=
  do w ← get;
  let h := history w room in
  let h :=
    match h with
    | [] =>
      foldl (deque_append (HISTORY_SIZE cfg)) h
        (_read_last_lines_from_log w room (HISTORY_SIZE cfg))
    | _ => h
    end in
  exec modify (set_room_to_history <[room := h]>);
  let recent := slice_from (- count) h in
  match recent with
  | [] => ret ()
  | _ => ws_send ws (HistoryFrame room recent)
  end.

(** The string inside a value already checked to be one. *)
Definition str_of (v : jval) : pystr :=
  match v with JStr s => s | _ => [] end.

Definition _handle_login (ws : conn) (data : gmap pystr jval) : Py unit :=
  let username := dict_get data (py "username") in
  if negb (truthy username) || negb (isinstance_str username) then
    _send_error ws (py "invalid_username")
      (py "'username' must be a non-empty string")
  else
    let username := str_of username in
    do w ← get;
    if bool_decide (is_Some (username_to_ws w !! username)) then
      exec _send_error ws (py "username_taken") (py "Username already in use");
      ws_close ws 4000 (py "username_taken")
    else
      exec modify (set_username_to_ws <[username := ws]>);
      exec modify (set_ws_to_username <[ws := username]>);
      _send_ok ws (py "login_ok") [(py "username", username)].

Definition _handle_subscribe (ws : conn) (data : gmap pystr jval) : Py unit :=
  let room := dict_get data (py "room") in
  if negb (truthy room) || negb (isinstance_str room) then
    _send_error ws (py "invalid_room") (py "'room' must be a non-empty string")
  else
    let room := str_of room in
    exec modify (λ w,
      set_room_to_subscribers <[room := subscribers w room ∪ {[ws]}]> w);
    exec modify (λ w,
      set_ws_to_rooms <[ws := default ∅ (ws_to_rooms w !! ws) ∪ {[room]}]> w);
    exec _send_ok ws (py "subscribed") [(py "room", room)];
    _send_recent_history ws room (HISTORY_ON_SUBSCRIBE cfg).

(** [_handle_publish]; [now] is what
    [datetime.now(timezone.utc).isoformat()] returns at the call. *)
Definition _handle_publish (ws : conn) (data : gmap pystr jval)
    (now : pystr) : Py unit :=
  let room := dict_get data (py "room") in
  let message := dict_get data (py "message") in
  if negb (truthy room) || negb (isinstance_str room) then
    _send_error ws (py "invalid_room") (py "'room' must be a non-empty string")
  else if negb (isinstance_str message) || is_empty_str message then
    _send_error ws (py "invalid_message")
      (py "'message' must be a non-empty string")
  else
    let room := str_of room in
    let message := str_of message in
    do w ← get;
    match ws_to_username w !! ws with
    | Some (c :: u) =>
      let username := c :: u in
      let record := mkMessage room username message now in
      exec modify (set_room_to_history
        <[room := deque_append (HISTORY_SIZE cfg) (history w room) record]>);
      exec _append_to_room_log room record;
      _broadcast room record
    | _ =>
      _send_error ws (py "not_logged_in") (py "Login required before publishing")
    end.

Definition _handle_logout (ws : conn) : Py unit :=
  exec _send_ok ws (py "logout_ok") [];
  exec _cleanup ws;
  ws_close ws 1000 (py "logout").

(** ** Runs of the server

    What [handler] does with one decoded envelope, by its action, and
    with a lost connection.  [ConnectionClosed] raised inside a method
    reaches the [except] clause of [handler], which runs [_cleanup];
    [Disconnect] is the connection lost while [handler] waits for the
    next envelope, which raises the same exception. *)
Inductive event :=
| Login (ws : conn) (data : gmap pystr jval)
| Subscribe (ws : conn) (data : gmap pystr jval)
| Publish (ws : conn) (data : gmap pystr jval) (now : pystr)
| Logout (ws : conn)
| Disconnect (ws : conn).

Definition on_closed (ws : conn) (m : Py unit) : Py unit :=
  try_except m ConnectionClosed (_cleanup ws).

Definition handle (e : event) : Py unit :=
  match e with
  | Login ws data => on_closed ws (_handle_login ws data)
  | Subscribe ws data => on_closed ws (_handle_subscribe ws data)
  | Publish ws data now => on_closed ws (_handle_publish ws data now)
  | Logout ws => on_closed ws (_handle_logout ws)
  | Disconnect ws => exec ws_close ws 1006 []; _cleanup ws
  end.

Definition step (w : World) (e : event) : World := (handle e w).2.

Definition run (w : World) (es : list event) : World := foldl step w es.
End Server.

Definition set_unwritable (f : gset pystr → gset pystr) (w : World) : World :=
  mkWorld (username_to_ws w) (ws_to_username w) (room_to_subscribers w)
    (ws_to_rooms w) (room_to_history w) (closed w) (sent w) (files w)
    (f (unwritable w)).

(** The effect of [_safe_send] on the world: a send to an open socket,
    [_cleanup] of a closed one. *)
Definition safe_send_world (payload : Frame) (w : World) (ws : conn) : World :=
  match closed w !! ws with
  | Some _ => cleanup_world ws w
  | None => set_sent <[ws := outbox w ws ++ [payload]]> w
  end.

(** The rooms a socket is subscribed to, by [ws_to_rooms]. *)
Definition rooms_of (w : World) (ws : conn) : gset pystr :=
  default ∅ (ws_to_rooms w !! ws).

(** What is known of a socket by the server is the same in two worlds. *)
Definition same_bookkeeping (ws : conn) (w w' : World) : Prop :=
  ws_to_username w' !! ws = ws_to_username w !! ws
  ∧ ws_to_rooms w' !! ws = ws_to_rooms w !! ws
  ∧ (∀ r, ws ∈ subscribers w' r ↔ ws ∈ subscribers w r)
  ∧ (∀ u, username_to_ws w' !! u = Some ws ↔ username_to_ws w !! u = Some ws).

(** The second world knows no more than the first: entries were only
    removed. *)
Definition forgets (w w' : World) : Prop :=
  (∀ x, ws_to_username w !! x = None → ws_to_username w' !! x = None)
  ∧ (∀ x, ws_to_rooms w !! x = None → ws_to_rooms w' !! x = None)
  ∧ (∀ x r, x ∈ subscribers w' r → x ∈ subscribers w r)
  ∧ (∀ u x, username_to_ws w' !! u = Some x → username_to_ws w !! u = Some x).

(** The deque of a room once [_send_recent_history] has looked at it:
    seeded from the log when it was empty. *)
Definition seeded_history (cfg : Config) (w : World) (room : pystr)
    : list Message :=
  match history w room with
  | [] =>
    foldl (deque_append (HISTORY_SIZE cfg)) []
      (_read_last_lines_from_log cfg w room (HISTORY_SIZE cfg))
  | h => h
  end.

(** The history frame of a replay; none for an empty replay. *)
Definition replay_frames (room : pystr) (recent : list Message) : list Frame :=
  match recent with
  | [] => []
  | _ => [HistoryFrame room recent]
  end.

(** [published cfg room w records w']: publishes to [room] that all
    passed validation and returned lead from [w] to [w']; [records]
    are the records they made, oldest first. *)
Inductive published (cfg : Config) (room : pystr)
    : World → list Message → World → Prop :=
| published_nil (w : World) : published cfg room w [] w
| published_cons (w : World) (ws : conn) (data : gmap pystr jval)
    (now message username : pystr) (w1 : World) (records : list Message)
    (w2 : World) :
    dict_get data (py "room") = JStr room →
    dict_get data (py "message") = JStr message → message ≠ [] →
    ws_to_username w !! ws = Some username → username ≠ [] →
    _handle_publish cfg ws data now w = (Return (), w1) →
    published cfg room w1 records w2 →
    published cfg room w (mkMessage room username message now :: records) w2.

(** ** The forward reading of a log, from the specification

    The reference of the tail-read equivalence: "reading the whole log
    file forward and taking the last K".  The lines of the file are
    its pieces between newlines; a last piece without newline is a line
    when it is not empty. *)
Fixpoint splitlines (content : pybytes) : list pybytes :=
  match content with
  | [] => []
  | b :: content' =>
    if b =? NL then [] :: splitlines content'
    else match splitlines content' with
         | [] => [[b]]
         | line :: rest => (b :: line) :: rest
         end
  end.

Definition forward_last_lines (content : pybytes) (count : nat) : list pystr :=
  lastn count (utf8_decode_ignore <$> splitlines content).

Definition read_forward_of (room : pystr) (file : option pybytes)
    (count : nat) : list Message :=
  match file with
  | None => []
  | Some content => parse_lines room (forward_last_lines content count)
  end.

(** The forward reading of the log file of a room. *)
Definition read_forward_from_log (cfg : Config) (w : World) (room : pystr)
    (count : nat) : list Message :=
  read_forward_of room (files w !! _room_log_path cfg room) count.

(** ** What the backward scan finds *)

(** The pieces of a buffer between its newlines; the first one is what
    precedes the first newline. *)
Fixpoint pieces (l : pybytes) : list pybytes :=
  match l with
  | [] => [[]]
  | b :: l' =>
    if b =? NL then [] :: pieces l'
    else match pieces l' with
         | p :: ps => (b :: p) :: ps
         | [] => [[b]]
         end
  end.

(** The line made of a piece; an empty piece makes none (the test
    [if line_bytes] of the scan). *)
Definition line_of (piece : pybytes) : option pystr :=
  match piece with
  | [] => None
  | _ => Some (utf8_decode_ignore piece)
  end.

Definition kept (ps : list pybytes) : list pystr := omap line_of ps.

(** The lines met by a scan that has read the file from its end down to
    position [p]: what precedes the first newline read is a line only
    when the start of the file was reached. *)
Definition found (file : pybytes) (p : nat) : list pystr :=
  match p with
  | O => kept (pieces file)
  | S _ => kept (tail (pieces (drop p file)))
  end.

(** ** Logs of numbered records, for the examples *)

(** The record number [i] of a room: its timestamp is [i] in three
    decimal digits. *)
Definition numbered_record (room : pystr) (i : nat) : Message :=
  let n := N.of_nat i in
  mkMessage room (py "u") (py "m")
    [48 + (n / 100) mod 10; 48 + (n / 10) mod 10; 48 + n mod 10].

(** The log file holding the records 1 to [n] of a room. *)
Definition numbered_log (room : pystr) (n : nat) : pybytes :=
  default []
    (utf8_encode (concat (log_line <$> (numbered_record room <$> seq 1 n)))).

(** The world of a server just started on a log directory. *)
Definition started_on (logs : gmap pystr pybytes) : World :=
  set_files (λ _, logs) empty_world.

(** ** Notions used in the statements *)

(** A login was refused with [code]: the method returned after sending
    the socket an error frame with that code. *)
Definition login_refused (w : World) (ws : conn)
    (data : gmap pystr jval) (code : pystr) (w' : World) : Prop :=
  _handle_login ws data w = (Return (), w')
  ∧ ∃ message, outbox w' ws = outbox w ws ++ [ErrorFrame code message].

(** The name is bound to another socket, and that socket is open. *)
Definition bound_elsewhere (w : World) (ws : conn) (name : pystr) : Prop :=
  ∃ ws', username_to_ws w !! name = Some ws' ∧ ws' ≠ ws ∧ is_open w ws'.

(** The identity binding of the specification: no socket holds two
    names, and no name is held by a closed socket. *)
Definition one_name_per_socket (w : World) : Prop :=
  ∀ u1 u2 ws,
    username_to_ws w !! u1 = Some ws → username_to_ws w !! u2 = Some ws →
    u1 = u2.

Definition no_stale_name (w : World) : Prop :=
  ∀ u ws, username_to_ws w !! u = Some ws → is_open w ws.

(** What the two identity dictionaries do keep in every run: the name
    recorded for a socket is bound to that socket. *)
Definition names_consistent (w : World) : Prop :=
  ∀ ws u, ws_to_username w !! ws = Some u → username_to_ws w !! u = Some ws.

(** A computation keeps a property of the world, whether it returns or
    raises. *)
Definition preserves {A} (P : World → Prop) (m : Py A) : Prop :=
  ∀ w, P w → P (m w).2.

(** Envelopes used in the examples. *)
Definition login_data (username : string) : gmap pystr jval :=
  {[ py "username" := JStr (py username) ]}.
Definition subscribe_data (room : string) : gmap pystr jval :=
  {[ py "room" := JStr (py room) ]}.
Definition publish_data (room : string) (message : pystr) : gmap pystr jval :=
  <[ py "message" := JStr message ]> {[ py "room" := JStr (py room) ]}.

(** ** Properties kept by every run *)

(** The two subscription dictionaries mirror each other. *)
Definition subscriptions_consistent (w : World) : Prop :=
  ∀ ws room, room ∈ rooms_of w ws ↔ ws ∈ subscribers w room.



(** The file [path] starts with [content]. *)
Definition log_extends (path : pystr) (content : pybytes) (w : World) : Prop :=
  ∃ more, files w !! path = Some (content ++ more).


(** ** The receive loop of [handler]

    A text frame is given by what [json.loads] makes of it: [None] when
    it raises [JSONDecodeError], the decoded object otherwise.
    [fstr] is the text of a value inside an f-string. *)

(** [v == s] for a string literal [s]. *)
Definition eq_str (v : jval) (s : pystr) : bool :=
  match v with JStr t => bool_decide (t = s) | _ => false end.

Section Handler.
Context (cfg : Config) (fstr : jval → pystr).

(** The body of the [async for] loop for one frame. *)
Definition handler_turn (ws : conn) (message : option (gmap pystr jval))
    (now : pystr) : Py unit :=
  match message with
  | None =>
    _send_error ws (py "invalid_json") (py "Message must be valid JSON")
  | Some data =>
    let action := dict_get data (py "action") in
    if eq_str action (py "login") then _handle_login ws data
    else if eq_str action (py "subscribe") then _handle_subscribe cfg ws data
    else if eq_str action (py "publish") then _handle_publish cfg ws data now
    else if eq_str action (py "logout") then _handle_logout ws
    else _send_error ws (py "unknown_action")
           (py "Unknown action: " ++ fstr action)
  end.

(** The [async for] loop over the frames that arrive, each with the
    clock reading at its turn.  The iteration ends either normally or,
    when [lost], by raising [ConnectionClosed]. *)
Fixpoint handler_loop (ws : conn)
    (frames : list (option (gmap pystr jval) * pystr)) (lost : bool)
    : Py unit :=
  match frames with
  | [] => if lost then raise ConnectionClosed else ret ()
  | (message, now) :: rest =>
    exec handler_turn ws message now;
    handler_loop ws rest lost
  end.

Definition handler (ws : conn)
    (frames : list (option (gmap pystr jval) * pystr)) (lost : bool)
    : Py unit :=
  try_except (handler_loop ws frames lost) ConnectionClosed (_cleanup ws).
End Handler.

(** * The client ([chat_client.py]) *)

(** [str.isspace] of one character: the code points Python treats as
    whitespace. *)
Definition isspace (c : N) : bool :=
  ((9 <=? c) && (c <=? 13)) || ((28 <=? c) && (c <=? 32))
  || (c =? 0x85) || (c =? 0xA0) || (c =? 0x1680)
  || ((0x2000 <=? c) && (c <=? 0x200A))
  || (c =? 0x2028) || (c =? 0x2029) || (c =? 0x202F) || (c =? 0x205F)
  || (c =? 0x3000).

Fixpoint lstrip (s : pystr) : pystr :=
  match s with
  | [] => []
  | c :: s' => if isspace c then lstrip s' else s
  end.

Fixpoint rstrip_space (s : pystr) : pystr :=
  match s with
  | [] => []
  | x :: s' =>
    match rstrip_space s' with
    | [] => if isspace x then [] else [x]
    | r => x :: r
    end
  end.

(** [s.strip()]. *)
Definition strip (s : pystr) : pystr := rstrip_space (lstrip s).

(** [s.startswith(prefix)]. *)
Fixpoint startswith (prefix s : pystr) : bool :=
  match prefix, s with
  | [], _ => true
  | p :: prefix', c :: s' => (c =? p) && startswith prefix' s'
  | _ :: _, [] => false
  end.

(** [c in s] for one character. *)
Definition contains (c : N) (s : pystr) : bool := existsb (N.eqb c) s.

Definition SPACE : N := 32.   (* " " *)
Definition COLON : N := 58.   (* ":" *)

(** The envelopes the client builds; the server receives what
    [json.loads] makes of [json.dumps] of the dict, the dict itself. *)
Definition login_envelope (username : pystr) : gmap pystr jval :=
  <[py "username" := JStr username]> {[ py "action" := JStr (py "login") ]}.
Definition subscribe_envelope (room : pystr) : gmap pystr jval :=
  <[py "room" := JStr room]> {[ py "action" := JStr (py "subscribe") ]}.
Definition publish_envelope (room message : pystr) : gmap pystr jval :=
  <[py "message" := JStr message]>
    (<[py "room" := JStr room]> {[ py "action" := JStr (py "publish") ]}).
Definition logout_envelope : gmap pystr jval :=
  {[ py "action" := JStr (py "logout") ]}.

(** What the client does, in order. *)
Inductive client_action :=
| Send (data : gmap pystr jval)   (* await ws.send(json.dumps(data)) *)
| Close                           (* await ws.close() *)
| Say (text : pystr).             (* print(text) *)

(** One turn of the loop of [stdin_publisher] on what [readline]
    returned: the actions of the turn, then [None] when the coroutine
    ends and the next value of [last_room] when the loop goes on.
    Unpacking a split that has not two parts raises [ValueError], which
    ends the coroutine. *)
Definition publisher_turn (last_room : option pystr) (line : pystr)
    : list client_action * option (option pystr) :=
  match line with
  | [] => ([Close], None)
  | _ =>
    let line := strip line in
    match line with
    | [] => ([], Some last_room)
    | _ =>
      if startswith (py "/quit") line then
        ([Send logout_envelope; Close], None)
      else if startswith (py "/join ") line then
        match split SPACE 1 line with
        | [_; room] =>
          ([Send (subscribe_envelope (strip room))], Some (Some (strip room)))
        | _ => ([], None)
        end
      else if contains COLON line then
        match split COLON 1 line with
        | [room; message] =>
          let room := strip room in
          let message := strip message in
          ([Send (publish_envelope room message)], Some (Some room))
        | _ => ([], None)
        end
      else
        match last_room with
        | Some (c :: r) =>
          ([Send (publish_envelope (c :: r) line)], Some last_room)
        | _ =>
          ([Say (py "No room selected. Use '/join ROOM' or 'ROOM: message'.")],
           Some last_room)
        end
    end
  end.

(** The loop of [stdin_publisher] over the lines read so far. *)
Fixpoint publisher_loop (last_room : option pystr) (lines : list pystr)
    : list client_action :=
  match lines with
  | [] => []
  | line :: rest =>
    let '(actions, next) := publisher_turn last_room line in
    actions ++ match next with
               | Some last_room => publisher_loop last_room rest
               | None => []
               end
  end.

Definition stdin_publisher (lines : list pystr) : list client_action :=
  Say (py "Type '/join ROOM' to subscribe to a room. Type '/quit' to exit.")
  :: Say (py "Publish with 'ROOM: your message' or just 'your message' to send to last used room.")
  :: publisher_loop None lines.

(** What [main] sends before the two coroutines start. *)
Definition main_sends (username : pystr) (rooms : list pystr)
    : list (gmap pystr jval) :=
  login_envelope username :: (subscribe_envelope <$> rooms).


(** * Properties *)

(** ** Sockets *)

Lemma ws_send_open (w : World) (ws : conn) (payload : Frame) :
  is_open w ws →
  ws_send ws payload w
  = (Return (), set_sent <[ws := outbox w ws ++ [payload]]> w).
Proof. unfold is_open, ws_send. by intros ->. Qed.

Lemma ws_send_closed (w : World) (ws : conn) (payload : Frame) :
  ¬ is_open w ws → ws_send ws payload w = (Raise ConnectionClosed, w).
Proof.
  unfold is_open, ws_send. destruct (closed w !! ws); [done | congruence].
Qed.

Lemma outbox_sent_eq (w : World) (ws : conn) (l : list Frame) :
  outbox (set_sent <[ws := l]> w) ws = l.
Proof. unfold outbox. simpl. by rewrite lookup_insert_eq. Qed.

Lemma outbox_sent_ne (w : World) (ws ws' : conn) (l : list Frame) :
  ws ≠ ws' → outbox (set_sent <[ws := l]> w) ws' = outbox w ws'.
Proof. intros. unfold outbox. simpl. by rewrite lookup_insert_ne. Qed.

(** ** Publishing *)

(** C9. A publish from a connection that has not logged in, with a
    non-empty room and a non-empty message, sends that connection the
    [not_logged_in] error and changes nothing else: no history deque,
    no log file, no other socket and no dictionary of the server. *)
Theorem publish_requires_login (cfg : Config) (w : World) (ws : conn)
    (data : gmap pystr jval) (now room message : pystr) :
  dict_get data (py "room") = JStr room → room ≠ [] →
  dict_get data (py "message") = JStr message → message ≠ [] →
  ws_to_username w !! ws = None →
  is_open w ws →
  ∃ w',
    _handle_publish cfg ws data now w = (Return (), w')
    ∧ outbox w' ws
      = outbox w ws ++ [ErrorFrame (py "not_logged_in")
                          (py "Login required before publishing")]
    ∧ (∀ ws', ws' ≠ ws → outbox w' ws' = outbox w ws')
    ∧ room_to_history w' = room_to_history w
    ∧ files w' = files w
    ∧ closed w' = closed w
    ∧ username_to_ws w' = username_to_ws w
    ∧ ws_to_username w' = ws_to_username w
    ∧ room_to_subscribers w' = room_to_subscribers w
    ∧ ws_to_rooms w' = ws_to_rooms w.
Proof.
  intros Hroom Hr Hmsg Hm Hanon Hopen.
  eexists. split.
  - unfold _handle_publish. rewrite Hroom, Hmsg.
    destruct room as [|c room]; [done|]. destruct message as [|c' message]; [done|].
    simpl. unfold bind, get. rewrite Hanon.
    unfold _send_error. by apply ws_send_open.
  - split; [apply outbox_sent_eq|].
    split; [intros ws' Hne; by apply outbox_sent_ne|]. done.
Qed.

(** ** Logging in *)

Lemma handle_login_taken (w : World) (ws : conn)
    (data : gmap pystr jval) (name : pystr) :
  dict_get data (py "username") = JStr name → name ≠ [] →
  is_open w ws →
  is_Some (username_to_ws w !! name) →
  _handle_login ws data w
  = (Return (),
     set_closed <[ws := (4000%Z, py "username_taken")]>
       (set_sent <[ws := outbox w ws
                     ++ [ErrorFrame (py "username_taken")
                           (py "Username already in use")]]> w)).
Proof.
  intros Hdata Hname Hopen Htaken.
  unfold _handle_login. rewrite Hdata.
  destruct name as [|c name]; [done|]. simpl.
  unfold bind, get. rewrite bool_decide_eq_true_2 by done.
  unfold _send_error. rewrite ws_send_open by done.
  unfold ws_close. simpl. by rewrite Hopen.
Qed.

Lemma handle_login_free (w : World) (ws : conn)
    (data : gmap pystr jval) (name : pystr) :
  dict_get data (py "username") = JStr name → name ≠ [] →
  is_open w ws →
  username_to_ws w !! name = None →
  _handle_login ws data w
  = (Return (),
     set_sent <[ws := outbox w ws
                  ++ [OkFrame (py "login_ok") [(py "username", name)]]]>
       (set_ws_to_username <[ws := name]>
          (set_username_to_ws <[name := ws]> w))).
Proof.
  intros Hdata Hname Hopen Hfree.
  unfold _handle_login. rewrite Hdata.
  destruct name as [|c name]; [done|]. simpl.
  unfold bind, get. rewrite bool_decide_eq_false_2; last first.
  { rewrite Hfree. by intros [? ?]. }
  unfold modify, _send_ok. simpl. by rewrite ws_send_open.
Qed.

(** C3, as the code has it. A login with a non-empty string name is
    refused with [username_taken] exactly when the name is a key of
    [username_to_ws], whichever socket it is bound to; a refused login
    leaves both identity dictionaries as they were. *)
Theorem login_username_taken (w : World) (ws : conn)
    (data : gmap pystr jval) (name : pystr) :
  dict_get data (py "username") = JStr name → name ≠ [] →
  is_open w ws →
  ((∃ w', login_refused w ws data (py "username_taken") w')
   ↔ is_Some (username_to_ws w !! name))
  ∧ (∀ w', login_refused w ws data (py "username_taken") w' →
       username_to_ws w' = username_to_ws w
       ∧ ws_to_username w' = ws_to_username w).
Proof.
  intros Hdata Hname Hopen.
  destruct (username_to_ws w !! name) as [owner|] eqn:Hlook.
  - assert (Htaken : is_Some (username_to_ws w !! name)) by (rewrite Hlook; eauto).
    pose proof (handle_login_taken w ws data name Hdata Hname Hopen Htaken) as Hrun.
    split.
    + split; [eauto|]. intros _. eexists. split; [exact Hrun|].
      eexists. simpl. unfold outbox at 1. simpl. by rewrite lookup_insert_eq.
    + intros w' [Hrun' _]. rewrite Hrun in Hrun'. by simplify_eq.
  - pose proof (handle_login_free w ws data name Hdata Hname Hopen Hlook) as Hrun.
    assert (Hno : ∀ w', ¬ login_refused w ws data (py "username_taken") w').
    { intros w' [Hrun' [message Hout]]. rewrite Hrun in Hrun'. simplify_eq.
      rewrite outbox_sent_eq in Hout. apply app_inv_head in Hout. done. }
    split.
    + split; [intros [w' Hw']; by destruct (Hno w')|]. by intros [? ?].
    + intros w' Hw'. by destruct (Hno w').
Qed.

(** C3, as the claim words it, fails: a socket that logs in again under
    its own name is refused although no other socket holds the name. *)
Lemma login_refused_on_own_name :
  let w := run default_config empty_world [Login 1%nat (login_data "alice")] in
  is_open w 1%nat
  ∧ (∃ w', login_refused w 1%nat (login_data "alice")
             (py "username_taken") w')
  ∧ ¬ bound_elsewhere w 1%nat (py "alice").
Proof.
  split; [by vm_compute|]. split.
  - eexists. split; [vm_compute; reflexivity|].
    eexists. vm_compute. reflexivity.
  - intros (ws' & Hlook & Hne & _). vm_compute in Hlook. congruence.
Qed.

(** The hypotheses of [login_username_taken] hold in a run of the server. *)
Lemma login_username_taken_witness :
  let w := run default_config empty_world [Login 1%nat (login_data "alice")] in
  ((∃ w', login_refused w 2%nat (login_data "alice")
            (py "username_taken") w')
   ↔ is_Some (username_to_ws w !! py "alice"))
  ∧ (∀ w', login_refused w 2%nat (login_data "alice")
             (py "username_taken") w' →
       username_to_ws w' = username_to_ws w
       ∧ ws_to_username w' = ws_to_username w).
Proof.
  apply (login_username_taken _ 2%nat (login_data "alice") (py "alice")).
  - reflexivity.
  - discriminate.
  - reflexivity.
Defined.

(** ** A log write that fails *)

Lemma append_to_room_log_fails (cfg : Config) (w : World) (room : pystr)
    (record : Message) :
  _room_log_path cfg room ∈ unwritable w
  ∨ utf8_encode (log_line record) = None →
  ∃ e w',
    _append_to_room_log cfg room record w = (Raise e, w')
    ∧ e ≠ ConnectionClosed
    ∧ room_to_history w' = room_to_history w
    ∧ sent w' = sent w ∧ closed w' = closed w
    ∧ username_to_ws w' = username_to_ws w
    ∧ ws_to_username w' = ws_to_username w
    ∧ room_to_subscribers w' = room_to_subscribers w
    ∧ ws_to_rooms w' = ws_to_rooms w.
Proof.
  intros Hfail. unfold _append_to_room_log.
  destruct (bool_decide (_room_log_path cfg room ∈ unwritable w)) eqn:Hpath.
  - exists OSError, w. done.
  - destruct Hfail as [Hin | Henc].
    + apply bool_decide_eq_false_1 in Hpath. done.
    + rewrite Henc. eexists UnicodeEncodeError, _. done.
Qed.

(** C4, as the code has it. When the append to the room's log raises
    (the file cannot be opened, or the line cannot be encoded), the
    exception leaves [_handle_publish]: the record is already in the
    in-memory history, but it is not broadcast, no socket receives
    anything and the dictionaries of the server are unchanged. *)
Theorem publish_log_failure_aborts (cfg : Config) (w : World) (ws : conn)
    (data : gmap pystr jval) (now room message : pystr) (c : N) (u : pystr) :
  dict_get data (py "room") = JStr room → room ≠ [] →
  dict_get data (py "message") = JStr message → message ≠ [] →
  ws_to_username w !! ws = Some (c :: u) →
  _room_log_path cfg room ∈ unwritable w
  ∨ utf8_encode (log_line (mkMessage room (c :: u) message now)) = None →
  ∃ e w',
    _handle_publish cfg ws data now w = (Raise e, w')
    ∧ e ≠ ConnectionClosed
    ∧ history w' room
      = deque_append (HISTORY_SIZE cfg) (history w room)
          (mkMessage room (c :: u) message now)
    ∧ sent w' = sent w
    ∧ username_to_ws w' = username_to_ws w
    ∧ ws_to_username w' = ws_to_username w
    ∧ room_to_subscribers w' = room_to_subscribers w
    ∧ ws_to_rooms w' = ws_to_rooms w.
Proof.
  intros Hroom Hr Hmsg Hm Huser Hfail.
  set (record := mkMessage room (c :: u) message now) in *.
  set (w1 := set_room_to_history
    <[room := deque_append (HISTORY_SIZE cfg) (history w room) record]> w).
  destruct (append_to_room_log_fails cfg w1 room record Hfail)
    as (e & w' & Hrun & He & Hh & Hs & _ & Hu & Hwu & Hsubs & Hrooms).
  exists e, w'. split.
  - unfold _handle_publish. rewrite Hroom, Hmsg.
    destruct room as [|c0 room]; [done|].
    destruct message as [|c1 message]; [done|].
    simpl. unfold bind at 1, get. rewrite Huser.
    unfold bind at 1, modify. fold record. fold w1.
    unfold bind. by rewrite Hrun.
  - split; [done|]. split.
    { unfold history. rewrite Hh. simpl. by rewrite lookup_insert_eq. }
    by rewrite Hs, Hu, Hwu, Hsubs, Hrooms.
Qed.

(** C4, as the claim words it, fails: with the room's log file not
    writable, the publish raises [OSError] and the open subscriber of
    the room receives nothing. *)
Lemma publish_log_failure_not_delivered :
  let w :=
    set_unwritable (λ _, {[ py "general.txt" ]})
      (run default_config empty_world
         [Login 1%nat (login_data "bob");
          Subscribe 2%nat (subscribe_data "general")]) in
  2%nat ∈ subscribers w (py "general") ∧ is_open w 2%nat
  ∧ ∃ w',
      _handle_publish default_config 1%nat
        (publish_data "general" (py "hi")) (py "2024-01-01T00:00:00+00:00") w
      = (Raise OSError, w')
      ∧ outbox w' 2%nat = outbox w 2%nat.
Proof.
  split; [by vm_compute|]. split; [by vm_compute|].
  eexists. split; [vm_compute; reflexivity|]. vm_compute. reflexivity.
Qed.

(** A message with a lone surrogate, which [json.loads] accepts, cannot
    be encoded for the log: the same abort without any fault of the disk. *)
Lemma publish_surrogate_not_delivered :
  let w :=
    run default_config empty_world
      [Login 1%nat (login_data "bob");
       Subscribe 2%nat (subscribe_data "general")] in
  ∃ w',
    _handle_publish default_config 1%nat
      (publish_data "general" [0xD83D]) (py "2024-01-01T00:00:00+00:00") w
    = (Raise UnicodeEncodeError, w')
    ∧ outbox w' 2%nat = outbox w 2%nat
    ∧ files w' !! py "general.txt" = Some [].
Proof.
  eexists. split; [vm_compute; reflexivity|].
  split; vm_compute; reflexivity.
Qed.

(** The hypotheses of [publish_log_failure_aborts] hold in a run of the
    server whose log file is not writable. *)
Lemma publish_log_failure_aborts_witness :
  let cfg := default_config in
  let w :=
    set_unwritable (λ _, {[ py "general.txt" ]})
      (run default_config empty_world
         [Login 1%nat (login_data "bob");
          Subscribe 2%nat (subscribe_data "general")]) in
  let record := mkMessage (py "general") (py "bob") (py "hi") (py "T") in
  ∃ e w',
    _handle_publish cfg 1%nat (publish_data "general" (py "hi")) (py "T") w
    = (Raise e, w')
    ∧ e ≠ ConnectionClosed
    ∧ history w' (py "general")
      = deque_append (HISTORY_SIZE cfg) (history w (py "general")) record
    ∧ sent w' = sent w
    ∧ username_to_ws w' = username_to_ws w
    ∧ ws_to_username w' = ws_to_username w
    ∧ room_to_subscribers w' = room_to_subscribers w
    ∧ ws_to_rooms w' = ws_to_rooms w.
Proof.
  apply (publish_log_failure_aborts default_config _ 1%nat
           (publish_data "general" (py "hi")) (py "T") (py "general") (py "hi")
           98 (py "ob")).
  - reflexivity.
  - discriminate.
  - reflexivity.
  - discriminate.
  - reflexivity.
  - left. vm_compute. reflexivity.
Defined.

(** ** Cleanup *)

Lemma discard_subscriber_members (ws x : conn) (m : gmap pystr (gset conn))
    (r0 r : pystr) :
  x ∈ default ∅ (discard_subscriber ws m r0 !! r)
  ↔ x ∈ default ∅ (m !! r) ∧ ¬ (x = ws ∧ r = r0).
Proof.
  unfold discard_subscriber.
  destruct (m !! r0) as [subs|] eqn:Hr0.
  - destruct (bool_decide (subs ≠ ∅) && bool_decide (ws ∈ subs)) eqn:Hc.
    + apply andb_true_iff in Hc as [_ Hin%bool_decide_eq_true_1].
      destruct (decide (r = r0)) as [->|Hne].
      * rewrite lookup_insert_eq, Hr0. simpl. set_solver.
      * rewrite lookup_insert_ne by done. naive_solver.
    + apply andb_false_iff in Hc.
      split; [|naive_solver]. intros Hx. split; [done|].
      intros [-> ->]. rewrite Hr0 in Hx. simpl in Hx.
      destruct Hc as [Hc|Hc]; apply bool_decide_eq_false_1 in Hc; set_solver.
  - split; [|naive_solver]. intros Hx. split; [done|].
    intros [-> ->]. rewrite Hr0 in Hx. set_solver.
Qed.

Lemma discard_all_members (ws x : conn) (rs : list pystr)
    (m : gmap pystr (gset conn)) (r : pystr) :
  x ∈ default ∅ (foldl (discard_subscriber ws) m rs !! r)
  ↔ x ∈ default ∅ (m !! r) ∧ ¬ (x = ws ∧ r ∈ rs).
Proof.
  revert m. induction rs as [|r0 rs IH]; intros m; simpl.
  - set_solver.
  - rewrite IH, discard_subscriber_members. set_solver.
Qed.

Lemma cleanup_ws_to_username (ws : conn) (w : World) :
  ws_to_username (cleanup_world ws w) = delete ws (ws_to_username w).
Proof.
  unfold cleanup_world.
  destruct (ws_to_username w !! ws) as [[|c u]|]; simpl; try done.
  by case_bool_decide.
Qed.

Lemma cleanup_ws_to_rooms (ws : conn) (w : World) :
  ws_to_rooms (cleanup_world ws w) = delete ws (ws_to_rooms w).
Proof.
  unfold cleanup_world.
  destruct (ws_to_username w !! ws) as [[|c u]|]; simpl; try done.
  by case_bool_decide.
Qed.

Lemma cleanup_subscribers (ws x : conn) (w : World) (r : pystr) :
  x ∈ subscribers (cleanup_world ws w) r
  ↔ x ∈ subscribers w r ∧ ¬ (x = ws ∧ r ∈ rooms_of w ws).
Proof.
  unfold subscribers, rooms_of, cleanup_world.
  destruct (ws_to_username w !! ws) as [[|c u]|]; simpl;
    try case_bool_decide; simpl;
    rewrite discard_all_members; by setoid_rewrite elem_of_elements.
Qed.

Lemma cleanup_username_to_ws (ws : conn) (w : World) (u : pystr) :
  username_to_ws (cleanup_world ws w) !! u
  = if bool_decide (ws_to_username w !! ws = Some u ∧ u ≠ []
                    ∧ username_to_ws w !! u = Some ws)
    then None else username_to_ws w !! u.
Proof.
  unfold cleanup_world.
  destruct (ws_to_username w !! ws) as [[|c v]|] eqn:Hws; simpl.
  - rewrite bool_decide_eq_false_2; [done|]. naive_solver.
  - destruct (decide (username_to_ws w !! (c :: v) = Some ws)) as [Hb|Hb].
    + rewrite (bool_decide_eq_true_2 _ Hb). simpl.
      destruct (decide (u = c :: v)) as [->|Hne].
      * rewrite lookup_delete_eq. by rewrite bool_decide_eq_true_2.
      * rewrite lookup_delete_ne by done.
        rewrite bool_decide_eq_false_2; [done|]. naive_solver.
    + rewrite (bool_decide_eq_false_2 _ Hb).
      rewrite bool_decide_eq_false_2; [done|]. naive_solver.
  - done.
Qed.

Lemma cleanup_frame (ws : conn) (w : World) :
  closed (cleanup_world ws w) = closed w
  ∧ sent (cleanup_world ws w) = sent w
  ∧ files (cleanup_world ws w) = files w
  ∧ room_to_history (cleanup_world ws w) = room_to_history w
  ∧ unwritable (cleanup_world ws w) = unwritable w.
Proof.
  unfold cleanup_world.
  destruct (ws_to_username w !! ws) as [[|c u]|]; simpl; try done.
  by case_bool_decide.
Qed.

(** ** Broadcast *)

Lemma safe_send_run (ws : conn) (payload : Frame) (w : World) :
  _safe_send ws payload w = (Return (), safe_send_world payload w ws).
Proof.
  unfold _safe_send, try_except, ws_send, safe_send_world.
  destruct (closed w !! ws); [|done].
  by rewrite decide_True.
Qed.

Lemma for_each_safe_send (subs : list conn) (payload : Frame) (w : World) :
  for_each subs (λ ws, _safe_send ws payload) w
  = (Return (), foldl (safe_send_world payload) w subs).
Proof.
  revert w. induction subs as [|a subs IH]; intros w; simpl; [done|].
  unfold bind. by rewrite safe_send_run, IH.
Qed.

Lemma broadcast_run (room : pystr) (record : Message) (w : World) :
  _broadcast room record w
  = (Return (),
     foldl (safe_send_world (MessageFrame record)) w
       (elements (subscribers w room))).
Proof.
  unfold _broadcast, bind, get.
  destruct (elements (subscribers w room)) as [|a subs] eqn:Hsubs; [done|].
  by rewrite for_each_safe_send.
Qed.

Lemma safe_send_frame (payload : Frame) (w : World) (a : conn) :
  closed (safe_send_world payload w a) = closed w
  ∧ files (safe_send_world payload w a) = files w
  ∧ room_to_history (safe_send_world payload w a) = room_to_history w
  ∧ unwritable (safe_send_world payload w a) = unwritable w.
Proof.
  unfold safe_send_world. destruct (closed w !! a); [|done].
  pose proof (cleanup_frame a w). naive_solver.
Qed.

Lemma deliver_frame (payload : Frame) (subs : list conn) (w : World) :
  closed (foldl (safe_send_world payload) w subs) = closed w
  ∧ files (foldl (safe_send_world payload) w subs) = files w
  ∧ room_to_history (foldl (safe_send_world payload) w subs) = room_to_history w
  ∧ unwritable (foldl (safe_send_world payload) w subs) = unwritable w.
Proof.
  revert w. induction subs as [|a subs IH]; intros w; simpl; [done|].
  destruct (IH (safe_send_world payload w a)) as (-> & -> & -> & ->).
  apply safe_send_frame.
Qed.

Lemma safe_send_outbox (payload : Frame) (w : World) (a ws : conn) :
  outbox (safe_send_world payload w a) ws
  = if bool_decide (ws = a ∧ is_open w ws)
    then outbox w ws ++ [payload] else outbox w ws.
Proof.
  unfold safe_send_world, is_open.
  destruct (closed w !! a) as [code|] eqn:Ha.
  - rewrite bool_decide_eq_false_2 by (intros [-> ?]; congruence).
    unfold outbox. by destruct (cleanup_frame a w) as (_ & -> & _).
  - destruct (decide (ws = a)) as [->|Hne].
    + rewrite bool_decide_eq_true_2 by done. apply outbox_sent_eq.
    + rewrite bool_decide_eq_false_2 by naive_solver.
      by apply outbox_sent_ne.
Qed.

(** Every open socket of the list receives the payload once; no other
    socket receives anything. *)
Lemma deliver_outbox (payload : Frame) (subs : list conn) (w : World)
    (ws : conn) :
  NoDup subs →
  outbox (foldl (safe_send_world payload) w subs) ws
  = if bool_decide (ws ∈ subs ∧ is_open w ws)
    then outbox w ws ++ [payload] else outbox w ws.
Proof.
  revert w. induction subs as [|a subs IH]; intros w Hnodup; cbn [foldl].
  - rewrite bool_decide_eq_false_2; [done|]. set_solver.
  - apply NoDup_cons in Hnodup as [Ha Hnodup].
    rewrite IH by done. rewrite safe_send_outbox.
    assert (Hopen : is_open (safe_send_world payload w a) ws ↔ is_open w ws).
    { unfold is_open. by destruct (safe_send_frame payload w a) as (-> & _). }
    destruct (decide (is_open w ws)) as [Ho|Ho].
    + destruct (decide (ws = a)) as [->|Hne].
      * rewrite (bool_decide_eq_false_2 (a ∈ subs ∧ _)) by naive_solver.
        rewrite bool_decide_eq_true_2 by done.
        rewrite bool_decide_eq_true_2; [done|]. set_solver.
      * rewrite (bool_decide_eq_false_2 (ws = a ∧ _)) by naive_solver.
        destruct (decide (ws ∈ subs)) as [Hin|Hin].
        -- rewrite !bool_decide_eq_true_2; [done| set_solver | naive_solver].
        -- rewrite !bool_decide_eq_false_2; [done| set_solver | naive_solver].
    + rewrite !bool_decide_eq_false_2; [done | naive_solver ..].
Qed.

Lemma same_bookkeeping_refl (ws : conn) (w : World) : same_bookkeeping ws w w.
Proof. by unfold same_bookkeeping. Qed.

Lemma same_bookkeeping_trans (ws : conn) (w1 w2 w3 : World) :
  same_bookkeeping ws w1 w2 → same_bookkeeping ws w2 w3 →
  same_bookkeeping ws w1 w3.
Proof.
  intros (Hu & Hr & Hs & Hn) (Hu' & Hr' & Hs' & Hn').
  repeat split; try congruence; intros H.
  - by apply Hs, Hs'.
  - by apply Hs', Hs.
  - by apply Hn, Hn'.
  - by apply Hn', Hn.
Qed.

Lemma cleanup_same_bookkeeping (ws a : conn) (w : World) :
  ws ≠ a → same_bookkeeping ws w (cleanup_world a w).
Proof.
  intros Hne. unfold same_bookkeeping.
  rewrite cleanup_ws_to_username, cleanup_ws_to_rooms.
  rewrite !lookup_delete_ne by done.
  split; [done|]. split; [done|]. split.
  - intros r. rewrite cleanup_subscribers. naive_solver.
  - intros u. rewrite cleanup_username_to_ws.
    case_bool_decide; [|done]. naive_solver.
Qed.

Lemma safe_send_same_bookkeeping (payload : Frame) (ws a : conn) (w : World) :
  is_open w ws → same_bookkeeping ws w (safe_send_world payload w a).
Proof.
  intros Hopen. unfold safe_send_world.
  destruct (closed w !! a) eqn:Ha.
  - apply cleanup_same_bookkeeping. intros ->. unfold is_open in Hopen. congruence.
  - by unfold same_bookkeeping.
Qed.

(** A broadcast leaves alone whatever the server knows of an open socket. *)
Lemma deliver_open_untouched (payload : Frame) (subs : list conn) (w : World)
    (ws : conn) :
  is_open w ws →
  same_bookkeeping ws w (foldl (safe_send_world payload) w subs).
Proof.
  revert w. induction subs as [|a subs IH]; intros w Hopen; simpl.
  - apply same_bookkeeping_refl.
  - eapply same_bookkeeping_trans.
    + by apply (safe_send_same_bookkeeping payload ws a).
    + apply IH. unfold is_open.
      by destruct (safe_send_frame payload w a) as (-> & _).
Qed.

Lemma forgets_refl (w : World) : forgets w w.
Proof. by unfold forgets. Qed.

Lemma forgets_trans (w1 w2 w3 : World) :
  forgets w1 w2 → forgets w2 w3 → forgets w1 w3.
Proof. unfold forgets. naive_solver. Qed.

Lemma cleanup_forgets (a : conn) (w : World) : forgets w (cleanup_world a w).
Proof.
  unfold forgets. rewrite cleanup_ws_to_username, cleanup_ws_to_rooms.
  split; [|split; [|split]].
  - intros x Hx. destruct (decide (x = a)) as [->|Hne].
    + apply lookup_delete_eq.
    + by rewrite lookup_delete_ne.
  - intros x Hx. destruct (decide (x = a)) as [->|Hne].
    + apply lookup_delete_eq.
    + by rewrite lookup_delete_ne.
  - intros x r. rewrite cleanup_subscribers. naive_solver.
  - intros u x. rewrite cleanup_username_to_ws. by case_bool_decide.
Qed.

Lemma safe_send_forgets (payload : Frame) (a : conn) (w : World) :
  forgets w (safe_send_world payload w a).
Proof.
  unfold safe_send_world. destruct (closed w !! a).
  - apply cleanup_forgets.
  - by unfold forgets.
Qed.

Lemma deliver_forgets (payload : Frame) (subs : list conn) (w : World) :
  forgets w (foldl (safe_send_world payload) w subs).
Proof.
  revert w. induction subs as [|a subs IH]; intros w; simpl.
  - apply forgets_refl.
  - eapply forgets_trans; [apply safe_send_forgets | apply IH].
Qed.

(** A broadcast cleans up every closed socket of the list: its name,
    its set of rooms and its place in the rooms of that set. *)
Lemma deliver_closed_cleaned (payload : Frame) (subs : list conn) (w : World)
    (ws : conn) :
  ws ∈ subs → ¬ is_open w ws →
  ws_to_username (foldl (safe_send_world payload) w subs) !! ws = None
  ∧ ws_to_rooms (foldl (safe_send_world payload) w subs) !! ws = None
  ∧ (∀ r, r ∈ rooms_of w ws →
       ws ∉ subscribers (foldl (safe_send_world payload) w subs) r)
  ∧ (∀ u, ws_to_username w !! ws = Some u → u ≠ [] →
       username_to_ws (foldl (safe_send_world payload) w subs) !! u ≠ Some ws).
Proof.
  revert w. induction subs as [|a subs IH]; intros w Hin Hclosed.
  { by apply elem_of_nil in Hin. }
  cbn [foldl].
  destruct (decide (a = ws)) as [->|Hne].
  - assert (Hstep : safe_send_world payload w ws = cleanup_world ws w).
    { unfold safe_send_world. unfold is_open in Hclosed.
      by destruct (closed w !! ws). }
    rewrite Hstep.
    destruct (deliver_forgets payload subs (cleanup_world ws w))
      as (Hu & Hr & Hs & Hn).
    split; [|split; [|split]].
    + apply Hu. rewrite cleanup_ws_to_username. apply lookup_delete_eq.
    + apply Hr. rewrite cleanup_ws_to_rooms. apply lookup_delete_eq.
    + intros r Hroom Hmem. apply Hs in Hmem.
      apply cleanup_subscribers in Hmem. naive_solver.
    + intros u Hname Hu0 Hbound. apply Hn in Hbound.
      rewrite cleanup_username_to_ws in Hbound.
      case_bool_decide; [done|]. naive_solver.
  - apply elem_of_cons in Hin as [->|Hin]; [done|].
    assert (Hsame : same_bookkeeping ws w (safe_send_world payload w a)).
    { unfold safe_send_world. destruct (closed w !! a).
      - by apply cleanup_same_bookkeeping.
      - by unfold same_bookkeeping. }
    destruct Hsame as (Hu & Hr & _ & _).
    destruct (IH (safe_send_world payload w a) Hin) as (H1 & H2 & H3 & H4).
    { unfold is_open. by destruct (safe_send_frame payload w a) as (-> & _). }
    split; [done|]. split; [done|]. split.
    + intros r Hroom. apply H3. unfold rooms_of in *. by rewrite Hr.
    + intros u Hname. apply H4. by rewrite Hu.
Qed.

(** C5. A broadcast to a room whose subscribers include an open socket
    [s1] and a closed socket [s2] returns without raising; [s1], like
    every open subscriber, receives the record once; [s2] is cleaned up
    (its name and its rooms are forgotten and it leaves the subscriber
    set of each of its rooms); and what the server knows of any open
    socket is left as it was. *)
Theorem broadcast_partial_failure (w : World) (room : pystr)
    (record : Message) (s1 s2 : conn) :
  s1 ∈ subscribers w room → is_open w s1 →
  s2 ∈ subscribers w room → ¬ is_open w s2 →
  ∃ w',
    _broadcast room record w = (Return (), w')
    ∧ outbox w' s1 = outbox w s1 ++ [MessageFrame record]
    ∧ (∀ ws, ws ∈ subscribers w room → is_open w ws →
         outbox w' ws = outbox w ws ++ [MessageFrame record])
    ∧ ws_to_username w' !! s2 = None
    ∧ ws_to_rooms w' !! s2 = None
    ∧ (∀ r, r ∈ rooms_of w s2 → s2 ∉ subscribers w' r)
    ∧ (∀ u, ws_to_username w !! s2 = Some u → u ≠ [] →
         username_to_ws w' !! u ≠ Some s2)
    ∧ (∀ ws, is_open w ws → same_bookkeeping ws w w')
    ∧ room_to_history w' = room_to_history w
    ∧ files w' = files w.
Proof.
  intros Hs1 Ho1 Hs2 Hc2.
  eexists. split; [apply broadcast_run|].
  set (subs := elements (subscribers w room)).
  assert (Hnodup : NoDup subs) by apply NoDup_elements.
  assert (Hdeliver : ∀ ws, ws ∈ subscribers w room → is_open w ws →
    outbox (foldl (safe_send_world (MessageFrame record)) w subs) ws
    = outbox w ws ++ [MessageFrame record]).
  { intros ws Hws Hopen. rewrite deliver_outbox by done.
    rewrite bool_decide_eq_true_2; [done|].
    split; [|done]. by apply elem_of_elements. }
  split; [by apply Hdeliver|]. split; [done|].
  destruct (deliver_closed_cleaned (MessageFrame record) subs w s2)
    as (H1 & H2 & H3 & H4); [by apply elem_of_elements | done |].
  split; [done|]. split; [done|]. split; [done|]. split; [done|].
  split; [intros ws Hopen; by apply deliver_open_untouched|].
  by destruct (deliver_frame (MessageFrame record) subs w) as (_ & -> & -> & _).
Qed.

(** ** Subscribing *)

Lemma send_recent_history_run (cfg : Config) (w : World) (ws : conn)
    (room : pystr) (count : Z) :
  is_open w ws →
  ∃ w',
    _send_recent_history cfg ws room count w = (Return (), w')
    ∧ room_to_history w' = <[room := seeded_history cfg w room]> (room_to_history w)
    ∧ outbox w' ws
      = outbox w ws
        ++ replay_frames room (slice_from (- count) (seeded_history cfg w room))
    ∧ (∀ ws', ws' ≠ ws → outbox w' ws' = outbox w ws')
    ∧ closed w' = closed w ∧ files w' = files w
    ∧ username_to_ws w' = username_to_ws w
    ∧ ws_to_username w' = ws_to_username w
    ∧ room_to_subscribers w' = room_to_subscribers w
    ∧ ws_to_rooms w' = ws_to_rooms w.
Proof.
  intros Hopen. unfold _send_recent_history, bind, get, modify.
  assert (Hseed :
    match history w room with
    | [] => foldl (deque_append (HISTORY_SIZE cfg)) (history w room)
              (_read_last_lines_from_log cfg w room (HISTORY_SIZE cfg))
    | _ :: _ => history w room
    end = seeded_history cfg w room).
  { unfold seeded_history. by destruct (history w room). }
  rewrite Hseed.
  destruct (slice_from (- count) (seeded_history cfg w room)) as [|m recent] eqn:Hrecent.
  - eexists. split; [done|]. simpl. rewrite app_nil_r. done.
  - eexists. split; [by apply ws_send_open|]. simpl.
    split; [done|]. split.
    { unfold outbox at 1. simpl. by rewrite lookup_insert_eq. }
    split; [|done]. intros ws' Hne. unfold outbox. simpl.
    by rewrite lookup_insert_ne.
Qed.

Lemma handle_subscribe_run (cfg : Config) (w : World) (ws : conn)
    (data : gmap pystr jval) (room : pystr) :
  dict_get data (py "room") = JStr room → room ≠ [] →
  is_open w ws →
  ∃ w',
    _handle_subscribe cfg ws data w = (Return (), w')
    ∧ ws ∈ subscribers w' room
    ∧ room ∈ rooms_of w' ws
    ∧ ws_to_username w' = ws_to_username w
    ∧ is_open w' ws
    ∧ outbox w' ws
      = outbox w ws
        ++ OkFrame (py "subscribed") [(py "room", room)]
        :: replay_frames room
             (slice_from (- HISTORY_ON_SUBSCRIBE cfg) (seeded_history cfg w room)).
Proof.
  intros Hdata Hroom Hopen.
  set (w1 := set_room_to_subscribers <[room := subscribers w room ∪ {[ws]}]> w).
  set (w2 := set_ws_to_rooms <[ws := default ∅ (ws_to_rooms w1 !! ws) ∪ {[room]}]> w1).
  set (w3 := set_sent
    <[ws := outbox w2 ws ++ [OkFrame (py "subscribed") [(py "room", room)]]]> w2).
  destruct (send_recent_history_run cfg w3 ws room (HISTORY_ON_SUBSCRIBE cfg))
    as (w' & Hrun & Hh & Hout & _ & Hclosed & _ & _ & Hname & Hsubs & Hrooms);
    [done|].
  exists w'. split.
  { unfold _handle_subscribe. rewrite Hdata.
    destruct room as [|c room]; [done|]. simpl.
    unfold bind at 1, modify. fold w1.
    unfold bind at 1. fold w2.
    unfold bind, _send_ok. rewrite ws_send_open by done. exact Hrun. }
  split.
  { unfold subscribers. rewrite Hsubs. simpl. rewrite lookup_insert_eq. set_solver. }
  split.
  { unfold rooms_of. rewrite Hrooms. simpl. rewrite lookup_insert_eq. set_solver. }
  split; [by rewrite Hname|].
  split; [unfold is_open; by rewrite Hclosed|].
  rewrite Hout. unfold w3 at 1. rewrite outbox_sent_eq.
  by rewrite <- app_assoc.
Qed.

(** C10. A socket that has not logged in can subscribe: with a
    non-empty string room the method returns without raising, the
    socket is in the subscriber set of the room and the room in the
    socket's set, the socket is still anonymous, it has received the
    [subscribed] frame followed by the replay of the room's history,
    and a later broadcast to the room reaches it. *)
Theorem subscribe_without_login (cfg : Config) (w : World) (ws : conn)
    (data : gmap pystr jval) (room : pystr) :
  dict_get data (py "room") = JStr room → room ≠ [] →
  ws_to_username w !! ws = None →
  is_open w ws →
  ∃ w',
    _handle_subscribe cfg ws data w = (Return (), w')
    ∧ ws ∈ subscribers w' room
    ∧ room ∈ rooms_of w' ws
    ∧ ws_to_username w' !! ws = None
    ∧ is_open w' ws
    ∧ outbox w' ws
      = outbox w ws
        ++ OkFrame (py "subscribed") [(py "room", room)]
        :: replay_frames room
             (slice_from (- HISTORY_ON_SUBSCRIBE cfg) (seeded_history cfg w room))
    ∧ (∀ record, ∃ w'',
         _broadcast room record w' = (Return (), w'')
         ∧ outbox w'' ws = outbox w' ws ++ [MessageFrame record]).
Proof.
  intros Hdata Hroom Hanon Hopen.
  destruct (handle_subscribe_run cfg w ws data room Hdata Hroom Hopen)
    as (w' & Hrun & Hmember & Hrooms & Hname & Hopen' & Hout).
  exists w'. split; [done|]. split; [done|]. split; [done|].
  split; [by rewrite Hname|]. split; [done|]. split; [done|].
  intros record. eexists. split; [apply broadcast_run|].
  rewrite deliver_outbox by apply NoDup_elements.
  rewrite bool_decide_eq_true_2; [done|].
  split; [by apply elem_of_elements|done].
Qed.

(** ** Bounded deques and slices *)

Section SequenceFacts.
Context {A : Type}.
Implicit Types l k : list A.

Lemma lastn_length (n : nat) l : length (lastn n l) = Nat.min n (length l).
Proof. unfold lastn. rewrite length_drop. lia. Qed.

Lemma lastn_all (n : nat) l : (length l ≤ n)%nat → lastn n l = l.
Proof.
  intros Hle. unfold lastn.
  replace (length l - n)%nat with 0%nat by lia. done.
Qed.

Lemma lastn_app_lastn (n : nat) l k :
  lastn n (lastn n l ++ k) = lastn n (l ++ k).
Proof.
  unfold lastn. rewrite !length_app, length_drop, !drop_app, length_drop.
  rewrite drop_drop. f_equal; f_equal; lia.
Qed.

Lemma lastn_lastn (n m : nat) l :
  (m ≤ n)%nat → lastn m (lastn n l) = lastn m l.
Proof.
  intros Hle. unfold lastn. rewrite length_drop, drop_drop. f_equal. lia.
Qed.

Lemma slice_from_neg (count : Z) l :
  (0 < count)%Z → slice_from (- count) l = lastn (Z.to_nat count) l.
Proof.
  intros Hpos. unfold slice_from, lastn.
  destruct (Z.ltb_spec (- count) 0); [|lia]. f_equal. lia.
Qed.

Lemma foldl_deque_append (n : nat) l k :
  foldl (deque_append n) (lastn n l) k = lastn n (l ++ k).
Proof.
  revert l. induction k as [|x k IH]; intros l; simpl.
  - by rewrite app_nil_r.
  - unfold deque_append at 2. rewrite lastn_app_lastn, IH.
    by rewrite <- app_assoc.
Qed.
End SequenceFacts.

(** ** Replay after publishes *)

Lemma append_to_room_log_history (cfg : Config) (room : pystr)
    (record : Message) (w : World) :
  room_to_history (_append_to_room_log cfg room record w).2 = room_to_history w.
Proof.
  unfold _append_to_room_log. case_bool_decide; [done|].
  by destruct (utf8_encode (log_line record)).
Qed.

Lemma handle_publish_history (cfg : Config) (w w1 : World) (ws : conn)
    (data : gmap pystr jval) (now room message username : pystr) :
  dict_get data (py "room") = JStr room → room ≠ [] →
  dict_get data (py "message") = JStr message → message ≠ [] →
  ws_to_username w !! ws = Some username → username ≠ [] →
  _handle_publish cfg ws data now w = (Return (), w1) →
  history w1 room
  = deque_append (HISTORY_SIZE cfg) (history w room)
      (mkMessage room username message now).
Proof.
  intros Hroom Hr Hmsg Hm Huser Hu Hrun.
  unfold _handle_publish in Hrun. rewrite Hroom, Hmsg in Hrun.
  destruct room as [|c0 room]; [done|].
  destruct message as [|c1 message]; [done|].
  destruct username as [|c2 username]; [done|].
  simpl in Hrun. unfold bind at 1, get in Hrun. rewrite Huser in Hrun.
  unfold bind at 1, modify in Hrun. unfold bind in Hrun.
  match type of Hrun with
  | context [_append_to_room_log cfg ?r ?rec ?w0] =>
    pose proof (append_to_room_log_history cfg r rec w0) as Hlog;
    destruct (_append_to_room_log cfg r rec w0) as [[[]|e] w2] eqn:Happ
  end; [|done].
  rewrite broadcast_run in Hrun. simplify_eq. simpl in Hlog.
  unfold history at 1.
  destruct (deliver_frame
    (MessageFrame (mkMessage (c0 :: room) (c2 :: username) (c1 :: message) now))
    (elements (subscribers w2 (c0 :: room))) w2) as (_ & _ & -> & _).
  rewrite Hlog. simpl. by rewrite lookup_insert_eq.
Qed.

(** After publishes to a room, its deque holds the last [HISTORY_SIZE]
    of what it held before followed by the published records. *)
Lemma published_history (cfg : Config) (room : pystr) (w w' : World)
    (records : list Message) :
  room ≠ [] →
  published cfg room w records w' →
  history w' room
  = foldl (deque_append (HISTORY_SIZE cfg)) (history w room) records.
Proof.
  intros Hroom Hpub. induction Hpub as [w|w ws data now message username w1 records w2
    Hdata Hmsg Hm Huser Hu Hrun Hpub IH]; [done|].
  simpl. rewrite IH. f_equal.
  by eapply handle_publish_history.
Qed.

(** C6, as the code has it. With a replay count [K] between 1 and the
    deque capacity, after [N > K] publishes to a room whose deque was
    empty, a subscriber receives the [subscribed] frame and then one
    history frame holding exactly the last [K] published records,
    oldest first, each with the room, username, message and timestamp
    it was published with; that list has [K] entries. *)
Theorem replay_after_publishes (cfg : Config) (w w' : World) (room : pystr)
    (records : list Message) (ws : conn) (data : gmap pystr jval) :
  room ≠ [] →
  history w room = [] →
  published cfg room w records w' →
  (1 ≤ HISTORY_ON_SUBSCRIBE cfg ≤ Z.of_nat (HISTORY_SIZE cfg))%Z →
  (HISTORY_ON_SUBSCRIBE cfg < Z.of_nat (length records))%Z →
  dict_get data (py "room") = JStr room →
  is_open w' ws →
  ∃ w'',
    _handle_subscribe cfg ws data w' = (Return (), w'')
    ∧ outbox w'' ws
      = outbox w' ws
        ++ [OkFrame (py "subscribed") [(py "room", room)];
            HistoryFrame room
              (lastn (Z.to_nat (HISTORY_ON_SUBSCRIBE cfg)) records)]
    ∧ length (lastn (Z.to_nat (HISTORY_ON_SUBSCRIBE cfg)) records)
      = Z.to_nat (HISTORY_ON_SUBSCRIBE cfg).
Proof.
  intros Hroom Hfresh Hpub HK HN Hdata Hopen.
  destruct (handle_subscribe_run cfg w' ws data room Hdata Hroom Hopen)
    as (w'' & Hrun & _ & _ & _ & _ & Hout).
  exists w''. split; [done|].
  assert (Hhist : history w' room = lastn (HISTORY_SIZE cfg) records).
  { rewrite (published_history cfg room w w' records Hroom Hpub), Hfresh.
    exact (foldl_deque_append (HISTORY_SIZE cfg) [] records). }
  assert (Hlen : length (lastn (Z.to_nat (HISTORY_ON_SUBSCRIBE cfg)) records)
                 = Z.to_nat (HISTORY_ON_SUBSCRIBE cfg)).
  { rewrite lastn_length. lia. }
  split; [|done].
  rewrite Hout. f_equal. f_equal.
  assert (Hseeded : seeded_history cfg w' room = lastn (HISTORY_SIZE cfg) records).
  { unfold seeded_history. rewrite Hhist.
    destruct (lastn (HISTORY_SIZE cfg) records) eqn:Hl; [|done].
    apply (f_equal length) in Hl. rewrite lastn_length in Hl. simpl in Hl. lia. }
  rewrite Hseeded, slice_from_neg, lastn_lastn by lia.
  unfold replay_frames.
  destruct (lastn (Z.to_nat (HISTORY_ON_SUBSCRIBE cfg)) records) eqn:Hl; [|done].
  simpl in Hlen. lia.
Qed.

(** C6, as the claim words it, fails when the replay count exceeds the
    deque capacity: with capacity 2 and replay count 3, after four
    publishes the subscriber is sent two records, not the last three. *)
Lemma replay_bounded_by_capacity :
  let cfg := mkConfig 2 3 (λ _, false) in
  let publish (m t : string) :=
    Publish 1%nat (publish_data "general" (py m)) (py t) in
  let record (m t : string) :=
    mkMessage (py "general") (py "alice") (py m) (py t) in
  let w :=
    run cfg empty_world
      [Login 1%nat (login_data "alice");
       publish "m1" "T1"; publish "m2" "T2";
       publish "m3" "T3"; publish "m4" "T4"] in
  ∃ w',
    _handle_subscribe cfg 2%nat (subscribe_data "general") w = (Return (), w')
    ∧ outbox w' 2%nat
      = [OkFrame (py "subscribed") [(py "room", py "general")];
         HistoryFrame (py "general") [record "m3" "T3"; record "m4" "T4"]]
    ∧ [record "m3" "T3"; record "m4" "T4"]
      ≠ lastn 3 [record "m1" "T1"; record "m2" "T2";
                 record "m3" "T3"; record "m4" "T4"].
Proof.
  eexists. split; [vm_compute; reflexivity|].
  split; [vm_compute; reflexivity|]. vm_compute. discriminate.
Qed.

(** The hypotheses of [replay_after_publishes] hold for six publishes
    under the default settings. *)
Lemma replay_after_publishes_witness :
  let cfg := default_config in
  let data (m : string) := publish_data "general" (py m) in
  let record (m t : string) :=
    mkMessage (py "general") (py "alice") (py m) (py t) in
  let w := run cfg empty_world [Login 1%nat (login_data "alice")] in
  let w' :=
    run cfg w
      [Publish 1%nat (data "m1") (py "T1"); Publish 1%nat (data "m2") (py "T2");
       Publish 1%nat (data "m3") (py "T3"); Publish 1%nat (data "m4") (py "T4");
       Publish 1%nat (data "m5") (py "T5"); Publish 1%nat (data "m6") (py "T6")] in
  let records :=
    [record "m1" "T1"; record "m2" "T2"; record "m3" "T3";
     record "m4" "T4"; record "m5" "T5"; record "m6" "T6"] in
  ∃ w'',
    _handle_subscribe cfg 2%nat (subscribe_data "general") w' = (Return (), w'')
    ∧ outbox w'' 2%nat
      = outbox w' 2%nat
        ++ [OkFrame (py "subscribed") [(py "room", py "general")];
            HistoryFrame (py "general") (lastn (Z.to_nat 5) records)]
    ∧ length (lastn (Z.to_nat 5) records) = Z.to_nat 5.
Proof.
  intros cfg data record w w' records.
  apply (replay_after_publishes cfg w w' (py "general") records 2%nat
           (subscribe_data "general")).
  - discriminate.
  - reflexivity.
  - unfold records, record.
    repeat (eapply (published_cons cfg (py "general") _ 1%nat (data _));
            [reflexivity | reflexivity | discriminate
            | vm_compute; reflexivity | discriminate
            | vm_compute; reflexivity | ]).
    replace w' with
      (run cfg w
         [Publish 1%nat (data "m1") (py "T1"); Publish 1%nat (data "m2") (py "T2");
          Publish 1%nat (data "m3") (py "T3"); Publish 1%nat (data "m4") (py "T4");
          Publish 1%nat (data "m5") (py "T5"); Publish 1%nat (data "m6") (py "T6")])
      by reflexivity.
    vm_compute. apply published_nil.
  - vm_compute. split; discriminate.
  - reflexivity.
  - reflexivity.
  - reflexivity.
Defined.

(** ** The loops of the scan end by their own conditions *)

Lemma rfind_lt (b : N) (l : pybytes) (idx : nat) :
  rfind b l = Some idx → (idx < length l)%nat.
Proof.
  revert idx. induction l as [|x l IH]; intros idx; simpl; [done|].
  destruct (rfind b l) as [i|].
  - intros [= <-]. specialize (IH i eq_refl). lia.
  - destruct (x =? b); [|done]. intros [= <-]. lia.
Qed.

(** Fuel beyond the length of the buffer changes nothing in the inner
    loop. *)
Lemma drain_lines_fuel (fuel extra count : nat) (buffer : pybytes)
    (lines : list pystr) :
  (length buffer ≤ fuel)%nat →
  drain_lines (fuel + extra) count buffer lines
  = drain_lines fuel count buffer lines.
Proof.
  revert buffer lines.
  induction fuel as [|fuel IH]; intros buffer lines Hlen.
  - destruct buffer; [|simpl in Hlen; lia].
    by destruct extra.
  - simpl. destruct (rfind NL buffer) as [idx|] eqn:Hfind; [|done].
    apply rfind_lt in Hfind. apply IH.
    rewrite length_take. lia.
Qed.

(** The inner loop stops when no newline is left in the buffer. *)
Lemma drain_lines_done (fuel count : nat) (buffer : pybytes)
    (lines : list pystr) :
  (length buffer ≤ fuel)%nat →
  rfind NL (drain_lines fuel count buffer lines).1 = None.
Proof.
  revert buffer lines.
  induction fuel as [|fuel IH]; intros buffer lines Hlen.
  - by destruct buffer; [|simpl in Hlen; lia].
  - simpl. destruct (rfind NL buffer) as [idx|] eqn:Hfind; [|done].
    apply rfind_lt in Hfind. apply IH.
    rewrite length_take. lia.
Qed.

(** Fuel beyond [pointer] changes nothing in the outer loop: the scan
    started with the length of the file stops because [pointer] is 0
    or enough lines were found. *)
Lemma read_chunks_fuel (fuel extra : nat) (file : pybytes) (count pointer : nat)
    (buffer : pybytes) (lines : list pystr) :
  (pointer ≤ fuel)%nat →
  read_chunks (fuel + extra) file count pointer buffer lines
  = read_chunks fuel file count pointer buffer lines.
Proof.
  revert pointer buffer lines.
  induction fuel as [|fuel IH]; intros pointer buffer lines Hle.
  - assert (pointer = 0%nat) as -> by lia.
    by destruct extra.
  - cbn [read_chunks Nat.add].
    destruct ((0 <? pointer)%nat && (length lines <? count)%nat) eqn:Hcond; [|done].
    apply andb_true_iff in Hcond as [Hpos%Nat.ltb_lt _].
    destruct (drain_lines _ count _ lines) as [buffer' lines'].
    assert (Hlt : (pointer - Nat.min CHUNK pointer ≤ fuel)%nat).
    { unfold CHUNK. lia. }
    destruct buffer' as [|b buffer']; [by apply IH|].
    destruct (pointer - Nat.min CHUNK pointer =? 0)%nat; by apply IH.
Qed.

Lemma tail_lines_fuel (extra : nat) (file : pybytes) (count : nat) :
  read_chunks (length file + extra) file count (length file) [] []
  = tail_lines file count.
Proof. by apply read_chunks_fuel. Qed.

(** ** UTF-8: decoding what was encoded *)

Ltac divlia := zify; Z.to_euclidean_division_equations; lia.

Ltac case_compare :=
  match goal with
  | |- context [N.ltb ?a ?b] => destruct (N.ltb_spec a b)
  | |- context [N.leb ?a ?b] => destruct (N.leb_spec a b)
  | |- context [N.eqb ?a ?b] => destruct (N.eqb_spec a b)
  end; cbn [andb negb orb]; try (exfalso; divlia).

Lemma utf8_decode_encode_char (c : N) (b rest : pybytes) :
  utf8_encode_char c = Some b →
  utf8_decode_ignore (b ++ rest) = c :: utf8_decode_ignore rest.
Proof.
  unfold utf8_encode_char.
  destruct (N.ltb_spec c 0x80) as [H1|H1].
  { intros [= <-]. cbn [app utf8_decode_ignore].
    by replace (c <? 128) with true by (symmetry; apply N.ltb_lt; lia). }
  destruct (N.ltb_spec c 0x800) as [H2|H2].
  { intros [= <-]. cbn [app utf8_decode_ignore]. unfold is_continuation.
    repeat case_compare. f_equal. divlia. }
  destruct (N.leb_spec 0xD800 c) as [H3|H3], (N.leb_spec c 0xDFFF) as [H4|H4];
    cbn [andb]; try done.
  all: destruct (N.ltb_spec c 0x10000) as [H5|H5].
  all: try (intros [= <-]; cbn [app utf8_decode_ignore]; unfold is_continuation;
            repeat case_compare; f_equal; divlia).
  all: destruct (N.ltb_spec c 0x110000) as [H6|H6]; [|done].
  all: intros [= <-]; cbn [app utf8_decode_ignore]; unfold is_continuation;
       repeat case_compare; f_equal; divlia.
Qed.

Lemma utf8_decode_encode (s : pystr) (bs : pybytes) :
  utf8_encode s = Some bs → utf8_decode_ignore bs = s.
Proof.
  revert bs. induction s as [|c s IH]; intros bs; simpl.
  - by intros [= <-].
  - destruct (utf8_encode_char c) as [b|] eqn:Hc; [|done].
    destruct (utf8_encode s) as [bs'|]; [|done]. intros [= <-].
    rewrite (utf8_decode_encode_char c b bs' Hc). f_equal. by apply IH.
Qed.

(** ** What the backward scan returns, for every file *)

Lemma pieces_nonempty (l : pybytes) : ∃ p ps, pieces l = p :: ps.
Proof.
  destruct l as [|b l]; simpl; [eauto|].
  destruct (b =? NL); [eauto|]. destruct (pieces l); eauto.
Qed.

Lemma pieces_no_newline (l : pybytes) : NL ∉ l → pieces l = [l].
Proof.
  induction l as [|b l IH]; intros Hnot; simpl; [done|].
  apply not_elem_of_cons in Hnot as [Hne Hnot].
  destruct (N.eqb_spec b NL) as [->|_]; [done|]. by rewrite IH.
Qed.

Lemma pieces_head_no_newline (l p : pybytes) (ps : list pybytes) :
  pieces l = p :: ps → NL ∉ p.
Proof.
  revert p ps. induction l as [|b l IH]; intros p ps; simpl.
  - intros [= <- <-]. apply not_elem_of_nil.
  - destruct (N.eqb_spec b NL) as [->|Hne].
    + intros [= <- <-]. apply not_elem_of_nil.
    + destruct (pieces l) as [|q qs] eqn:Hl.
      * intros [= <- <-]. set_solver.
      * intros [= <- <-]. specialize (IH q qs eq_refl). set_solver.
Qed.

Lemma pieces_app_newline (a b : pybytes) :
  pieces (a ++ NL :: b) = pieces a ++ pieces b.
Proof.
  induction a as [|x a IH]; simpl; [done|].
  destruct (x =? NL); [by rewrite IH|].
  rewrite IH. by destruct (pieces_nonempty a) as (p & ps & ->).
Qed.

(** Bytes put in front of a buffer only extend its first piece. *)
Lemma pieces_app_head (c l p : pybytes) (ps : list pybytes) :
  pieces l = p :: ps → pieces (c ++ l) = pieces (c ++ p) ++ ps.
Proof.
  intros Hl. induction c as [|x c IH]; simpl.
  - rewrite Hl, (pieces_no_newline p); [done|].
    by eapply pieces_head_no_newline.
  - rewrite IH. destruct (x =? NL); [done|].
    by destruct (pieces_nonempty (c ++ p)) as (q & qs & ->).
Qed.

Lemma rfind_none (b : N) (l : pybytes) : rfind b l = None → b ∉ l.
Proof.
  induction l as [|x l IH]; simpl; [intros _; apply not_elem_of_nil|].
  destruct (rfind b l); [done|].
  destruct (N.eqb_spec x b); [done|]. intros _.
  apply not_elem_of_cons. split; [done|]. by apply IH.
Qed.

Lemma rfind_some (b : N) (l : pybytes) (idx : nat) :
  rfind b l = Some idx →
  l = take idx l ++ b :: drop (S idx) l ∧ b ∉ drop (S idx) l.
Proof.
  revert idx. induction l as [|x l IH]; intros idx; simpl; [done|].
  destruct (rfind b l) as [i|] eqn:Hfind.
  - intros [= <-]. destruct (IH i eq_refl) as [Heq Hnot].
    split; [|done]. simpl. by rewrite <- Heq.
  - destruct (N.eqb_spec x b) as [->|]; [|done]. intros [= <-].
    split; [done|]. simpl. rewrite drop_0. by apply rfind_none.
Qed.

Lemma take_app_take {A} (n : nat) (l k : list A) :
  take n (l ++ take n k) = take n (l ++ k).
Proof. rewrite !take_app, take_take. do 2 f_equal. lia. Qed.

Lemma kept_app (ps qs : list pybytes) : kept (ps ++ qs) = kept ps ++ kept qs.
Proof. apply omap_app. Qed.

(** The inner loop: the buffer is cut down to its first piece, and the
    other pieces that are not empty are pushed, the last one first, on
    the left of the bounded deque. *)
Lemma drain_lines_pieces (fuel count : nat) (buffer : pybytes)
    (lines : list pystr) :
  (length buffer ≤ fuel)%nat → (length lines ≤ count)%nat →
  drain_lines fuel count buffer lines
  = (hd [] (pieces buffer),
     take count (kept (tail (pieces buffer)) ++ lines)).
Proof.
  revert buffer lines.
  induction fuel as [|fuel IH]; intros buffer lines Hfuel Hlines.
  - destruct buffer; [|simpl in Hfuel; lia]. simpl.
    by rewrite take_ge.
  - simpl. destruct (rfind NL buffer) as [idx|] eqn:Hfind.
    + pose proof (rfind_lt _ _ _ Hfind) as Hidx.
      apply rfind_some in Hfind as [Hsplit Hlast].
      set (a := take idx buffer) in *. set (b := drop (S idx) buffer) in *.
      rewrite IH; last first.
      { destruct b; [done|]. unfold deque_appendleft. rewrite length_take. lia. }
      { unfold a. rewrite length_take. lia. }
      rewrite Hsplit, pieces_app_newline, (pieces_no_newline b) by done.
      destruct (pieces_nonempty a) as (p & ps & Ha). rewrite Ha. simpl.
      f_equal. rewrite kept_app, <- app_assoc.
      destruct b as [|x b]; simpl; [done|].
      unfold deque_appendleft. by rewrite take_app_take.
    + apply rfind_none in Hfind. rewrite pieces_no_newline by done. simpl.
      by rewrite take_ge.
Qed.

Lemma read_chunks_at_start (fuel : nat) (file : pybytes) (count : nat)
    (buffer : pybytes) (lines : list pystr) :
  read_chunks fuel file count 0 buffer lines = lines.
Proof. by destruct fuel. Qed.

(** The outer loop.  When it is entered at position [pointer] with the
    first piece of what was read in [buffer] and the first [count]
    lines of the other pieces in [lines], it returns the first [count]
    lines found down to some position [p], which is the start of the
    file unless [count] lines were found there. *)
Lemma read_chunks_found (file : pybytes) (count : nat) (fuel pointer : nat)
    (buffer : pybytes) (ps : list pybytes) (lines : list pystr) :
  (0 < pointer ≤ fuel)%nat → (pointer ≤ length file)%nat →
  pieces (drop pointer file) = buffer :: ps →
  lines = take count (kept ps) →
  ∃ p,
    read_chunks fuel file count pointer buffer lines
    = take count (found file p)
    ∧ (p ≤ pointer)%nat
    ∧ (p = 0%nat ∨ count ≤ length (found file p))%nat
    ∧ ((length lines < count)%nat → (p ≤ pointer - Nat.min CHUNK pointer)%nat).
Proof.
  revert pointer buffer ps lines.
  induction fuel as [|fuel IH]; intros pointer buffer ps lines Hp Hlen Hpieces Hlines;
    [lia|].
  cbn [read_chunks].
  replace (0 <? pointer)%nat with true by (symmetry; apply Nat.ltb_lt; lia).
  cbn [andb].
  destruct (Nat.ltb_spec (length lines) count) as [Hfew|Hmany].
  - set (pointer' := (pointer - Nat.min CHUNK pointer)%nat).
    set (chunk := take (Nat.min CHUNK pointer) (drop pointer' file)).
    assert (Hpos : (pointer' < pointer)%nat) by (unfold pointer', CHUNK; lia).
    assert (Hread : drop pointer' file = chunk ++ drop pointer file).
    { unfold chunk. rewrite <- (take_drop (Nat.min CHUNK pointer) (drop pointer' file)) at 1.
      f_equal. rewrite drop_drop. f_equal. unfold pointer'. lia. }
    rewrite drain_lines_pieces by (done || (subst lines; rewrite length_take; lia)).
    destruct (pieces_nonempty (chunk ++ buffer)) as (b1 & t1 & Hb1).
    assert (Hpieces' : pieces (drop pointer' file) = b1 :: (t1 ++ ps)).
    { by rewrite Hread, (pieces_app_head _ _ _ _ Hpieces), Hb1. }
    rewrite Hb1. cbn [hd tail].
    assert (Hlines' : take count (kept t1 ++ lines) = take count (kept (t1 ++ ps))).
    { by rewrite Hlines, take_app_take, kept_app. }
    rewrite Hlines'.
    destruct (Nat.eqb_spec pointer' 0) as [Hzero|Hnonzero].
    + exists 0%nat. rewrite Hzero in *. rewrite drop_0 in Hpieces'.
      split; [|split; [lia|split; [by left|lia]]].
      unfold found. rewrite Hpieces'.
      destruct b1 as [|x b1]; rewrite read_chunks_at_start; [done|].
      unfold deque_appendleft, kept. cbn [omap line_of].
      change (omap line_of (t1 ++ ps)) with (kept (t1 ++ ps)).
      apply (take_app_take count [utf8_decode_ignore (x :: b1)]).
    + destruct (IH pointer' b1 (t1 ++ ps) (take count (kept (t1 ++ ps))))
        as (p & Hrun & Hle & Hstop & _); [lia | lia | done | done |].
      exists p. split; [by destruct b1|]. split; [lia|]. split; [done|].
      intros _. fold pointer'. lia.
  - exists pointer. destruct pointer as [|n]; [lia|].
    unfold found. rewrite Hpieces. cbn [tail].
    split; [done|]. split; [lia|]. split; [|lia].
    right. subst lines. rewrite length_take in Hmany. lia.
Qed.

(** The scan returns the first [count] lines of what it found, the
    oldest ones, down to a position where it stopped: the start of the
    file, or the first chunk boundary by which [count] lines were found. *)
Lemma tail_lines_found (file : pybytes) (count : nat) :
  ∃ p,
    tail_lines file count = take count (found file p)
    ∧ (p = 0%nat ∨ count ≤ length (found file p))%nat
    ∧ ((0 < count)%nat → (p ≤ length file - Nat.min CHUNK (length file))%nat).
Proof.
  unfold tail_lines. destruct (decide (file = [])) as [->|Hfile].
  - exists 0%nat. split; [|split; [by left|done]].
    simpl. by destruct count.
  - assert (Hlen : (0 < length file)%nat) by (destruct file; [done|simpl; lia]).
    destruct (read_chunks_found file count (length file) (length file) [] [] [])
      as (p & Hrun & Hle & Hstop & Hfirst).
    + lia.
    + done.
    + by rewrite drop_all.
    + by destruct count.
    + exists p. split; [done|]. split; [done|]. intros Hcount. apply Hfirst.
      simpl. lia.
Qed.

(** A file that fits in one chunk: the scan returns its first [count]
    lines, not its last. *)
Lemma tail_lines_one_chunk (file : pybytes) (count : nat) :
  (length file ≤ CHUNK)%nat → (0 < count)%nat →
  tail_lines file count = take count (kept (pieces file)).
Proof.
  intros Hlen Hcount.
  destruct (tail_lines_found file count) as (p & Hrun & _ & Hfirst).
  specialize (Hfirst Hcount).
  assert (p = 0%nat) as -> by lia. done.
Qed.

Lemma found_suffix (file : pybytes) (p : nat) :
  ∃ before, kept (pieces file) = before ++ found file p.
Proof.
  destruct p as [|n]; [by exists []|].
  unfold found.
  destruct (pieces_nonempty (drop (S n) file)) as (b & ps & Hps).
  exists (kept (pieces (take (S n) file ++ b))).
  rewrite Hps. cbn [tail]. rewrite <- kept_app. f_equal.
  rewrite <- (pieces_app_head _ _ _ _ Hps). by rewrite take_drop.
Qed.

(** A file with at most [count] lines: the scan returns them all,
    however long the lines and wherever the chunk boundaries fall. *)
Lemma tail_lines_fits (file : pybytes) (count : nat) :
  (length (kept (pieces file)) ≤ count)%nat →
  tail_lines file count = kept (pieces file).
Proof.
  intros Hfits.
  destruct (tail_lines_found file count) as (p & Hrun & Hstop & _).
  destruct (found_suffix file p) as (before & Hsplit).
  rewrite Hrun.
  assert (Hlen : (length (found file p) ≤ count)%nat).
  { rewrite Hsplit, length_app in Hfits. lia. }
  rewrite take_ge by done.
  destruct Hstop as [->|Hstop]; [done|].
  rewrite Hsplit, length_app in Hfits.
  destruct before; [by rewrite Hsplit|]. simpl in Hfits. lia.
Qed.

Lemma pieces_splitlines (l : pybytes) :
  pieces l = splitlines l ++ [[]] ∨ pieces l = splitlines l.
Proof.
  induction l as [|b l IH]; simpl; [by left|].
  destruct (b =? NL).
  - destruct IH as [-> | ->]; [by left | by right].
  - destruct IH as [-> | ->].
    + destruct (splitlines l); [by right | by left].
    + right. done.
Qed.

Lemma kept_splitlines (l : pybytes) : kept (splitlines l) = kept (pieces l).
Proof.
  destruct (pieces_splitlines l) as [-> | ->]; [|done].
  rewrite kept_app. simpl. by rewrite app_nil_r.
Qed.

Lemma kept_no_empty (ps : list pybytes) :
  Forall (λ p, p ≠ []) ps → kept ps = utf8_decode_ignore <$> ps.
Proof.
  induction 1 as [|p ps Hp _ IH]; [done|].
  destruct p as [|x p]; [done|].
  change (kept ((x :: p) :: ps)) with (utf8_decode_ignore (x :: p) :: kept ps).
  by rewrite IH.
Qed.

(** X21. A log without empty lines and with at most [count] lines is
    read alike by the backward scan and by a forward reading that keeps
    the last [count] lines. *)
Lemma tail_read_agrees_when_it_fits (room : pystr) (file : pybytes)
    (count : nat) :
  Forall (λ p, p ≠ []) (splitlines file) →
  (length (splitlines file) ≤ count)%nat →
  read_last_lines_of room (Some file) count
  = read_forward_of room (Some file) count.
Proof.
  intros Hlines Hfits. unfold read_last_lines_of, read_forward_of. f_equal.
  unfold forward_last_lines.
  rewrite lastn_all by (by rewrite length_fmap).
  rewrite <- kept_no_empty by done.
  rewrite tail_lines_fits; rewrite <- kept_splitlines; [done|].
  rewrite kept_no_empty, length_fmap; done.
Qed.

(** X22. On a log without empty lines that fits in one chunk, the scan
    keeps the first [count] lines of the file, where a forward reading
    keeps the last [count]. *)
Lemma tail_read_one_chunk (file : pybytes) (count : nat) :
  Forall (λ p, p ≠ []) (splitlines file) →
  (length file ≤ CHUNK)%nat → (0 < count)%nat →
  tail_lines file count = take count (utf8_decode_ignore <$> splitlines file)
  ∧ forward_last_lines file count
    = lastn count (utf8_decode_ignore <$> splitlines file).
Proof.
  intros Hlines Hlen Hcount. split; [|done].
  rewrite tail_lines_one_chunk by done.
  by rewrite <- kept_splitlines, kept_no_empty.
Qed.

(** ** The tail read *)

(** C1 fails on the code. With the default capacity of 100 and a log
    of 101 records, all inside the last chunk, the backward scan
    returns the records 1 to 100 where the forward reading gives the
    records 2 to 101: every line found in a chunk is pushed on the left
    of the bounded deque, which then discards on its right, the newest
    lines. *)
Theorem tail_read_drops_newest_lines :
  let room := py "general" in
  let w := started_on {[ py "general.txt" := numbered_log room 101 ]} in
  _read_last_lines_from_log default_config w room 100
  = numbered_record room <$> seq 1 100
  ∧ read_forward_from_log default_config w room 100
    = numbered_record room <$> seq 2 100
  ∧ _read_last_lines_from_log default_config w room 100
    ≠ read_forward_from_log default_config w room 100.
Proof.
  split; [vm_compute; reflexivity|].
  split; [vm_compute; reflexivity|].
  vm_compute. discriminate.
Qed.

(** The same on the log written by three publishes, read back with a
    count of two: the two oldest records are returned. *)
Lemma tail_read_three_publishes :
  let cfg := mkConfig 2 5 (λ _, false) in
  let publish (m t : string) :=
    Publish 1%nat (publish_data "general" (py m)) (py t) in
  let record (m t : string) :=
    mkMessage (py "general") (py "alice") (py m) (py t) in
  let w :=
    run cfg empty_world
      [Login 1%nat (login_data "alice");
       publish "m1" "T1"; publish "m2" "T2"; publish "m3" "T3"] in
  _read_last_lines_from_log cfg w (py "general") 2
  = [record "m1" "T1"; record "m2" "T2"]
  ∧ read_forward_from_log cfg w (py "general") 2
    = [record "m2" "T2"; record "m3" "T3"].
Proof. split; vm_compute; reflexivity. Qed.

(** The two readings agree on the cases that fit the deque: no file,
    an empty file, one record, exactly [count] records, and a count of
    zero. *)
Lemma tail_read_small_logs :
  let room := py "general" in
  let agree (file : option pybytes) (count : nat) :=
    read_last_lines_of room file count = read_forward_of room file count in
  agree None 100%nat
  ∧ agree (Some []) 100%nat
  ∧ agree (Some (numbered_log room 1)) 100%nat
  ∧ agree (Some (numbered_log room 100)) 100%nat
  ∧ agree (Some (numbered_log room 101)) 0%nat.
Proof.
  split; [vm_compute; reflexivity|].
  split; [vm_compute; reflexivity|].
  split; [vm_compute; reflexivity|].
  split; vm_compute; reflexivity.
Qed.

(** C7 fails on the code, by the defect of C1. A server started on a
    log of 101 records has an empty deque for the room; the first
    subscribe seeds the deque through the tail read with
    [HISTORY_SIZE], and so with the records 1 to 100 and not the last
    100 records of the log; the subscriber is replayed the records 96
    to 100 and never sees record 101. *)
Theorem reseed_misses_newest_record :
  let room := py "general" in
  let w := started_on {[ py "general.txt" := numbered_log room 101 ]} in
  history w room = []
  ∧ read_forward_from_log default_config w room (HISTORY_SIZE default_config)
    = numbered_record room <$> seq 2 100
  ∧ ∃ w',
      _handle_subscribe default_config 1%nat (subscribe_data "general") w
      = (Return (), w')
      ∧ history w' room = numbered_record room <$> seq 1 100
      ∧ outbox w' 1%nat
        = [OkFrame (py "subscribed") [(py "room", room)];
           HistoryFrame room (numbered_record room <$> seq 96 5)].
Proof.
  split; [reflexivity|].
  split; [vm_compute; reflexivity|].
  eexists. split; [vm_compute; reflexivity|].
  split; vm_compute; reflexivity.
Qed.

(** What does hold of the replay path: an empty deque is seeded with
    what the tail read returns for [HISTORY_SIZE], whatever the replay
    count, and the replay is cut from the seeded deque. *)
Lemma replay_seeds_with_history_size (cfg : Config) (w : World) (ws : conn)
    (room : pystr) (count : Z) :
  is_open w ws →
  history w room = [] →
  ∃ w',
    _send_recent_history cfg ws room count w = (Return (), w')
    ∧ history w' room
      = lastn (HISTORY_SIZE cfg)
          (_read_last_lines_from_log cfg w room (HISTORY_SIZE cfg))
    ∧ outbox w' ws
      = outbox w ws ++ replay_frames room (slice_from (- count) (history w' room)).
Proof.
  intros Hopen Hempty.
  destruct (send_recent_history_run cfg w ws room count Hopen)
    as (w' & Hrun & Hh & Hout & _).
  exists w'. split; [done|].
  assert (Hseed : history w' room = seeded_history cfg w room).
  { unfold history at 1. rewrite Hh. by rewrite lookup_insert_eq. }
  rewrite Hseed. split; [|done].
  unfold seeded_history. rewrite Hempty.
  exact (foldl_deque_append (HISTORY_SIZE cfg) [] _).
Qed.

(** ** The delimiter inside a field *)

Lemma partition_at_first (sep : N) (pre post : pystr) :
  sep ∉ pre → partition_at sep (pre ++ sep :: post) = Some (pre, post).
Proof.
  induction pre as [|c pre IH]; intros Hnot; simpl.
  - by rewrite N.eqb_refl.
  - apply not_elem_of_cons in Hnot as [Hne Hnot].
    destruct (N.eqb_spec c sep) as [->|_]; [done|]. by rewrite IH.
Qed.

Lemma rstrip_app_sep (c : N) (s : pystr) : rstrip c (s ++ [c]) = rstrip c s.
Proof.
  induction s as [|x s IH]; simpl.
  - by rewrite N.eqb_refl.
  - by rewrite IH.
Qed.

Lemma rstrip_id (c : N) (s : pystr) : c ∉ s → rstrip c s = s.
Proof.
  induction s as [|x s IH]; intros Hnot; simpl; [done|].
  apply not_elem_of_cons in Hnot as [Hne Hnot]. rewrite IH by done.
  destruct s; [|done]. by destruct (N.eqb_spec x c).
Qed.

(** A line with at least two delimiters, and no delimiter in its first
    field, is parsed at the first two of them. *)
Lemma parse_line_two_delimiters (room ts username rest : pystr) :
  BAR ∉ ts → BAR ∉ username →
  NL ∉ ts ++ [BAR] ++ username ++ [BAR] ++ rest →
  parse_line room (ts ++ [BAR] ++ username ++ [BAR] ++ rest ++ [NL])
  = Some (mkMessage room username rest ts).
Proof.
  intros Hts Hu Hnl. unfold parse_line.
  replace (ts ++ [BAR] ++ username ++ [BAR] ++ rest ++ [NL])
    with ((ts ++ [BAR] ++ username ++ [BAR] ++ rest) ++ [NL])
    by (by rewrite <- !app_assoc).
  rewrite rstrip_app_sep, rstrip_id by done.
  destruct (ts ++ [BAR] ++ username ++ [BAR] ++ rest) as [|c line] eqn:Hline.
  { by destruct ts. }
  rewrite <- Hline. cbn [split app].
  rewrite partition_at_first by done.
  by rewrite partition_at_first.
Qed.


(** ** Reading back a log that fits *)

Lemma utf8_encode_app (s t : pystr) :
  utf8_encode (s ++ t)
  = match utf8_encode s, utf8_encode t with
    | Some bs, Some bt => Some (bs ++ bt)
    | _, _ => None
    end.
Proof.
  induction s as [|c s IH]; simpl.
  - by destruct (utf8_encode t).
  - rewrite IH. destruct (utf8_encode_char c), (utf8_encode s), (utf8_encode t);
      try done. by rewrite app_assoc.
Qed.

Lemma utf8_encode_char_bytes (c : N) (b : pybytes) :
  utf8_encode_char c = Some b →
  b ≠ [] ∧ (c ≠ NL → NL ∉ b).
Proof.
  unfold utf8_encode_char, NL.
  repeat (case_compare; try (intros [= <-]; split; [done|]; intros Hc;
    rewrite ?not_elem_of_cons; repeat split; try apply not_elem_of_nil;
    try done; divlia)); done.
Qed.

Lemma utf8_encode_bytes (s : pystr) (bs : pybytes) :
  utf8_encode s = Some bs →
  (s ≠ [] → bs ≠ []) ∧ (NL ∉ s → NL ∉ bs).
Proof.
  revert bs. induction s as [|c s IH]; intros bs; simpl.
  - intros [= <-]. done.
  - destruct (utf8_encode_char c) as [b|] eqn:Hc; [|done].
    destruct (utf8_encode s) as [bs'|]; [|done]. intros [= <-].
    destruct (utf8_encode_char_bytes c b Hc) as [Hb Hnl].
    destruct (IH bs' eq_refl) as [_ Hnl'].
    split.
    + intros _. by destruct b.
    + intros Hnot. apply not_elem_of_cons in Hnot as [Hne Hnot].
      rewrite elem_of_app. intros [Hin|Hin]; [by apply Hnl | by apply Hnl'].
Qed.

Lemma parse_line_newline (room line : pystr) :
  parse_line room (line ++ [NL]) = parse_line room line.
Proof. unfold parse_line. by rewrite rstrip_app_sep. Qed.

Lemma kept_cons (p : pybytes) (ps : list pybytes) :
  p ≠ [] → kept (p :: ps) = utf8_decode_ignore p :: kept ps.
Proof. by destruct p. Qed.

(** The pieces of an encoded log: one per record, its line without the
    newline, and the empty piece after the last newline. *)
Lemma pieces_of_log (records : list Message) (file : pybytes) :
  Forall (λ r, NL ∉ msg_ts r ++ msg_username r ++ msg_message r) records →
  utf8_encode (concat (log_line <$> records)) = Some file →
  kept (pieces file)
  = (λ r, msg_ts r ++ [BAR] ++ msg_username r ++ [BAR] ++ msg_message r)
      <$> records.
Proof.
  intros Hclean. revert file.
  induction Hclean as [|r records Hr _ IH]; intros file; simpl.
  - by intros [= <-].
  - set (body := msg_ts r ++ [BAR] ++ msg_username r ++ [BAR] ++ msg_message r).
    assert (Hline : log_line r = body ++ [NL]).
    { unfold log_line, body. by rewrite <- !app_assoc. }
    rewrite Hline, <- app_assoc, !utf8_encode_app.
    destruct (utf8_encode body) as [eb|] eqn:Heb; [|intros ?; discriminate].
    change (utf8_encode [NL]) with (Some [NL]).
    destruct (utf8_encode (concat _)) as [rest|] eqn:Hrest; [|by intros [=]].
    cbn [app]. intros [= <-].
    destruct (utf8_encode_bytes body eb Heb) as [Hne Hnl].
    assert (Hbody : NL ∉ body).
    { unfold body. assert (NL ≠ BAR) by done. set_solver. }
    assert (Heb' : eb ≠ []).
    { apply Hne. unfold body. by destruct (msg_ts r). }
    rewrite pieces_app_newline, pieces_no_newline by auto.
    cbn [app]. rewrite kept_cons by done.
    rewrite (IH rest eq_refl). cbn [fmap list_fmap]. f_equal.
    by apply utf8_decode_encode.
Qed.

(** The tail read of a log of at most [count] records, none with a
    newline in a field, returns for every record what the parser makes
    of its line, in the order of the log. *)
Lemma read_back_log (room : pystr) (records : list Message) (file : pybytes)
    (count : nat) :
  Forall (λ r, NL ∉ msg_ts r ++ msg_username r ++ msg_message r) records →
  utf8_encode (concat (log_line <$> records)) = Some file →
  (length records ≤ count)%nat →
  read_last_lines_of room (Some file) count
  = omap (λ r, parse_line room (log_line r)) records.
Proof.
  intros Hclean Hfile Hfits. unfold read_last_lines_of, parse_lines.
  pose proof (pieces_of_log records file Hclean Hfile) as Hkept.
  rewrite tail_lines_fits by (by rewrite Hkept, length_fmap).
  rewrite Hkept. clear.
  induction records as [|r records IH]; [done|].
  rewrite fmap_cons. cbn [omap list_omap].
  rewrite IH.
  assert (Hline : log_line r
    = (msg_ts r ++ [BAR] ++ msg_username r ++ [BAR] ++ msg_message r) ++ [NL]).
  { unfold log_line. by rewrite <- !app_assoc. }
  by rewrite Hline, parse_line_newline.
Qed.

Lemma length_omap_le {A B} (f : A → option B) (l : list A) :
  (length (omap f l) ≤ length l)%nat.
Proof.
  induction l as [|x l IH]; [done|].
  cbn [omap list_omap]. destruct (f x); simpl; lia.
Qed.

(** With no delimiter in the timestamps and usernames either, the
    records come back as they were written, under the room asked for. *)
Lemma read_back_clean_log (room : pystr) (records : list Message)
    (file : pybytes) (count : nat) :
  Forall (λ r, (NL ∉ msg_ts r ++ msg_username r ++ msg_message r)
               ∧ (BAR ∉ msg_ts r) ∧ (BAR ∉ msg_username r)) records →
  utf8_encode (concat (log_line <$> records)) = Some file →
  (length records ≤ count)%nat →
  read_last_lines_of room (Some file) count
  = (λ r, mkMessage room (msg_username r) (msg_message r) (msg_ts r))
      <$> records.
Proof.
  intros Hclean Hfile Hfits.
  rewrite (read_back_log room records file count); [|by eapply Forall_impl; [done|naive_solver]|done..].
  clear Hfile Hfits.
  induction Hclean as [|r records (Hnl & Hts & Hu) _ IH]; [done|].
  rewrite fmap_cons. cbn [omap list_omap]. rewrite IH.
  assert (Hbar : NL ≠ BAR) by done.
  unfold log_line.
  rewrite parse_line_two_delimiters; [done..|]. set_solver.
Qed.

(** X23. The replay path on a server started on a log that fits the deque:
    the empty deque is seeded with every record of the log. *)
Lemma reseed_when_log_fits (cfg : Config) (w : World) (ws : conn)
    (room : pystr) (records : list Message) (file : pybytes) (count : Z) :
  is_open w ws →
  history w room = [] →
  files w !! _room_log_path cfg room = Some file →
  Forall (λ r, NL ∉ msg_ts r ++ msg_username r ++ msg_message r) records →
  utf8_encode (concat (log_line <$> records)) = Some file →
  (length records ≤ HISTORY_SIZE cfg)%nat →
  ∃ w',
    _send_recent_history cfg ws room count w = (Return (), w')
    ∧ history w' room = omap (λ r, parse_line room (log_line r)) records
    ∧ outbox w' ws
      = outbox w ws ++ replay_frames room (slice_from (- count) (history w' room)).
Proof.
  intros Hopen Hempty Hlog Hclean Hfile Hfits.
  destruct (replay_seeds_with_history_size cfg w ws room count Hopen Hempty)
    as (w' & Hrun & Hseed & Hout).
  exists w'. split; [done|]. split; [|done].
  rewrite Hseed. unfold _read_last_lines_from_log. rewrite Hlog.
  rewrite (read_back_log room records file _ Hclean Hfile Hfits).
  apply lastn_all. etrans; [apply length_omap_le|done].
Qed.

(** C8, as the code has it. The line of a record whose fields hold no
    newline and whose timestamp holds no delimiter is never skipped by
    the parser, because the split stops after two delimiters: a
    delimiter in the message is read back as part of the message, and a
    delimiter in the username cuts the username there and moves the
    rest, with the delimiter that followed, to the front of the
    message.  The tail read of a log holding that line returns the
    record so parsed. *)
Theorem delimiter_in_field_not_dropped (room : pystr) (record : Message) :
  BAR ∉ msg_ts record →
  NL ∉ msg_ts record ++ msg_username record ++ msg_message record →
  (BAR ∉ msg_username record →
     parse_line room (log_line record)
     = Some (mkMessage room (msg_username record) (msg_message record)
               (msg_ts record)))
  ∧ (∀ u1 u2, msg_username record = u1 ++ BAR :: u2 → BAR ∉ u1 →
       parse_line room (log_line record)
       = Some (mkMessage room u1 (u2 ++ BAR :: msg_message record)
                 (msg_ts record)))
  ∧ (∃ parsed,
       parse_line room (log_line record) = Some parsed
       ∧ ∀ file count,
           utf8_encode (log_line record) = Some file → (0 < count)%nat →
           read_last_lines_of room (Some file) count = [parsed]).
Proof.
  intros Hts Hnl.
  assert (Hread : ∀ parsed file count,
    parse_line room (log_line record) = Some parsed →
    utf8_encode (log_line record) = Some file → (0 < count)%nat →
    read_last_lines_of room (Some file) count = [parsed]).
  { intros parsed file count Hparsed Hfile Hcount.
    rewrite (read_back_log room [record] file count).
    - cbn [omap list_omap]. by rewrite Hparsed.
    - by apply Forall_singleton.
    - simpl. by rewrite app_nil_r.
    - simpl. lia. }
  destruct record as [r u m ts]. simpl in Hts, Hnl.
  assert (Hbar : NL ≠ BAR) by done.
  assert (Hclean : BAR ∉ u →
    parse_line room (log_line (mkMessage r u m ts))
    = Some (mkMessage room u m ts)).
  { intros Hu. unfold log_line. simpl.
    apply parse_line_two_delimiters; [done..|]. set_solver. }
  assert (Hcut : ∀ u1 u2, u = u1 ++ BAR :: u2 → BAR ∉ u1 →
    parse_line room (log_line (mkMessage r u m ts))
    = Some (mkMessage room u1 (u2 ++ BAR :: m) ts)).
  { intros u1 u2 -> Hu1.
    assert (Hline : log_line (mkMessage r (u1 ++ BAR :: u2) m ts)
                    = ts ++ [BAR] ++ u1 ++ [BAR] ++ (u2 ++ BAR :: m) ++ [NL]).
    { unfold log_line. simpl. repeat (rewrite <- app_assoc; simpl). done. }
    rewrite Hline.
    apply parse_line_two_delimiters; [done..|]. clear Hline. set_solver. }
  split; [done|]. split; [done|].
  destruct (decide (BAR ∈ u)) as [Hin|Hnot].
  - apply list_elem_of_split_l in Hin as (u1 & u2 & Hu & Hu1).
    eexists. split; [by apply (Hcut u1 u2)|].
    intros file count. apply Hread. by apply (Hcut u1 u2).
  - eexists. split; [by apply Hclean|].
    intros file count. apply Hread. by apply Hclean.
Qed.

(** C8, as the claim words it, fails: a record whose message holds the
    delimiter is written to the log and returned by the tail read, with
    its message whole. *)
Lemma delimiter_in_message_read_back :
  let room := py "general" in
  let record := mkMessage room (py "alice") (py "a|b") (py "T1") in
  BAR ∈ msg_message record
  ∧ ∃ w,
      _append_to_room_log default_config room record empty_world = (Return (), w)
      ∧ _read_last_lines_from_log default_config w room 100 = [record].
Proof.
  split.
  - vm_compute. apply list_elem_of_lookup_2 with 1%nat. reflexivity.
  - eexists. split; [vm_compute; reflexivity|].
    vm_compute. reflexivity.
Qed.

(** A delimiter in the username: the record is returned with another
    username and message. *)
Lemma delimiter_in_username_read_back :
  let room := py "general" in
  let record := mkMessage room (py "al|ice") (py "hi") (py "T1") in
  ∃ w,
    _append_to_room_log default_config room record empty_world = (Return (), w)
    ∧ _read_last_lines_from_log default_config w room 100
      = [mkMessage room (py "al") (py "ice|hi") (py "T1")].
Proof.
  eexists. split; [vm_compute; reflexivity|].
  vm_compute. reflexivity.
Qed.

(** The hypotheses of [delimiter_in_field_not_dropped] hold for a record
    whose username and message both hold the delimiter. *)
Lemma delimiter_in_field_not_dropped_witness :
  let room := py "general" in
  let record := mkMessage room (py "al|ice") (py "a|b") (py "T1") in
  (BAR ∉ msg_username record →
     parse_line room (log_line record)
     = Some (mkMessage room (msg_username record) (msg_message record)
               (msg_ts record)))
  ∧ (∀ u1 u2, msg_username record = u1 ++ BAR :: u2 → BAR ∉ u1 →
       parse_line room (log_line record)
       = Some (mkMessage room u1 (u2 ++ BAR :: msg_message record)
                 (msg_ts record)))
  ∧ (∃ parsed,
       parse_line room (log_line record) = Some parsed
       ∧ ∀ file count,
           utf8_encode (log_line record) = Some file → (0 < count)%nat →
           read_last_lines_of room (Some file) count = [parsed]).
Proof.
  apply (delimiter_in_field_not_dropped (py "general")
           (mkMessage (py "general") (py "al|ice") (py "a|b") (py "T1"))).
  - vm_compute. intros H. repeat (apply elem_of_cons in H as [H|H]; [discriminate|]).
    by apply elem_of_nil in H.
  - vm_compute. intros H. repeat (apply elem_of_cons in H as [H|H]; [discriminate|]).
    by apply elem_of_nil in H.
Defined.

(** ** The identity binding *)

(** C2 fails on the code. [_handle_login] tests whether the name is
    taken but not whether the socket already has a name: a socket that
    logs in as alice and then as bob holds both names. Once it is gone,
    [_cleanup] releases bob, the name [ws_to_username] remembers, and
    alice stays bound to the closed socket: every later login as alice
    is refused. *)
Theorem relogin_breaks_identity_binding :
  let alice := py "alice" in
  let bob := py "bob" in
  let w :=
    run default_config empty_world
      [Login 1%nat (login_data "alice"); Login 1%nat (login_data "bob")] in
  let w' := run default_config w [Disconnect 1%nat] in
  (username_to_ws w !! alice = Some 1%nat
   ∧ username_to_ws w !! bob = Some 1%nat
   ∧ ws_to_username w !! 1%nat = Some bob
   ∧ is_open w 1%nat
   ∧ ¬ one_name_per_socket w)
  ∧ (username_to_ws w' !! alice = Some 1%nat
     ∧ ws_to_username w' !! 1%nat = None
     ∧ ¬ is_open w' 1%nat
     ∧ ¬ no_stale_name w'
     ∧ ∃ w'', login_refused w' 2%nat (login_data "alice")
                (py "username_taken") w'').
Proof.
  split.
  - split; [vm_compute; reflexivity|]. split; [vm_compute; reflexivity|].
    split; [vm_compute; reflexivity|]. split; [vm_compute; reflexivity|].
    intros Hone.
    specialize (Hone (py "alice") (py "bob") 1%nat).
    assert (Heq : py "alice" = py "bob") by (apply Hone; vm_compute; reflexivity).
    vm_compute in Heq. discriminate.
  - split; [vm_compute; reflexivity|]. split; [vm_compute; reflexivity|].
    split; [vm_compute; discriminate|]. split.
    + intros Hstale. specialize (Hstale (py "alice") 1%nat).
      assert (Hopen : is_open
        (run default_config
           (run default_config empty_world
              [Login 1%nat (login_data "alice"); Login 1%nat (login_data "bob")])
           [Disconnect 1%nat]) 1%nat) by (apply Hstale; vm_compute; reflexivity).
      vm_compute in Hopen. discriminate.
    + eexists. split; [vm_compute; reflexivity|].
      eexists. vm_compute. reflexivity.
Qed.

(** ** What every run keeps of the identity binding *)

Lemma preserves_ret {A} (P : World → Prop) (a : A) : preserves P (ret a).
Proof. by intros w. Qed.

Lemma preserves_get (P : World → Prop) : preserves P get.
Proof. by intros w. Qed.

Lemma preserves_modify (P : World → Prop) (f : World → World) :
  (∀ w, P w → P (f w)) → preserves P (modify f).
Proof. intros Hf w. apply Hf. Qed.

Lemma preserves_bind {A B} (P : World → Prop) (m : Py A) (k : A → Py B) :
  preserves P m → (∀ a, preserves P (k a)) → preserves P (bind m k).
Proof.
  intros Hm Hk w Hw. unfold bind. specialize (Hm w Hw).
  destruct (m w) as [[a|e] w']; [by apply Hk | done].
Qed.

Lemma preserves_try_except {A} (P : World → Prop) (m handler : Py A) (e : exn) :
  preserves P m → preserves P handler → preserves P (try_except m e handler).
Proof.
  intros Hm Hh w Hw. unfold try_except. specialize (Hm w Hw).
  destruct (m w) as [[a|e'] w']; [done|].
  destruct (decide (e' = e)); [by apply Hh | done].
Qed.

Lemma preserves_for_each {A} (P : World → Prop) (xs : list A)
    (body : A → Py unit) :
  (∀ x, preserves P (body x)) → preserves P (for_each xs body).
Proof.
  intros Hbody. induction xs as [|x xs IH]; simpl.
  - apply preserves_ret.
  - apply preserves_bind; [apply Hbody | by intros _].
Qed.

Lemma names_consistent_ext (w w' : World) :
  username_to_ws w' = username_to_ws w →
  ws_to_username w' = ws_to_username w →
  names_consistent w → names_consistent w'.
Proof. unfold names_consistent. by intros -> ->. Qed.

Lemma ws_send_consistent (ws : conn) (payload : Frame) :
  preserves names_consistent (ws_send ws payload).
Proof. intros w Hw. unfold ws_send. by destruct (closed w !! ws). Qed.

Lemma ws_close_consistent (ws : conn) (code : Z) (reason : pystr) :
  preserves names_consistent (ws_close ws code reason).
Proof. intros w Hw. unfold ws_close. by destruct (closed w !! ws). Qed.

Lemma cleanup_consistent (ws : conn) :
  preserves names_consistent (_cleanup ws).
Proof.
  intros w Hw. change (names_consistent (cleanup_world ws w)).
  intros ws' u. rewrite cleanup_ws_to_username, cleanup_username_to_ws.
  destruct (decide (ws' = ws)) as [->|Hne].
  - by rewrite lookup_delete_eq.
  - rewrite lookup_delete_ne by done. intros Hname.
    specialize (Hw ws' u Hname).
    rewrite bool_decide_eq_false_2; [done|].
    intros (_ & _ & Hbound). congruence.
Qed.

Lemma append_to_room_log_consistent (cfg : Config) (room : pystr)
    (record : Message) :
  preserves names_consistent (_append_to_room_log cfg room record).
Proof.
  intros w Hw. unfold _append_to_room_log. case_bool_decide; [done|].
  by destruct (utf8_encode (log_line record)).
Qed.

Lemma broadcast_consistent (room : pystr) (record : Message) :
  preserves names_consistent (_broadcast room record).
Proof.
  unfold _broadcast. apply preserves_bind; [apply preserves_get|].
  intros w. destruct (elements (subscribers w room)) as [|a subs].
  - apply preserves_ret.
  - apply preserves_for_each. intros ws. unfold _safe_send.
    apply preserves_try_except; [apply ws_send_consistent|apply cleanup_consistent].
Qed.

Lemma send_recent_history_consistent (cfg : Config) (ws : conn)
    (room : pystr) (count : Z) :
  preserves names_consistent (_send_recent_history cfg ws room count).
Proof.
  unfold _send_recent_history. apply preserves_bind; [apply preserves_get|].
  intros w. apply preserves_bind; [by apply preserves_modify|].
  intros _. destruct (slice_from _ _).
  - apply preserves_ret.
  - apply ws_send_consistent.
Qed.

Lemma handle_login_consistent (ws : conn) (data : gmap pystr jval) :
  preserves names_consistent (_handle_login ws data).
Proof.
  intros w Hw. unfold _handle_login.
  destruct (negb _ || negb _).
  { by apply ws_send_consistent. }
  set (name := str_of (dict_get data (py "username"))).
  unfold bind at 1, get.
  case_bool_decide as Htaken.
  - revert w Hw Htaken. intros w Hw _. revert w Hw.
    apply preserves_bind; [apply ws_send_consistent|].
    intros _. apply ws_close_consistent.
  - unfold bind, modify, _send_ok.
    apply ws_send_consistent. simpl.
    intros ws' u. simpl.
    assert (Hfree : username_to_ws w !! name = None).
    { destruct (username_to_ws w !! name) eqn:Hn; [|done].
      destruct Htaken. eauto. }
    destruct (decide (ws' = ws)) as [->|Hne].
    + rewrite lookup_insert_eq. intros [= <-]. apply lookup_insert_eq.
    + rewrite lookup_insert_ne by done. intros Hname.
      specialize (Hw ws' u Hname).
      rewrite lookup_insert_ne; [done|]. intros <-. congruence.
Qed.

Lemma handle_subscribe_consistent (cfg : Config) (ws : conn)
    (data : gmap pystr jval) :
  preserves names_consistent (_handle_subscribe cfg ws data).
Proof.
  unfold _handle_subscribe. destruct (negb _ || negb _).
  { apply ws_send_consistent. }
  apply preserves_bind; [by apply preserves_modify|]. intros _.
  apply preserves_bind; [by apply preserves_modify|]. intros _.
  apply preserves_bind; [apply ws_send_consistent|]. intros _.
  apply send_recent_history_consistent.
Qed.

Lemma handle_publish_consistent (cfg : Config) (ws : conn)
    (data : gmap pystr jval) (now : pystr) :
  preserves names_consistent (_handle_publish cfg ws data now).
Proof.
  unfold _handle_publish. destruct (negb _ || negb _).
  { apply ws_send_consistent. }
  destruct (negb _ || _).
  { apply ws_send_consistent. }
  apply preserves_bind; [apply preserves_get|]. intros w.
  destruct (ws_to_username w !! ws) as [[|c u]|]; try apply ws_send_consistent.
  apply preserves_bind; [by apply preserves_modify|]. intros _.
  apply preserves_bind; [apply append_to_room_log_consistent|]. intros _.
  apply broadcast_consistent.
Qed.

Lemma handle_logout_consistent (ws : conn) :
  preserves names_consistent (_handle_logout ws).
Proof.
  unfold _handle_logout.
  apply preserves_bind; [apply ws_send_consistent|]. intros _.
  apply preserves_bind; [apply cleanup_consistent|]. intros _.
  apply ws_close_consistent.
Qed.

Lemma handle_consistent (cfg : Config) (e : event) :
  preserves names_consistent (handle cfg e).
Proof.
  destruct e as [ws data|ws data|ws data now|ws|ws]; simpl; unfold on_closed.
  - apply preserves_try_except; [apply handle_login_consistent|apply cleanup_consistent].
  - apply preserves_try_except; [apply handle_subscribe_consistent|apply cleanup_consistent].
  - apply preserves_try_except; [apply handle_publish_consistent|apply cleanup_consistent].
  - apply preserves_try_except; [apply handle_logout_consistent|apply cleanup_consistent].
  - apply preserves_bind; [apply ws_close_consistent|]. intros _.
    apply cleanup_consistent.
Qed.

(** In every run from the start of the server, the name recorded for a
    socket is bound to that socket. *)
Lemma run_names_consistent (cfg : Config) (es : list event) (w : World) :
  names_consistent w → names_consistent (run cfg w es).
Proof.
  revert w. induction es as [|e es IH]; intros w Hw; simpl; [done|].
  apply IH. by apply handle_consistent.
Qed.

(** Hence no two sockets are ever recorded under one name: the part of
    the identity binding that the login guard does enforce. *)
Lemma run_name_unique (cfg : Config) (es : list event) (ws1 ws2 : conn)
    (u : pystr) :
  ws_to_username (run cfg empty_world es) !! ws1 = Some u →
  ws_to_username (run cfg empty_world es) !! ws2 = Some u →
  ws1 = ws2.
Proof.
  intros H1 H2.
  assert (Hinv : names_consistent (run cfg empty_world es)).
  { apply run_names_consistent. intros ws u'. simpl. by rewrite lookup_empty. }
  apply Hinv in H1. apply Hinv in H2. congruence.
Qed.

(** ** Hypotheses met in runs of the server *)

(** [publish_requires_login]: socket 1 has not logged in. *)
Lemma publish_requires_login_witness :
  let w := run default_config empty_world [Subscribe 2%nat (subscribe_data "general")] in
  ∃ w',
    _handle_publish default_config 1%nat (publish_data "general" (py "hi"))
      (py "T1") w = (Return (), w')
    ∧ outbox w' 1%nat
      = outbox w 1%nat ++ [ErrorFrame (py "not_logged_in")
                             (py "Login required before publishing")]
    ∧ (∀ ws', ws' ≠ 1%nat → outbox w' ws' = outbox w ws')
    ∧ room_to_history w' = room_to_history w
    ∧ files w' = files w
    ∧ closed w' = closed w
    ∧ username_to_ws w' = username_to_ws w
    ∧ ws_to_username w' = ws_to_username w
    ∧ room_to_subscribers w' = room_to_subscribers w
    ∧ ws_to_rooms w' = ws_to_rooms w.
Proof.
  apply (publish_requires_login default_config _ 1%nat
           (publish_data "general" (py "hi")) (py "T1") (py "general") (py "hi")).
  - reflexivity.
  - discriminate.
  - reflexivity.
  - discriminate.
  - reflexivity.
  - reflexivity.
Defined.

(** [broadcast_partial_failure]: sockets 1 and 2 subscribe, then socket
    2 is refused a taken name and closed by the server; it is still a
    subscriber when the record is broadcast. *)
Lemma broadcast_partial_failure_witness :
  let room := py "general" in
  let record := mkMessage room (py "alice") (py "hi") (py "T1") in
  let w :=
    run default_config empty_world
      [Subscribe 1%nat (subscribe_data "general");
       Subscribe 2%nat (subscribe_data "general");
       Login 3%nat (login_data "alice");
       Login 2%nat (login_data "alice")] in
  ∃ w',
    _broadcast room record w = (Return (), w')
    ∧ outbox w' 1%nat = outbox w 1%nat ++ [MessageFrame record]
    ∧ (∀ ws, ws ∈ subscribers w room → is_open w ws →
         outbox w' ws = outbox w ws ++ [MessageFrame record])
    ∧ ws_to_username w' !! 2%nat = None
    ∧ ws_to_rooms w' !! 2%nat = None
    ∧ (∀ r, r ∈ rooms_of w 2%nat → 2%nat ∉ subscribers w' r)
    ∧ (∀ u, ws_to_username w !! 2%nat = Some u → u ≠ [] →
         username_to_ws w' !! u ≠ Some 2%nat)
    ∧ (∀ ws, is_open w ws → same_bookkeeping ws w w')
    ∧ room_to_history w' = room_to_history w
    ∧ files w' = files w.
Proof.
  apply (broadcast_partial_failure _ (py "general")
           (mkMessage (py "general") (py "alice") (py "hi") (py "T1"))
           1%nat 2%nat).
  - vm_compute. reflexivity.
  - vm_compute. reflexivity.
  - vm_compute. reflexivity.
  - vm_compute. discriminate.
Defined.

(** [subscribe_without_login]: socket 1 subscribes on a fresh server. *)
Lemma subscribe_without_login_witness :
  let cfg := default_config in
  let room := py "general" in
  let w := empty_world in
  ∃ w',
    _handle_subscribe cfg 1%nat (subscribe_data "general") w = (Return (), w')
    ∧ 1%nat ∈ subscribers w' room
    ∧ room ∈ rooms_of w' 1%nat
    ∧ ws_to_username w' !! 1%nat = None
    ∧ is_open w' 1%nat
    ∧ outbox w' 1%nat
      = outbox w 1%nat
        ++ OkFrame (py "subscribed") [(py "room", room)]
        :: replay_frames room
             (slice_from (- HISTORY_ON_SUBSCRIBE cfg) (seeded_history cfg w room))
    ∧ (∀ record, ∃ w'',
         _broadcast room record w' = (Return (), w'')
         ∧ outbox w'' 1%nat = outbox w' 1%nat ++ [MessageFrame record]).
Proof.
  apply (subscribe_without_login default_config empty_world 1%nat
           (subscribe_data "general") (py "general")).
  - reflexivity.
  - discriminate.
  - reflexivity.
  - reflexivity.
Defined.

(** ** Properties kept by every method *)

Lemma preserves_get_bind {A} (P : World → Prop) (k : World → Py A) :
  (∀ w, P w → P (k w w).2) → preserves P (bind get k).
Proof. intros Hk w Hw. unfold bind, get. by apply Hk. Qed.

Lemma preserves_modify_bind {A} (P : World → Prop) (f : World → World)
    (k : Py A) (w : World) :
  P (k (f w)).2 → P (bind (modify f) (λ _, k) w).2.
Proof. done. Qed.

Lemma valid_string (v : jval) :
  negb (truthy v) || negb (isinstance_str v) = false →
  ∃ c s, v = JStr (c :: s).
Proof. destruct v as [| | |[|c s]| |]; try done; try (by destruct b); eauto.
  all: simpl; rewrite ?orb_true_r; done. Qed.

Section Preservation.
Context (cfg : Config) (P : World → Prop).
Hypothesis P_sent : ∀ w ws l, P w → P (set_sent <[ws := l]> w).
Hypothesis P_closed : ∀ w ws code, P w → P (set_closed <[ws := code]> w).
Hypothesis P_cleanup : ∀ w ws, P w → P (cleanup_world ws w).
Hypothesis P_login : ∀ w ws name,
  P w → name ≠ [] → username_to_ws w !! name = None →
  P (set_ws_to_username <[ws := name]> (set_username_to_ws <[name := ws]> w)).
Hypothesis P_subscribe : ∀ w ws room,
  P w → room ≠ [] →
  P (set_ws_to_rooms <[ws := rooms_of w ws ∪ {[room]}]>
       (set_room_to_subscribers <[room := subscribers w room ∪ {[ws]}]> w)).
Hypothesis P_seed : ∀ w room,
  P w → room ≠ [] →
  P (set_room_to_history <[room := seeded_history cfg w room]> w).
Hypothesis P_publish : ∀ w room record,
  P w → room ≠ [] → msg_room record = room →
  P (set_room_to_history
       <[room := deque_append (HISTORY_SIZE cfg) (history w room) record]> w).
Hypothesis P_append : ∀ w path more,
  P w → P (set_files <[path := default [] (files w !! path) ++ more]> w).

Lemma ws_send_preserves (ws : conn) (payload : Frame) :
  preserves P (ws_send ws payload).
Proof.
  intros w Hw. unfold ws_send. destruct (closed w !! ws); [done|].
  by apply P_sent.
Qed.

Lemma ws_close_preserves (ws : conn) (code : Z) (reason : pystr) :
  preserves P (ws_close ws code reason).
Proof.
  intros w Hw. unfold ws_close. destruct (closed w !! ws); [done|].
  by apply P_closed.
Qed.

Lemma cleanup_preserves (ws : conn) : preserves P (_cleanup ws).
Proof. intros w Hw. by apply P_cleanup. Qed.

Lemma safe_send_preserves (ws : conn) (payload : Frame) :
  preserves P (_safe_send ws payload).
Proof.
  apply preserves_try_except; [apply ws_send_preserves|apply cleanup_preserves].
Qed.

Lemma broadcast_preserves (room : pystr) (record : Message) :
  preserves P (_broadcast room record).
Proof.
  unfold _broadcast. apply preserves_bind; [apply preserves_get|].
  intros w. destruct (elements (subscribers w room)) as [|a subs].
  - apply preserves_ret.
  - apply preserves_for_each. intros ws. apply safe_send_preserves.
Qed.

Lemma append_to_room_log_preserves (room : pystr) (record : Message) :
  preserves P (_append_to_room_log cfg room record).
Proof.
  intros w Hw. unfold _append_to_room_log. case_bool_decide; [done|].
  destruct (utf8_encode (log_line record)) as [line|]; simpl.
  - by apply P_append.
  - rewrite <- (app_nil_r (default [] _)). by apply P_append.
Qed.

Lemma send_recent_history_preserves (ws : conn) (room : pystr) (count : Z) :
  room ≠ [] → preserves P (_send_recent_history cfg ws room count).
Proof.
  intros Hroom. unfold _send_recent_history. apply preserves_get_bind.
  intros w Hw. apply preserves_modify_bind.
  assert (Hseed :
    match history w room with
    | [] => foldl (deque_append (HISTORY_SIZE cfg)) (history w room)
              (_read_last_lines_from_log cfg w room (HISTORY_SIZE cfg))
    | _ :: _ => history w room
    end = seeded_history cfg w room).
  { unfold seeded_history. by destruct (history w room). }
  rewrite Hseed.
  destruct (slice_from _ _); [by apply P_seed|].
  apply ws_send_preserves. by apply P_seed.
Qed.

Lemma handle_login_preserves (ws : conn) (data : gmap pystr jval) :
  preserves P (_handle_login ws data).
Proof.
  unfold _handle_login.
  destruct (negb _ || negb _) eqn:Hvalid.
  { apply ws_send_preserves. }
  apply valid_string in Hvalid as (c & s & ->). cbn [str_of].
  apply preserves_get_bind. intros w Hw.
  case_bool_decide as Htaken.
  - revert w Hw Htaken. intros w Hw _. revert w Hw.
    apply preserves_bind; [apply ws_send_preserves|].
    intros _. apply ws_close_preserves.
  - unfold bind, modify, _send_ok.
    apply ws_send_preserves. apply P_login; [done|done|].
    destruct (username_to_ws w !! (c :: s)) eqn:Hn; [|done].
    destruct Htaken. eauto.
Qed.

Lemma handle_subscribe_preserves (ws : conn) (data : gmap pystr jval) :
  preserves P (_handle_subscribe cfg ws data).
Proof.
  unfold _handle_subscribe.
  destruct (negb _ || negb _) eqn:Hvalid.
  { apply ws_send_preserves. }
  apply valid_string in Hvalid as (c & s & ->). cbn [str_of].
  intros w Hw. apply preserves_modify_bind, preserves_modify_bind.
  assert (Hrest : preserves P
    (exec _send_ok ws (py "subscribed") [(py "room", c :: s)];
     _send_recent_history cfg ws (c :: s) (HISTORY_ON_SUBSCRIBE cfg))).
  { apply preserves_bind; [apply ws_send_preserves|].
    intros _. by apply send_recent_history_preserves. }
  apply Hrest. by apply (P_subscribe w ws (c :: s)).
Qed.

Lemma handle_publish_preserves (ws : conn) (data : gmap pystr jval)
    (now : pystr) :
  preserves P (_handle_publish cfg ws data now).
Proof.
  unfold _handle_publish.
  destruct (negb _ || negb _) eqn:Hvalid.
  { apply ws_send_preserves. }
  apply valid_string in Hvalid as (c & s & ->). cbn [str_of].
  destruct (negb _ || _).
  { apply ws_send_preserves. }
  apply preserves_get_bind. intros w Hw.
  destruct (ws_to_username w !! ws) as [[|c' u]|]; try by apply ws_send_preserves.
  apply preserves_modify_bind.
  assert (Hrest : ∀ record, preserves P
    (exec _append_to_room_log cfg (c :: s) record; _broadcast (c :: s) record)).
  { intros record. apply preserves_bind; [apply append_to_room_log_preserves|].
    intros _. apply broadcast_preserves. }
  apply Hrest. by apply P_publish.
Qed.

Lemma handle_logout_preserves (ws : conn) : preserves P (_handle_logout ws).
Proof.
  unfold _handle_logout.
  apply preserves_bind; [apply ws_send_preserves|]. intros _.
  apply preserves_bind; [apply cleanup_preserves|]. intros _.
  apply ws_close_preserves.
Qed.

Lemma handle_preserves (e : event) : preserves P (handle cfg e).
Proof.
  destruct e as [ws data|ws data|ws data now|ws|ws]; simpl; unfold on_closed.
  - apply preserves_try_except; [apply handle_login_preserves|apply cleanup_preserves].
  - apply preserves_try_except; [apply handle_subscribe_preserves|apply cleanup_preserves].
  - apply preserves_try_except; [apply handle_publish_preserves|apply cleanup_preserves].
  - apply preserves_try_except; [apply handle_logout_preserves|apply cleanup_preserves].
  - apply preserves_bind; [apply ws_close_preserves|]. intros _.
    apply cleanup_preserves.
Qed.

(** A property kept by every elementary change is kept by every run. *)
Lemma run_preserves (es : list event) (w : World) : P w → P (run cfg w es).
Proof.
  revert w. induction es as [|e es IH]; intros w Hw; simpl; [done|].
  apply IH. by apply handle_preserves.
Qed.
End Preservation.

(** ** The subscription dictionaries mirror each other *)

Lemma subscribe_consistent (w : World) (ws : conn) (room : pystr) :
  subscriptions_consistent w →
  subscriptions_consistent
    (set_ws_to_rooms <[ws := rooms_of w ws ∪ {[room]}]>
       (set_room_to_subscribers <[room := subscribers w room ∪ {[ws]}]> w)).
Proof.
  intros Hw ws' room'. unfold rooms_of, subscribers. simpl.
  specialize (Hw ws' room'). unfold rooms_of, subscribers in Hw.
  destruct (decide (ws' = ws)) as [->|Hws], (decide (room' = room)) as [->|Hroom];
    rewrite ?lookup_insert_eq, ?lookup_insert_ne by done; simpl;
    unfold rooms_of, subscribers; set_solver.
Qed.

Lemma cleanup_subscriptions_consistent (w : World) (ws : conn) :
  subscriptions_consistent w → subscriptions_consistent (cleanup_world ws w).
Proof.
  intros Hw ws' room. rewrite cleanup_subscribers.
  unfold rooms_of at 1. rewrite cleanup_ws_to_rooms.
  specialize (Hw ws' room).
  destruct (decide (ws' = ws)) as [->|Hne].
  - rewrite lookup_delete_eq. simpl. set_solver.
  - rewrite lookup_delete_ne by done. fold (rooms_of w ws'). set_solver.
Qed.

(** X1. In every run of the server the two subscription dictionaries
    mirror each other: a room is in a socket's set of rooms exactly
    when the socket is in the room's set of subscribers. *)
Theorem run_subscriptions_consistent (cfg : Config) (es : list event)
    (ws : conn) (room : pystr) :
  room ∈ rooms_of (run cfg empty_world es) ws
  ↔ ws ∈ subscribers (run cfg empty_world es) room.
Proof.
  revert ws room.
  change (subscriptions_consistent (run cfg empty_world es)).
  apply run_preserves; try done.
  - intros w ws' Hw. by apply cleanup_subscriptions_consistent.
  - intros w ws' room' Hw _. by apply subscribe_consistent.
Qed.

(** ** The history deques *)




Lemma parse_line_room (room line : pystr) (m : Message) :
  parse_line room line = Some m → msg_room m = room.
Proof.
  unfold parse_line. destruct (rstrip NL line); [done|].
  destruct (split BAR 2 _) as [|ts [|u [|msg [|]]]]; try done.
  by intros [= <-].
Qed.

Lemma read_last_lines_room (room : pystr) (file : option pybytes) (count : nat) :
  Forall (λ m, msg_room m = room) (read_last_lines_of room file count).
Proof.
  unfold read_last_lines_of. destruct file as [content|]; [|done].
  unfold parse_lines. apply Forall_forall. intros m Hm.
  apply list_elem_of_omap in Hm as (line & _ & Hline).
  by eapply parse_line_room.
Qed.


(** ** The log files *)

(** X4. The log is append-only: whatever a run of the server does, a
    log file that exists keeps its content as a prefix. *)
Theorem run_log_append_only (cfg : Config) (es : list event) (w : World)
    (path : pystr) (content : pybytes) :
  files w !! path = Some content →
  ∃ more, files (run cfg w es) !! path = Some (content ++ more).
Proof.
  intros Hfile. change (log_extends path content (run cfg w es)).
  apply run_preserves; try done.
  - intros w' ws [more Hw]. exists more.
    by destruct (cleanup_frame ws w') as (_ & _ & -> & _).
  - intros w' path' more' [more Hw]. unfold log_extends. simpl.
    destruct (decide (path' = path)) as [->|Hne].
    + rewrite lookup_insert_eq, Hw. simpl. exists (more ++ more').
      by rewrite app_assoc.
    + rewrite lookup_insert_ne by done. by exists more.
  - exists []. by rewrite app_nil_r.
Qed.

Lemma run_log_append_only_witness :
  let cfg := default_config in
  let w := started_on {[ py "general.txt" := numbered_log (py "general") 2 ]} in
  let es :=
    [Login 1%nat (login_data "alice");
     Publish 1%nat (publish_data "general" (py "hi")) (py "T1")] in
  ∃ more,
    files (run cfg w es) !! py "general.txt"
    = Some (numbered_log (py "general") 2 ++ more).
Proof.
  apply (run_log_append_only default_config _ _ (py "general.txt")).
  vm_compute. reflexivity.
Defined.

(** ** More on cleanup *)

Lemma world_eq (w w' : World) :
  username_to_ws w = username_to_ws w' →
  ws_to_username w = ws_to_username w' →
  room_to_subscribers w = room_to_subscribers w' →
  ws_to_rooms w = ws_to_rooms w' →
  room_to_history w = room_to_history w' →
  closed w = closed w' → sent w = sent w' →
  files w = files w' → unwritable w = unwritable w' →
  w = w'.
Proof. destruct w, w'. simpl. by intros -> -> -> -> -> -> -> -> ->. Qed.

Lemma cleanup_room_to_subscribers (ws : conn) (w : World) :
  room_to_subscribers (cleanup_world ws w)
  = foldl (discard_subscriber ws) (room_to_subscribers w)
      (elements (rooms_of w ws)).
Proof.
  unfold cleanup_world, rooms_of.
  destruct (ws_to_username w !! ws) as [[|c u]|]; simpl; try done.
  by case_bool_decide.
Qed.

Lemma cleanup_unknown_socket (ws : conn) (w : World) :
  ws_to_username w !! ws = None → ws_to_rooms w !! ws = None →
  cleanup_world ws w = w.
Proof.
  intros Hname Hrooms.
  destruct (cleanup_frame ws w) as (Hc & Hs & Hf & Hh & Hu).
  apply world_eq; try done.
  - apply map_eq. intros u. rewrite cleanup_username_to_ws.
    rewrite bool_decide_eq_false_2; [done|]. rewrite Hname. naive_solver.
  - rewrite cleanup_ws_to_username. by apply delete_id.
  - rewrite cleanup_room_to_subscribers. unfold rooms_of. rewrite Hrooms.
    simpl. by rewrite elements_empty.
  - rewrite cleanup_ws_to_rooms. by apply delete_id.
Qed.

(** X5. [_cleanup] is idempotent: run a second time for the same socket
    it changes nothing more; and it never touches a history deque, a
    log file or a socket. *)
Theorem cleanup_idempotent (ws : conn) (w : World) :
  cleanup_world ws (cleanup_world ws w) = cleanup_world ws w
  ∧ room_to_history (cleanup_world ws w) = room_to_history w
  ∧ files (cleanup_world ws w) = files w
  ∧ sent (cleanup_world ws w) = sent w
  ∧ closed (cleanup_world ws w) = closed w.
Proof.
  split.
  - apply cleanup_unknown_socket.
    + rewrite cleanup_ws_to_username. apply lookup_delete_eq.
    + rewrite cleanup_ws_to_rooms. apply lookup_delete_eq.
  - destruct (cleanup_frame ws w) as (-> & -> & -> & -> & _). done.
Qed.

(** ** Validation of the envelopes *)

Lemma invalid_string (v : jval) :
  (∀ c s, v ≠ JStr (c :: s)) →
  negb (truthy v) || negb (isinstance_str v) = true.
Proof.
  intros Hv. destruct v as [|b|n|[|c s]|l|l]; simpl; try done.
  - by rewrite orb_true_r.
  - by rewrite orb_true_r.
  - by destruct (Hv c s).
  - by rewrite orb_true_r.
  - by rewrite orb_true_r.
Qed.

(** X6. A login whose username is missing, is not a string or is the
    empty string is answered with [invalid_username] and changes
    nothing else: no name is bound and the socket stays open. *)
Theorem login_invalid_username (w : World) (ws : conn)
    (data : gmap pystr jval) :
  (∀ c s, dict_get data (py "username") ≠ JStr (c :: s)) →
  is_open w ws →
  _handle_login ws data w
  = (Return (),
     set_sent <[ws := outbox w ws
                  ++ [ErrorFrame (py "invalid_username")
                        (py "'username' must be a non-empty string")]]> w).
Proof.
  intros Hinvalid Hopen. unfold _handle_login.
  rewrite invalid_string by done.
  unfold _send_error. by apply ws_send_open.
Qed.

Lemma login_invalid_username_witness :
  _handle_login 1%nat {[ py "name" := JStr (py "alice") ]} empty_world
  = (Return (),
     set_sent <[1%nat := outbox empty_world 1%nat
                  ++ [ErrorFrame (py "invalid_username")
                        (py "'username' must be a non-empty string")]]>
       empty_world).
Proof.
  apply (login_invalid_username empty_world 1%nat {[ py "name" := JStr (py "alice") ]}).
  - intros c s. vm_compute. discriminate.
  - reflexivity.
Defined.

Lemma invalid_message (v : jval) :
  (∀ c s, v ≠ JStr (c :: s)) →
  negb (isinstance_str v) || is_empty_str v = true.
Proof.
  intros Hv. destruct v as [|b|n|[|c s]|l|l]; simpl; try done.
  by destruct (Hv c s).
Qed.

(** X7. [_handle_publish] checks the room first, then the message, and
    only then the login: a publish with a missing, non-string or empty
    room is answered [invalid_room], and one with a valid room but a
    missing, non-string or empty message [invalid_message], whether or
    not the sender has logged in; nothing else changes. *)
Theorem publish_validation_order (cfg : Config) (w : World) (ws : conn)
    (data : gmap pystr jval) (now : pystr) :
  is_open w ws →
  ((∀ c s, dict_get data (py "room") ≠ JStr (c :: s)) →
     _handle_publish cfg ws data now w
     = (Return (),
        set_sent <[ws := outbox w ws
                     ++ [ErrorFrame (py "invalid_room")
                           (py "'room' must be a non-empty string")]]> w))
  ∧ ((∃ c s, dict_get data (py "room") = JStr (c :: s)) →
     (∀ c s, dict_get data (py "message") ≠ JStr (c :: s)) →
     _handle_publish cfg ws data now w
     = (Return (),
        set_sent <[ws := outbox w ws
                     ++ [ErrorFrame (py "invalid_message")
                           (py "'message' must be a non-empty string")]]> w)).
Proof.
  intros Hopen. split.
  - intros Hroom. unfold _handle_publish. rewrite invalid_string by done.
    unfold _send_error. by apply ws_send_open.
  - intros (c & s & Hroom) Hmsg. unfold _handle_publish.
    rewrite Hroom. cbn [truthy isinstance_str negb orb].
    rewrite invalid_message by done.
    unfold _send_error. by apply ws_send_open.
Qed.

Lemma publish_validation_order_witness :
  let w := empty_world in
  let ws := 1%nat in
  let data : gmap pystr jval := {[ py "room" := JStr (py "general") ]} in
  ((∀ c s, dict_get data (py "room") ≠ JStr (c :: s)) →
     _handle_publish default_config ws data (py "T1") w
     = (Return (),
        set_sent <[ws := outbox w ws
                     ++ [ErrorFrame (py "invalid_room")
                           (py "'room' must be a non-empty string")]]> w))
  ∧ ((∃ c s, dict_get data (py "room") = JStr (c :: s)) →
     (∀ c s, dict_get data (py "message") ≠ JStr (c :: s)) →
     _handle_publish default_config ws data (py "T1") w
     = (Return (),
        set_sent <[ws := outbox w ws
                     ++ [ErrorFrame (py "invalid_message")
                           (py "'message' must be a non-empty string")]]> w)).
Proof.
  apply (publish_validation_order default_config empty_world 1%nat
           {[ py "room" := JStr (py "general") ]} (py "T1")).
  reflexivity.
Defined.

(** A subscribe whose room is missing, is not a string or is the
    empty string is answered with [invalid_room]; the socket is
    subscribed to nothing and no history deque is created or seeded. *)
Theorem subscribe_invalid_room (cfg : Config) (w : World) (ws : conn)
    (data : gmap pystr jval) :
  (∀ c s, dict_get data (py "room") ≠ JStr (c :: s)) →
  is_open w ws →
  _handle_subscribe cfg ws data w
  = (Return (),
     set_sent <[ws := outbox w ws
                  ++ [ErrorFrame (py "invalid_room")
                        (py "'room' must be a non-empty string")]]> w).
Proof.
  intros Hinvalid Hopen. unfold _handle_subscribe.
  rewrite invalid_string by done.
  unfold _send_error. by apply ws_send_open.
Qed.

Lemma subscribe_invalid_room_witness :
  _handle_subscribe default_config 1%nat {[ py "room" := JNum 7 ]} empty_world
  = (Return (),
     set_sent <[1%nat := outbox empty_world 1%nat
                  ++ [ErrorFrame (py "invalid_room")
                        (py "'room' must be a non-empty string")]]>
       empty_world).
Proof.
  apply (subscribe_invalid_room default_config empty_world 1%nat
           {[ py "room" := JNum 7 ]}).
  - intros c s. vm_compute. discriminate.
  - reflexivity.
Defined.

(** ** A taken name, and a name released *)

(** X8. When the name asked for is bound to a socket, the login is
    refused: the asking socket is sent [username_taken] and closed with
    code 4000 and reason [username_taken]; the name stays bound to its
    holder, which is sent nothing and is not closed. *)
Theorem login_taken_closes_socket (w : World) (ws owner : conn)
    (data : gmap pystr jval) (name : pystr) :
  dict_get data (py "username") = JStr name → name ≠ [] →
  is_open w ws →
  username_to_ws w !! name = Some owner → owner ≠ ws →
  ∃ w',
    _handle_login ws data w = (Return (), w')
    ∧ closed w' !! ws = Some (4000%Z, py "username_taken")
    ∧ outbox w' ws
      = outbox w ws ++ [ErrorFrame (py "username_taken")
                          (py "Username already in use")]
    ∧ username_to_ws w' !! name = Some owner
    ∧ ws_to_username w' = ws_to_username w
    ∧ outbox w' owner = outbox w owner
    ∧ closed w' !! owner = closed w !! owner.
Proof.
  intros Hdata Hname Hopen Howner Hne.
  eexists. split.
  { apply (handle_login_taken w ws data name); eauto. }
  simpl. rewrite lookup_insert_eq. split; [done|].
  split. { unfold outbox at 1. simpl. by rewrite lookup_insert_eq. }
  split; [done|]. split; [done|].
  split. { unfold outbox. simpl. by rewrite lookup_insert_ne. }
  by rewrite lookup_insert_ne.
Qed.

Lemma login_taken_closes_socket_witness :
  let w := run default_config empty_world [Login 1%nat (login_data "alice")] in
  ∃ w',
    _handle_login 2%nat (login_data "alice") w = (Return (), w')
    ∧ closed w' !! 2%nat = Some (4000%Z, py "username_taken")
    ∧ outbox w' 2%nat
      = outbox w 2%nat ++ [ErrorFrame (py "username_taken")
                             (py "Username already in use")]
    ∧ username_to_ws w' !! py "alice" = Some 1%nat
    ∧ ws_to_username w' = ws_to_username w
    ∧ outbox w' 1%nat = outbox w 1%nat
    ∧ closed w' !! 1%nat = closed w !! 1%nat.
Proof.
  apply (login_taken_closes_socket _ 2%nat 1%nat (login_data "alice") (py "alice")).
  - reflexivity.
  - discriminate.
  - reflexivity.
  - vm_compute. reflexivity.
  - discriminate.
Defined.

(** X9. A logout releases the name: the socket is sent [logout_ok],
    cleaned up and closed with code 1000, and a login under the same
    name from another open socket then succeeds. *)
Theorem logout_releases_name (w : World) (ws ws2 : conn)
    (data : gmap pystr jval) (name : pystr) :
  is_open w ws → is_open w ws2 → ws2 ≠ ws →
  name ≠ [] →
  ws_to_username w !! ws = Some name →
  username_to_ws w !! name = Some ws →
  dict_get data (py "username") = JStr name →
  ∃ w1 w2,
    _handle_logout ws w = (Return (), w1)
    ∧ outbox w1 ws = outbox w ws ++ [OkFrame (py "logout_ok") []]
    ∧ closed w1 !! ws = Some (1000%Z, py "logout")
    ∧ ws_to_username w1 !! ws = None
    ∧ ws_to_rooms w1 !! ws = None
    ∧ username_to_ws w1 !! name = None
    ∧ _handle_login ws2 data w1 = (Return (), w2)
    ∧ username_to_ws w2 !! name = Some ws2
    ∧ ws_to_username w2 !! ws2 = Some name
    ∧ outbox w2 ws2
      = outbox w1 ws2 ++ [OkFrame (py "login_ok") [(py "username", name)]].
Proof.
  intros Hopen Hopen2 Hne Hname Hbound Hholder Hdata.
  set (w0 := set_sent <[ws := outbox w ws ++ [OkFrame (py "logout_ok") []]]> w).
  set (w1 := set_closed <[ws := (1000%Z, py "logout")]> (cleanup_world ws w0)).
  assert (Hrun : _handle_logout ws w = (Return (), w1)).
  { unfold _handle_logout, bind, _send_ok. rewrite ws_send_open by done.
    fold w0. unfold _cleanup, modify, ws_close.
    destruct (cleanup_frame ws w0) as (-> & _).
    change (closed w0) with (closed w). by rewrite Hopen. }
  destruct (cleanup_frame ws w0) as (Hclosed & Hsent & _).
  assert (E1 : username_to_ws w1 = username_to_ws (cleanup_world ws w0)) by reflexivity.
  assert (E2 : ws_to_username w1 = ws_to_username (cleanup_world ws w0)) by reflexivity.
  assert (E3 : ws_to_rooms w1 = ws_to_rooms (cleanup_world ws w0)) by reflexivity.
  assert (E4 : sent w1 = sent w0).
  { by change (sent w1) with (sent (cleanup_world ws w0)). }
  assert (E5 : closed w1 = <[ws := (1000%Z, py "logout")]> (closed w)).
  { change (closed w1) with (<[ws := (1000%Z, py "logout")]> (closed (cleanup_world ws w0))).
    by rewrite Hclosed. }
  assert (Hfree : username_to_ws w1 !! name = None).
  { rewrite E1, cleanup_username_to_ws. by rewrite bool_decide_eq_true_2. }
  assert (Hopen2' : is_open w1 ws2).
  { unfold is_open. rewrite E5. by rewrite lookup_insert_ne. }
  exists w1. eexists. split; [done|].
  split. { unfold outbox. rewrite E4. unfold w0. simpl. by rewrite lookup_insert_eq. }
  split. { rewrite E5. by rewrite lookup_insert_eq. }
  split. { rewrite E2, cleanup_ws_to_username. apply lookup_delete_eq. }
  split. { rewrite E3, cleanup_ws_to_rooms. apply lookup_delete_eq. }
  split; [done|].
  split. { by apply (handle_login_free w1 ws2 data name). }
  split. { cbn [username_to_ws set_sent set_ws_to_username set_username_to_ws].
    by rewrite lookup_insert_eq. }
  split. { cbn [ws_to_username set_sent set_ws_to_username set_username_to_ws].
    by rewrite lookup_insert_eq. }
  apply outbox_sent_eq.
Qed.

Lemma logout_releases_name_witness :
  let w := run default_config empty_world [Login 1%nat (login_data "alice")] in
  ∃ w1 w2,
    _handle_logout 1%nat w = (Return (), w1)
    ∧ outbox w1 1%nat = outbox w 1%nat ++ [OkFrame (py "logout_ok") []]
    ∧ closed w1 !! 1%nat = Some (1000%Z, py "logout")
    ∧ ws_to_username w1 !! 1%nat = None
    ∧ ws_to_rooms w1 !! 1%nat = None
    ∧ username_to_ws w1 !! py "alice" = None
    ∧ _handle_login 2%nat (login_data "alice") w1 = (Return (), w2)
    ∧ username_to_ws w2 !! py "alice" = Some 2%nat
    ∧ ws_to_username w2 !! 2%nat = Some (py "alice")
    ∧ outbox w2 2%nat
      = outbox w1 2%nat
        ++ [OkFrame (py "login_ok") [(py "username", py "alice")]].
Proof.
  apply (logout_releases_name _ 1%nat 2%nat (login_data "alice") (py "alice")).
  - reflexivity.
  - reflexivity.
  - discriminate.
  - discriminate.
  - vm_compute. reflexivity.
  - vm_compute. reflexivity.
  - reflexivity.
Defined.

(** ** Who receives a broadcast *)

(** X10. A broadcast never raises; it sends the record once to every
    open subscriber of the room and nothing to any other socket, closes
    no socket and touches no history deque and no log file; to a room
    without subscribers it changes nothing at all. *)
Theorem broadcast_reaches_subscribers_only (w : World) (room : pystr)
    (record : Message) :
  ∃ w',
    _broadcast room record w = (Return (), w')
    ∧ (∀ ws,
         outbox w' ws
         = if bool_decide (ws ∈ subscribers w room ∧ is_open w ws)
           then outbox w ws ++ [MessageFrame record] else outbox w ws)
    ∧ closed w' = closed w
    ∧ room_to_history w' = room_to_history w
    ∧ files w' = files w
    ∧ (subscribers w room = ∅ → w' = w).
Proof.
  eexists. split; [apply broadcast_run|].
  split.
  { intros ws. rewrite deliver_outbox by apply NoDup_elements.
    destruct (decide (ws ∈ subscribers w room ∧ is_open w ws)) as [Hin|Hout].
    - rewrite !bool_decide_eq_true_2; [done..|].
      destruct Hin. split; [by apply elem_of_elements|done].
    - rewrite !bool_decide_eq_false_2; [done..|].
      intros [Hin%elem_of_elements ?]. by apply Hout. }
  destruct (deliver_frame (MessageFrame record) (elements (subscribers w room)) w)
    as (-> & -> & -> & _).
  repeat (split; [done|]).
  intros ->. by rewrite elements_empty.
Qed.

(** ** A publish that goes through *)

Lemma handle_publish_returns (cfg : Config) (w w1 : World) (ws : conn)
    (data : gmap pystr jval) (now room message username : pystr) :
  dict_get data (py "room") = JStr room → room ≠ [] →
  dict_get data (py "message") = JStr message → message ≠ [] →
  ws_to_username w !! ws = Some username → username ≠ [] →
  _handle_publish cfg ws data now w = (Return (), w1) →
  ∃ line,
    utf8_encode (log_line (mkMessage room username message now)) = Some line
    ∧ (_room_log_path cfg room ∉ unwritable w)
    ∧ w1 = foldl (safe_send_world (MessageFrame (mkMessage room username message now)))
             (set_files
                <[_room_log_path cfg room :=
                    default [] (files w !! _room_log_path cfg room) ++ line]>
                (set_room_to_history
                   <[room := deque_append (HISTORY_SIZE cfg) (history w room)
                               (mkMessage room username message now)]> w))
             (elements (subscribers w room)).
Proof.
  intros Hroom Hr Hmsg Hm Huser Hu Hrun.
  unfold _handle_publish in Hrun. rewrite Hroom, Hmsg in Hrun.
  destruct room as [|c0 room]; [done|].
  destruct message as [|c1 message]; [done|].
  destruct username as [|c2 username]; [done|].
  simpl in Hrun. unfold bind at 1, get in Hrun. rewrite Huser in Hrun.
  unfold bind at 1, modify in Hrun. unfold bind in Hrun.
  unfold _append_to_room_log in Hrun.
  cbn [unwritable files set_room_to_history] in Hrun.
  case_bool_decide as Hpath; [done|].
  destruct (utf8_encode _) as [line|] eqn:Hline; [|done].
  rewrite broadcast_run in Hrun. exists line.
  split; [done|]. split; [done|]. by simplify_eq.
Qed.

Lemma handle_publish_success (cfg : Config) (w : World) (ws : conn)
    (data : gmap pystr jval) (now room message username : pystr)
    (line : pybytes) :
  dict_get data (py "room") = JStr room → room ≠ [] →
  dict_get data (py "message") = JStr message → message ≠ [] →
  ws_to_username w !! ws = Some username → username ≠ [] →
  _room_log_path cfg room ∉ unwritable w →
  utf8_encode (log_line (mkMessage room username message now)) = Some line →
  _handle_publish cfg ws data now w
  = (Return (),
     foldl (safe_send_world (MessageFrame (mkMessage room username message now)))
       (set_files
          <[_room_log_path cfg room :=
              default [] (files w !! _room_log_path cfg room) ++ line]>
          (set_room_to_history
             <[room := deque_append (HISTORY_SIZE cfg) (history w room)
                         (mkMessage room username message now)]> w))
       (elements (subscribers w room))).
Proof.
  intros Hroom Hr Hmsg Hm Huser Hu Hpath Hline.
  unfold _handle_publish. rewrite Hroom, Hmsg.
  destruct room as [|c0 room]; [done|].
  destruct message as [|c1 message]; [done|].
  destruct username as [|c2 username]; [done|].
  simpl. unfold bind at 1, get. rewrite Huser.
  unfold bind at 1, modify. unfold bind.
  unfold _append_to_room_log.
  cbn [unwritable files set_room_to_history].
  rewrite bool_decide_eq_false_2 by done. rewrite Hline.
  by rewrite broadcast_run.
Qed.

(** X11. A publish by a logged-in socket, with a valid room and message,
    a writable log and an encodable line, returns; the record (room,
    sender's name, message, time of the call) is put at the end of the
    room's deque, its line is appended to the room's log file, every
    open subscriber of the room receives the record once, and no other
    socket - the sender included, unless it subscribed - receives
    anything. *)
Theorem publish_delivers (cfg : Config) (w : World) (ws : conn)
    (data : gmap pystr jval) (now room message username : pystr)
    (line : pybytes) :
  dict_get data (py "room") = JStr room → room ≠ [] →
  dict_get data (py "message") = JStr message → message ≠ [] →
  ws_to_username w !! ws = Some username → username ≠ [] →
  _room_log_path cfg room ∉ unwritable w →
  utf8_encode (log_line (mkMessage room username message now)) = Some line →
  ∃ w',
    _handle_publish cfg ws data now w = (Return (), w')
    ∧ history w' room
      = deque_append (HISTORY_SIZE cfg) (history w room)
          (mkMessage room username message now)
    ∧ files w' !! _room_log_path cfg room
      = Some (default [] (files w !! _room_log_path cfg room) ++ line)
    ∧ (∀ ws',
         outbox w' ws'
         = if bool_decide (ws' ∈ subscribers w room ∧ is_open w ws')
           then outbox w ws' ++ [MessageFrame (mkMessage room username message now)]
           else outbox w ws')
    ∧ closed w' = closed w.
Proof.
  intros Hroom Hr Hmsg Hm Huser Hu Hpath Hline.
  eexists. split; [by eapply handle_publish_success|].
  set (record := mkMessage room username message now).
  set (w2 := set_files _ _).
  destruct (deliver_frame (MessageFrame record) (elements (subscribers w room)) w2)
    as (Hclosed & Hfiles & Hhist & _).
  split. { unfold history. rewrite Hhist. simpl. by rewrite lookup_insert_eq. }
  split. { rewrite Hfiles. simpl. by rewrite lookup_insert_eq. }
  split; [|by rewrite Hclosed].
  intros ws'. rewrite deliver_outbox by apply NoDup_elements.
  destruct (decide (ws' ∈ subscribers w room ∧ is_open w ws')) as [Hin|Hout].
  - rewrite !bool_decide_eq_true_2; [done..|].
    destruct Hin. split; [by apply elem_of_elements|done].
  - rewrite !bool_decide_eq_false_2; [done..|].
    intros [Hin%elem_of_elements ?]. by apply Hout.
Qed.

Lemma publish_delivers_witness :
  let cfg := default_config in
  let w :=
    run cfg empty_world
      [Login 1%nat (login_data "alice");
       Subscribe 2%nat (subscribe_data "general")] in
  let record := mkMessage (py "general") (py "alice") (py "hi") (py "T1") in
  ∃ w',
    _handle_publish cfg 1%nat (publish_data "general" (py "hi")) (py "T1") w
    = (Return (), w')
    ∧ history w' (py "general")
      = deque_append (HISTORY_SIZE cfg) (history w (py "general")) record
    ∧ files w' !! _room_log_path cfg (py "general")
      = Some (default [] (files w !! _room_log_path cfg (py "general"))
              ++ py "T1|alice|hi" ++ [NL])
    ∧ (∀ ws',
         outbox w' ws'
         = if bool_decide (ws' ∈ subscribers w (py "general") ∧ is_open w ws')
           then outbox w ws' ++ [MessageFrame record]
           else outbox w ws')
    ∧ closed w' = closed w.
Proof.
  intros cfg w record.
  apply (publish_delivers cfg w 1%nat
           (publish_data "general" (py "hi")) (py "T1") (py "general") (py "hi")
           (py "alice") (py "T1|alice|hi" ++ [NL])).
  - reflexivity.
  - discriminate.
  - reflexivity.
  - discriminate.
  - vm_compute. reflexivity.
  - discriminate.
  - vm_compute. discriminate.
  - vm_compute. reflexivity.
Defined.

(** X12. Per-room order: a socket that is an open subscriber of a room
    before a series of publishes to it receives every record of the
    series, in the order of the publishes, and is still an open
    subscriber afterwards. *)
Theorem subscriber_sees_publishes_in_order (cfg : Config) (room : pystr)
    (w w' : World) (records : list Message) (ws : conn) :
  room ≠ [] →
  published cfg room w records w' →
  ws ∈ subscribers w room → is_open w ws →
  outbox w' ws = outbox w ws ++ (MessageFrame <$> records)
  ∧ ws ∈ subscribers w' room
  ∧ is_open w' ws.
Proof.
  intros Hroom Hpub. induction Hpub as [w|w sender data now message username w1
    records w2 Hdata Hmsg Hm Huser Hu Hrun Hpub IH]; intros Hsub Hopen.
  { by rewrite app_nil_r. }
  destruct (handle_publish_returns cfg w w1 sender data now room message username)
    as (line & _ & _ & Hw1); try done.
  set (record := mkMessage room username message now) in *.
  set (w0 := set_files _ _) in Hw1.
  assert (Hopen0 : is_open w0 ws) by done.
  assert (Hopen1 : is_open w1 ws).
  { unfold is_open. rewrite Hw1.
    by destruct (deliver_frame (MessageFrame record) (elements (subscribers w room)) w0)
      as (-> & _). }
  assert (Hsub1 : ws ∈ subscribers w1 room).
  { rewrite Hw1.
    destruct (deliver_open_untouched (MessageFrame record)
      (elements (subscribers w room)) w0 ws Hopen0) as (_ & _ & Hs & _).
    by apply Hs. }
  assert (Hout1 : outbox w1 ws = outbox w ws ++ [MessageFrame record]).
  { rewrite Hw1, deliver_outbox by apply NoDup_elements.
    rewrite bool_decide_eq_true_2; [done|].
    split; [by apply elem_of_elements|done]. }
  destruct (IH Hsub1 Hopen1) as (Hout & Hsub' & Hopen').
  split; [|done]. rewrite Hout, Hout1, fmap_cons. by rewrite <- app_assoc.
Qed.

Lemma subscriber_sees_publishes_in_order_witness :
  let cfg := default_config in
  let room := py "general" in
  let data (m : string) := publish_data "general" (py m) in
  let w :=
    run cfg empty_world
      [Login 1%nat (login_data "alice");
       Subscribe 2%nat (subscribe_data "general")] in
  let w' :=
    run cfg w [Publish 1%nat (data "a") (py "T1"); Publish 1%nat (data "b") (py "T2")] in
  let records :=
    [mkMessage room (py "alice") (py "a") (py "T1");
     mkMessage room (py "alice") (py "b") (py "T2")] in
  outbox w' 2%nat = outbox w 2%nat ++ (MessageFrame <$> records)
  ∧ 2%nat ∈ subscribers w' room
  ∧ is_open w' 2%nat.
Proof.
  intros cfg room data w w' records.
  apply (subscriber_sees_publishes_in_order cfg room w w' records 2%nat).
  - discriminate.
  - unfold records.
    repeat (eapply (published_cons cfg room _ 1%nat (data _));
            [reflexivity | reflexivity | discriminate
            | vm_compute; reflexivity | discriminate
            | vm_compute; reflexivity | ]).
    replace w' with
      (run cfg w [Publish 1%nat (data "a") (py "T1"); Publish 1%nat (data "b") (py "T2")])
      by reflexivity.
    vm_compute. apply published_nil.
  - vm_compute. reflexivity.
  - reflexivity.
Defined.

(** ** The size of a replay *)

(** X13. [_send_recent_history] on an open socket returns; it sends one
    history frame with the last [count] records of the room's deque
    when [count] is positive (at most [count] of them), with the whole
    deque when [count] is 0, with the deque less its first [-count]
    records when [count] is negative, and it sends no frame at all when
    that list is empty. *)
Theorem replay_size (cfg : Config) (w : World) (ws : conn) (room : pystr)
    (count : Z) :
  is_open w ws →
  ∃ w' recent,
    _send_recent_history cfg ws room count w = (Return (), w')
    ∧ (recent = [] → outbox w' ws = outbox w ws)
    ∧ (recent ≠ [] → outbox w' ws = outbox w ws ++ [HistoryFrame room recent])
    ∧ ((0 < count)%Z →
         recent = lastn (Z.to_nat count) (history w' room)
         ∧ (length recent ≤ Z.to_nat count)%nat)
    ∧ (count = 0%Z → recent = history w' room)
    ∧ ((count < 0)%Z → recent = drop (Z.to_nat (- count)) (history w' room)).
Proof.
  intros Hopen.
  destruct (send_recent_history_run cfg w ws room count Hopen)
    as (w' & Hrun & Hh & Hout & _).
  assert (Hhist : history w' room = seeded_history cfg w room).
  { unfold history at 1. rewrite Hh. by rewrite lookup_insert_eq. }
  exists w', (slice_from (- count) (seeded_history cfg w room)).
  split; [done|]. rewrite Hout, Hhist.
  split. { intros ->. simpl. by rewrite app_nil_r. }
  split. { by destruct (slice_from _ _). }
  split. { intros Hpos. rewrite slice_from_neg by done. split; [done|].
    rewrite lastn_length. lia. }
  split. { intros ->. done. }
  intros Hneg. unfold slice_from.
  destruct (Z.ltb_spec (- count) 0); [lia|done].
Qed.

Lemma replay_size_witness :
  let cfg := default_config in
  let w :=
    run cfg empty_world
      [Login 1%nat (login_data "alice");
       Publish 1%nat (publish_data "general" (py "hi")) (py "T1")] in
  ∃ w' recent,
    _send_recent_history cfg 2%nat (py "general") 0 w = (Return (), w')
    ∧ (recent = [] → outbox w' 2%nat = outbox w 2%nat)
    ∧ (recent ≠ [] →
       outbox w' 2%nat = outbox w 2%nat ++ [HistoryFrame (py "general") recent])
    ∧ ((0 < 0)%Z →
         recent = lastn (Z.to_nat 0) (history w' (py "general"))
         ∧ (length recent ≤ Z.to_nat 0)%nat)
    ∧ (0%Z = 0%Z → recent = history w' (py "general"))
    ∧ ((0 < 0)%Z → recent = drop (Z.to_nat (- 0)) (history w' (py "general"))).
Proof.
  intros cfg w.
  apply (replay_size cfg w 2%nat (py "general") 0).
  reflexivity.
Defined.

(** ** Subscribing twice *)

Lemma handle_subscribe_sets (cfg : Config) (w : World) (ws : conn)
    (data : gmap pystr jval) (room : pystr) :
  dict_get data (py "room") = JStr room → room ≠ [] →
  is_open w ws →
  ∃ w',
    _handle_subscribe cfg ws data w = (Return (), w')
    ∧ room_to_subscribers w'
      = <[room := subscribers w room ∪ {[ws]}]> (room_to_subscribers w)
    ∧ ws_to_rooms w' = <[ws := rooms_of w ws ∪ {[room]}]> (ws_to_rooms w)
    ∧ username_to_ws w' = username_to_ws w
    ∧ ws_to_username w' = ws_to_username w
    ∧ closed w' = closed w
    ∧ files w' = files w.
Proof.
  intros Hdata Hroom Hopen.
  set (w1 := set_room_to_subscribers <[room := subscribers w room ∪ {[ws]}]> w).
  set (w2 := set_ws_to_rooms <[ws := default ∅ (ws_to_rooms w1 !! ws) ∪ {[room]}]> w1).
  set (w3 := set_sent
    <[ws := outbox w2 ws ++ [OkFrame (py "subscribed") [(py "room", room)]]]> w2).
  destruct (send_recent_history_run cfg w3 ws room (HISTORY_ON_SUBSCRIBE cfg))
    as (w' & Hrun & _ & _ & _ & Hclosed & Hfiles & Hu & Hname & Hsubs & Hrooms);
    [done|].
  exists w'. split.
  { unfold _handle_subscribe. rewrite Hdata.
    destruct room as [|c room]; [done|]. simpl.
    unfold bind at 1, modify. fold w1.
    unfold bind at 1. fold w2.
    unfold bind, _send_ok. rewrite ws_send_open by done. exact Hrun. }
  by rewrite Hsubs, Hrooms, Hu, Hname, Hclosed, Hfiles.
Qed.

(** X14. Subscribing is idempotent on the subscriptions: when the
    socket is already a subscriber of the room, a second subscribe
    leaves both subscription dictionaries as they were (and answers
    with [subscribed] again). *)
Theorem subscribe_twice (cfg : Config) (w : World) (ws : conn)
    (data : gmap pystr jval) (room : pystr) :
  dict_get data (py "room") = JStr room → room ≠ [] →
  is_open w ws →
  ws ∈ subscribers w room → room ∈ rooms_of w ws →
  ∃ w',
    _handle_subscribe cfg ws data w = (Return (), w')
    ∧ room_to_subscribers w' = room_to_subscribers w
    ∧ ws_to_rooms w' = ws_to_rooms w
    ∧ ∃ replay,
        outbox w' ws
        = outbox w ws ++ OkFrame (py "subscribed") [(py "room", room)] :: replay.
Proof.
  intros Hdata Hroom Hopen Hsub Hrooms.
  destruct (handle_subscribe_sets cfg w ws data room Hdata Hroom Hopen)
    as (w' & Hrun & Hs & Hr & _).
  destruct (handle_subscribe_run cfg w ws data room Hdata Hroom Hopen)
    as (w'' & Hrun' & _ & _ & _ & _ & Hout).
  rewrite Hrun in Hrun'. simplify_eq.
  exists w''. split; [done|]. split; [|split; [|eauto]].
  - rewrite Hs. apply insert_id.
    unfold subscribers in *.
    destruct (room_to_subscribers w !! room) as [subs|]; simpl in *.
    + f_equal. set_solver.
    + set_solver.
  - rewrite Hr. apply insert_id.
    unfold rooms_of in *.
    destruct (ws_to_rooms w !! ws) as [rooms|]; simpl in *.
    + f_equal. set_solver.
    + set_solver.
Qed.

Lemma subscribe_twice_witness :
  let cfg := default_config in
  let w := run cfg empty_world [Subscribe 1%nat (subscribe_data "general")] in
  ∃ w',
    _handle_subscribe cfg 1%nat (subscribe_data "general") w = (Return (), w')
    ∧ room_to_subscribers w' = room_to_subscribers w
    ∧ ws_to_rooms w' = ws_to_rooms w
    ∧ ∃ replay,
        outbox w' 1%nat
        = outbox w 1%nat
          ++ OkFrame (py "subscribed") [(py "room", py "general")] :: replay.
Proof.
  intros cfg w.
  apply (subscribe_twice cfg w 1%nat (subscribe_data "general") (py "general")).
  - reflexivity.
  - discriminate.
  - reflexivity.
  - vm_compute. reflexivity.
  - vm_compute. reflexivity.
Defined.

(** ** The name of a log file *)

(** X15. The log file name of any room is a non-empty base followed by
    [.txt]; every ASCII character of the base is a letter, a digit, [-]
    or [_], so the base holds no [/], no [\], no [.] and no NUL: the
    name cannot leave the log directory. *)
Theorem room_log_path_safe (cfg : Config) (room : pystr) :
  ∃ base,
    _room_log_path cfg room = base ++ py ".txt"
    ∧ base ≠ []
    ∧ (∀ c, c ∈ base → c < 128 →
         48 ≤ c ≤ 57 ∨ 65 ≤ c ≤ 90 ∨ 97 ≤ c ≤ 122 ∨ c = 45 ∨ c = 95)
    ∧ (47 ∉ base) ∧ (92 ∉ base) ∧ (46 ∉ base) ∧ (0 ∉ base).
Proof.
  set (safe := λ c, isalnum cfg c || (c =? 45) || (c =? 95)).
  assert (Hsafe : ∀ c, safe c = true → c < 128 →
    48 ≤ c ≤ 57 ∨ 65 ≤ c ≤ 90 ∨ 97 ≤ c ≤ 122 ∨ c = 45 ∨ c = 95).
  { intros c Hc Hascii. unfold safe, isalnum in Hc.
    replace (c <? 128) with true in Hc by (symmetry; by apply N.ltb_lt).
    repeat (apply orb_true_iff in Hc as [Hc|Hc]);
      try (apply andb_true_iff in Hc as [?%N.leb_le ?%N.leb_le]);
      try (apply N.eqb_eq in Hc); lia. }
  assert (Hbase : ∃ base, _room_log_path cfg room = base ++ py ".txt"
    ∧ base ≠ [] ∧ ∀ c, c ∈ base → safe c = true).
  { unfold _room_log_path. fold safe.
    destruct (List.filter safe room) as [|c0 base] eqn:Hfilter.
    - exists (py "room"). split; [done|]. split; [done|].
      intros c Hc. vm_compute in Hc.
      repeat (apply elem_of_cons in Hc as [->|Hc]; [by vm_compute|]).
      by apply elem_of_nil in Hc.
    - exists (c0 :: base). split; [done|]. split; [done|].
      intros c Hc. rewrite <- Hfilter in Hc.
      apply list_elem_of_In, List.filter_In in Hc. by destruct Hc. }
  destruct Hbase as (base & Hpath & Hne & Hall).
  exists base. split; [done|]. split; [done|].
  split. { intros c Hc. apply Hsafe. by apply Hall. }
  repeat split; intros Hc; apply Hall, Hsafe in Hc; lia.
Qed.

(** ** What the tail read returns *)

Lemma tail_lines_length (file : pybytes) (count : nat) :
  (length (tail_lines file count) ≤ count)%nat.
Proof.
  destruct (tail_lines_found file count) as (p & -> & _).
  rewrite length_take. lia.
Qed.

(** X16. [_read_last_lines_from_log] returns at most [count] records,
    all labelled with the room asked for, and none when the room has no
    log file. *)
Theorem read_last_lines_bounded (cfg : Config) (w : World) (room : pystr)
    (count : nat) :
  (length (_read_last_lines_from_log cfg w room count) ≤ count)%nat
  ∧ Forall (λ m, msg_room m = room) (_read_last_lines_from_log cfg w room count)
  ∧ (files w !! _room_log_path cfg room = None →
     _read_last_lines_from_log cfg w room count = []).
Proof.
  unfold _read_last_lines_from_log. split; [|split].
  - destruct (files w !! _room_log_path cfg room) as [content|]; simpl; [|lia].
    unfold parse_lines.
    etrans; [apply length_omap_le|apply tail_lines_length].
  - apply read_last_lines_room.
  - by intros ->.
Qed.

Lemma partition_at_some (sep : N) (s pre post : pystr) :
  partition_at sep s = Some (pre, post) ↔ s = pre ++ sep :: post ∧ sep ∉ pre.
Proof.
  split.
  - revert pre. induction s as [|c s IH]; intros pre; simpl; [done|].
    destruct (N.eqb_spec c sep) as [->|Hne].
    + intros [= <- <-]. split; [done|]. apply not_elem_of_nil.
    + destruct (partition_at sep s) as [[pre' post']|]; [|done].
      intros [= <- <-]. destruct (IH pre' eq_refl) as [-> Hnot].
      split; [done|]. apply not_elem_of_cons. by split; [congruence|].
  - intros [-> Hnot]. by apply partition_at_first.
Qed.

Lemma partition_at_none (sep : N) (s : pystr) :
  partition_at sep s = None ↔ sep ∉ s.
Proof.
  induction s as [|c s IH]; simpl.
  - split; [intros _; apply not_elem_of_nil|done].
  - destruct (N.eqb_spec c sep) as [->|Hne].
    + split; [done|]. intros Hnot. destruct Hnot. by left.
    + rewrite not_elem_of_cons.
      destruct (partition_at sep s) as [[pre post]|].
      * split; [done|]. intros [_ Hnot]. by apply IH in Hnot.
      * split; [|done]. intros _. split; [congruence|]. by apply IH.
Qed.

(** X17. The parser makes a record of a line exactly when the line,
    less its trailing newlines, holds two delimiters: the timestamp is
    the text before the first, the username the text between the first
    and the second, the message everything after the second.  A line
    with fewer delimiters, or an empty one, is skipped. *)
Theorem parse_line_two_fields (room line : pystr) (m : Message) :
  parse_line room line = Some m
  ↔ ∃ ts username msg,
      rstrip NL line = ts ++ BAR :: username ++ BAR :: msg
      ∧ (BAR ∉ ts) ∧ (BAR ∉ username)
      ∧ m = mkMessage room username msg ts.
Proof.
  unfold parse_line. split.
  - destruct (rstrip NL line) as [|c l] eqn:Hline; [done|].
    cbn [split].
    destruct (partition_at BAR (c :: l)) as [[ts rest]|] eqn:H1; [|done].
    destruct (partition_at BAR rest) as [[username msg]|] eqn:H2; [|done].
    intros [= <-].
    apply partition_at_some in H1 as [H1 Hts].
    apply partition_at_some in H2 as [-> Hu].
    exists ts, username, msg. by rewrite H1.
  - intros (ts & username & msg & -> & Hts & Hu & ->).
    destruct (ts ++ BAR :: username ++ BAR :: msg) as [|c l] eqn:Hline.
    { by destruct ts. }
    rewrite <- Hline. cbn [split].
    rewrite partition_at_first by done.
    by rewrite partition_at_first.
Qed.

(** ** Appending to a log and reading it back *)

Lemma append_all (cfg : Config) (room : pystr) (records : list Message)
    (w : World) :
  _room_log_path cfg room ∉ unwritable w →
  Forall (λ r, is_Some (utf8_encode (log_line r))) records →
  ∃ bytes w',
    utf8_encode (concat (log_line <$> records)) = Some bytes
    ∧ for_each records (λ r, _append_to_room_log cfg room r) w = (Return (), w')
    ∧ files w' !! _room_log_path cfg room
      = match records with
        | [] => files w !! _room_log_path cfg room
        | _ => Some (default [] (files w !! _room_log_path cfg room) ++ bytes)
        end.
Proof.
  intros Hpath Hall. revert w Hpath.
  induction Hall as [|r records [line Hline] _ IH]; intros w Hpath.
  { exists [], w. done. }
  set (path := _room_log_path cfg room) in *.
  set (w1 := set_files <[path := default [] (files w !! path) ++ line]> w).
  destruct (IH w1) as (bytes & w' & Hbytes & Hrun & Hfile); [done|].
  exists (line ++ bytes), w'. split; [|split].
  - rewrite fmap_cons. cbn [concat]. by rewrite utf8_encode_app, Hline, Hbytes.
  - cbn [for_each]. unfold bind. unfold _append_to_room_log at 1. fold path.
    rewrite bool_decide_eq_false_2 by done. rewrite Hline. fold w1. exact Hrun.
  - rewrite Hfile. unfold w1. cbn [files set_files].
    rewrite lookup_insert_eq. cbn [default].
    destruct records; [|by rewrite app_assoc].
    simpl in Hbytes. injection Hbytes as <-. by rewrite app_nil_r.
Qed.

(** X18. Round trip of the log: records appended one after the other to
    a room's log that did not exist are returned by the tail read in
    the same order and with the same username, message and timestamp,
    provided no field holds a newline, no timestamp or username holds
    the delimiter, every line can be encoded, and there are no more
    records than the count asked for. *)
Theorem append_read_round_trip (cfg : Config) (w : World) (room : pystr)
    (records : list Message) (count : nat) :
  files w !! _room_log_path cfg room = None →
  _room_log_path cfg room ∉ unwritable w →
  Forall (λ r, (NL ∉ msg_ts r ++ msg_username r ++ msg_message r)
               ∧ (BAR ∉ msg_ts r) ∧ (BAR ∉ msg_username r)) records →
  Forall (λ r, is_Some (utf8_encode (log_line r))) records →
  (length records ≤ count)%nat →
  ∃ w',
    for_each records (λ r, _append_to_room_log cfg room r) w = (Return (), w')
    ∧ _read_last_lines_from_log cfg w' room count
      = (λ r, mkMessage room (msg_username r) (msg_message r) (msg_ts r))
          <$> records.
Proof.
  intros Hfile Hpath Hclean Henc Hfits.
  destruct (append_all cfg room records w Hpath Henc)
    as (bytes & w' & Hbytes & Hrun & Hfile').
  exists w'. split; [done|].
  unfold _read_last_lines_from_log. rewrite Hfile'.
  destruct records as [|r records]; [by rewrite Hfile|].
  rewrite Hfile. cbn [default app].
  by apply read_back_clean_log.
Qed.

Lemma append_read_round_trip_witness :
  let cfg := default_config in
  let room := py "general" in
  let records :=
    [mkMessage room (py "alice") (py "a|b") (py "T1");
     mkMessage room (py "bob") (py "hi") (py "T2")] in
  ∃ w',
    for_each records (λ r, _append_to_room_log cfg room r) empty_world
    = (Return (), w')
    ∧ _read_last_lines_from_log cfg w' room 5
      = (λ r, mkMessage room (msg_username r) (msg_message r) (msg_ts r))
          <$> records.
Proof.
  intros cfg room records.
  apply (append_read_round_trip cfg empty_world room records 5).
  - reflexivity.
  - vm_compute. discriminate.
  - repeat (apply Forall_cons; split;
      [split; [|split]; vm_compute; intros H;
       repeat (apply elem_of_cons in H as [H|H]; [discriminate|]);
       by apply elem_of_nil in H|]).
    apply Forall_nil_2.
  - repeat (apply Forall_cons; split; [vm_compute; eauto|]). apply Forall_nil_2.
  - simpl. lia.
Defined.

(** X19. Rooms whose names give the same log file share their log: a
    record published to one of them, on a log that did not exist, is
    what the tail read returns for the other one, labelled with the
    other room, and it is what the deque of the other room is seeded
    with when that deque is empty. *)
Theorem colliding_rooms_share_log (cfg : Config) (w : World) (ws : conn)
    (data : gmap pystr jval) (now room other message username : pystr)
    (line : pybytes) (count : nat) :
  _room_log_path cfg room = _room_log_path cfg other → room ≠ other →
  dict_get data (py "room") = JStr room → room ≠ [] →
  dict_get data (py "message") = JStr message → message ≠ [] →
  ws_to_username w !! ws = Some username → username ≠ [] →
  files w !! _room_log_path cfg room = None →
  _room_log_path cfg room ∉ unwritable w →
  utf8_encode (log_line (mkMessage room username message now)) = Some line →
  NL ∉ now ++ username ++ message → BAR ∉ now → BAR ∉ username →
  history w other = [] →
  (0 < count)%nat → (0 < HISTORY_SIZE cfg)%nat →
  ∃ w',
    _handle_publish cfg ws data now w = (Return (), w')
    ∧ _read_last_lines_from_log cfg w' other count
      = [mkMessage other username message now]
    ∧ seeded_history cfg w' other = [mkMessage other username message now].
Proof.
  intros Hsame Hother Hroom Hr Hmsg Hm Huser Hu Hfile Hpath Hline Hnl Hts Hun
    Hempty Hcount Hsize.
  eexists. split; [by eapply handle_publish_success|].
  set (record := mkMessage room username message now).
  set (w2 := set_files _ _).
  destruct (deliver_frame (MessageFrame record) (elements (subscribers w room)) w2)
    as (_ & Hfiles & Hhist & _).
  assert (Hread : ∀ n, (0 < n)%nat →
    _read_last_lines_from_log cfg
      (foldl (safe_send_world (MessageFrame record)) w2
         (elements (subscribers w room))) other n
    = [mkMessage other username message now]).
  { intros n Hn. unfold _read_last_lines_from_log.
    rewrite Hfiles, <- Hsame. unfold w2. cbn [files set_files set_room_to_history].
    rewrite lookup_insert_eq, Hfile. cbn [default app].
    rewrite (read_back_clean_log other [record] line n); [done| |..].
    - by apply Forall_singleton.
    - simpl. by rewrite app_nil_r.
    - simpl. lia. }
  split; [by apply Hread|].
  unfold seeded_history, history. rewrite Hhist.
  unfold w2. cbn [room_to_history set_files set_room_to_history].
  rewrite lookup_insert_ne by done.
  fold (history w other). rewrite Hempty.
  rewrite Hread by done. simpl. unfold deque_append, lastn. simpl.
  destruct (HISTORY_SIZE cfg); [lia|]. done.
Qed.

Lemma colliding_rooms_share_log_witness :
  let cfg := default_config in
  let w := run cfg empty_world [Login 1%nat (login_data "alice")] in
  ∃ w',
    _handle_publish cfg 1%nat (publish_data "team/a" (py "hi")) (py "T1") w
    = (Return (), w')
    ∧ _read_last_lines_from_log cfg w' (py "teama") 5
      = [mkMessage (py "teama") (py "alice") (py "hi") (py "T1")]
    ∧ seeded_history cfg w' (py "teama")
      = [mkMessage (py "teama") (py "alice") (py "hi") (py "T1")].
Proof.
  intros cfg w.
  apply (colliding_rooms_share_log cfg w 1%nat (publish_data "team/a" (py "hi"))
           (py "T1") (py "team/a") (py "teama") (py "hi") (py "alice")
           (py "T1|alice|hi" ++ [NL]) 5).
  - vm_compute. reflexivity.
  - discriminate.
  - reflexivity.
  - discriminate.
  - reflexivity.
  - discriminate.
  - vm_compute. reflexivity.
  - discriminate.
  - vm_compute. reflexivity.
  - vm_compute. discriminate.
  - vm_compute. reflexivity.
  - vm_compute. intros H.
    repeat (apply elem_of_cons in H as [H|H]; [discriminate|]).
    by apply elem_of_nil in H.
  - vm_compute. intros H.
    repeat (apply elem_of_cons in H as [H|H]; [discriminate|]).
    by apply elem_of_nil in H.
  - vm_compute. intros H.
    repeat (apply elem_of_cons in H as [H|H]; [discriminate|]).
    by apply elem_of_nil in H.
  - reflexivity.
  - lia.
  - simpl. lia.
Defined.

(** ** A newline inside a message *)

Lemma kept_pieces_of_lines (lines : list pystr) (file : pybytes) :
  Forall (λ l, (NL ∉ l) ∧ l ≠ []) lines →
  utf8_encode (concat ((λ l, l ++ [NL]) <$> lines)) = Some file →
  kept (pieces file) = lines.
Proof.
  intros Hclean. revert file.
  induction Hclean as [|l lines [Hnl Hne] _ IH]; intros file.
  - by intros [= <-].
  - rewrite fmap_cons. cbn [concat].
    rewrite <- app_assoc, !utf8_encode_app.
    destruct (utf8_encode l) as [el|] eqn:Hel; [|intros ?; discriminate].
    change (utf8_encode [NL]) with (Some [NL]).
    destruct (utf8_encode (concat _)) as [rest|] eqn:Hrest; [|by intros [=]].
    cbn [app]. intros [= <-].
    destruct (utf8_encode_bytes l el Hel) as [Hne' Hnl'].
    rewrite pieces_app_newline, pieces_no_newline by auto.
    cbn [app]. rewrite kept_cons by auto.
    rewrite (IH rest eq_refl). f_equal. by apply utf8_decode_encode.
Qed.

(** X20. A newline in a message breaks its record in the log: read back
    with room for two lines, the record carries only the text before
    the newline, and the text after it is parsed as a line of its own -
    so a text of the form [ts|username|message] after the newline comes
    back as a record under that timestamp and username. *)
Theorem newline_in_message_splits_record (room ts username m1 rest : pystr)
    (file : pybytes) (count : nat) :
  NL ∉ ts ++ username ++ m1 → BAR ∉ ts → BAR ∉ username →
  NL ∉ rest → rest ≠ [] →
  utf8_encode (log_line (mkMessage room username (m1 ++ NL :: rest) ts))
  = Some file →
  (2 ≤ count)%nat →
  read_last_lines_of room (Some file) count
  = mkMessage room username m1 ts
    :: match parse_line room rest with Some m => [m] | None => [] end
  ∧ (∀ ts' username' m',
       rest = ts' ++ BAR :: username' ++ BAR :: m' →
       BAR ∉ ts' → BAR ∉ username' →
       read_last_lines_of room (Some file) count
       = [mkMessage room username m1 ts; mkMessage room username' m' ts']).
Proof.
  intros Hnl Hts Hu Hrest Hne Hfile Hcount.
  set (first := ts ++ [BAR] ++ username ++ [BAR] ++ m1).
  assert (Hbar : NL ≠ BAR) by done.
  assert (Hfirst : NL ∉ first) by (unfold first; set_solver).
  assert (Hline : log_line (mkMessage room username (m1 ++ NL :: rest) ts)
                  = concat ((λ l, l ++ [NL]) <$> [first; rest])).
  { unfold log_line, first. simpl.
    repeat (rewrite <- app_assoc; simpl). done. }
  rewrite Hline in Hfile.
  assert (Hkept : kept (pieces file) = [first; rest]).
  { apply kept_pieces_of_lines; [|done].
    repeat (apply Forall_cons; split); try done.
    split; [done|]. unfold first. by destruct ts. }
  assert (Hread : read_last_lines_of room (Some file) count
    = mkMessage room username m1 ts
      :: match parse_line room rest with Some m => [m] | None => [] end).
  { unfold read_last_lines_of, parse_lines.
    rewrite tail_lines_fits by (rewrite Hkept; simpl; lia).
    rewrite Hkept. cbn [omap list_omap].
    rewrite <- (parse_line_newline room first).
    unfold first. rewrite <- !app_assoc.
    rewrite parse_line_two_delimiters by (done || set_solver).
    by destruct (parse_line room rest). }
  split; [done|].
  intros ts' username' m' -> Hts' Hu'. rewrite Hread.
  rewrite <- (parse_line_newline room).
  change (ts' ++ BAR :: username' ++ BAR :: m')
    with (ts' ++ [BAR] ++ username' ++ [BAR] ++ m').
  rewrite <- !app_assoc.
  rewrite parse_line_two_delimiters; [done..|].
  set_solver.
Qed.

Lemma newline_in_message_splits_record_witness :
  let room := py "general" in
  let file :=
    py "T1|mallory|hi" ++ [NL] ++ py "T0|admin|server going down" ++ [NL] in
  read_last_lines_of room (Some file) 5
  = mkMessage room (py "mallory") (py "hi") (py "T1")
    :: match parse_line room (py "T0|admin|server going down") with
       | Some m => [m]
       | None => []
       end
  ∧ (∀ ts' username' m',
       py "T0|admin|server going down" = ts' ++ BAR :: username' ++ BAR :: m' →
       BAR ∉ ts' → BAR ∉ username' →
       read_last_lines_of room (Some file) 5
       = [mkMessage room (py "mallory") (py "hi") (py "T1");
          mkMessage room username' m' ts']).
Proof.
  intros room file.
  apply (newline_in_message_splits_record room (py "T1") (py "mallory") (py "hi")
           (py "T0|admin|server going down") file 5).
  - vm_compute. intros H.
    repeat (apply elem_of_cons in H as [H|H]; [discriminate|]).
    by apply elem_of_nil in H.
  - vm_compute. intros H.
    repeat (apply elem_of_cons in H as [H|H]; [discriminate|]).
    by apply elem_of_nil in H.
  - vm_compute. intros H.
    repeat (apply elem_of_cons in H as [H|H]; [discriminate|]).
    by apply elem_of_nil in H.
  - vm_compute. intros H.
    repeat (apply elem_of_cons in H as [H|H]; [discriminate|]).
    by apply elem_of_nil in H.
  - discriminate.
  - vm_compute. reflexivity.
  - lia.
Defined.

(** ** Hypotheses of the results on the tail read *)

Lemma tail_read_agrees_when_it_fits_witness :
  let room := py "general" in
  read_last_lines_of room (Some (numbered_log room 3)) 5
  = read_forward_of room (Some (numbered_log room 3)) 5.
Proof.
  intros room.
  apply (tail_read_agrees_when_it_fits room (numbered_log room 3) 5).
  - vm_compute. repeat (apply Forall_cons; split; [discriminate|]).
    apply Forall_nil_2.
  - vm_compute. lia.
Defined.

Lemma tail_read_one_chunk_witness :
  let file := numbered_log (py "general") 3 in
  tail_lines file 2 = take 2 (utf8_decode_ignore <$> splitlines file)
  ∧ forward_last_lines file 2
    = lastn 2 (utf8_decode_ignore <$> splitlines file).
Proof.
  intros file.
  apply (tail_read_one_chunk file 2).
  - vm_compute. repeat (apply Forall_cons; split; [discriminate|]).
    apply Forall_nil_2.
  - vm_compute. lia.
  - lia.
Defined.

Lemma reseed_when_log_fits_witness :
  let cfg := default_config in
  let room := py "general" in
  let records := numbered_record room <$> seq 1 3 in
  let w := started_on {[ py "general.txt" := numbered_log room 3 ]} in
  ∃ w',
    _send_recent_history cfg 1%nat room 5 w = (Return (), w')
    ∧ history w' room = omap (λ r, parse_line room (log_line r)) records
    ∧ outbox w' 1%nat
      = outbox w 1%nat
        ++ replay_frames room (slice_from (- 5) (history w' room)).
Proof.
  intros cfg room records w.
  apply (reseed_when_log_fits cfg w 1%nat room records (numbered_log room 3) 5).
  - reflexivity.
  - reflexivity.
  - vm_compute. reflexivity.
  - repeat (apply Forall_cons; split;
      [vm_compute; intros H;
       repeat (apply elem_of_cons in H as [H|H]; [discriminate|]);
       by apply elem_of_nil in H|]).
    apply Forall_nil_2.
  - vm_compute. reflexivity.
  - vm_compute. lia.
Defined.

(** X24. In every run of the server the name recorded for a socket is
    bound to that socket, so no two sockets are ever recorded under the
    same name. *)
Theorem run_identity_binding (cfg : Config) (es : list event) :
  names_consistent (run cfg empty_world es)
  ∧ ∀ ws1 ws2 u,
      ws_to_username (run cfg empty_world es) !! ws1 = Some u →
      ws_to_username (run cfg empty_world es) !! ws2 = Some u →
      ws1 = ws2.
Proof.
  assert (Hinv : names_consistent (run cfg empty_world es)).
  { apply run_names_consistent. intros ws u. simpl. by rewrite lookup_empty. }
  split; [done|]. intros ws1 ws2 u H1 H2.
  apply Hinv in H1. apply Hinv in H2. congruence.
Qed.

(** ** The receive loop *)

Lemma handler_loop_lost (cfg : Config) (fstr : jval → pystr) (ws : conn)
    (frames : list (option (gmap pystr jval) * pystr)) (w : World) :
  ∃ e w', handler_loop cfg fstr ws frames true w = (Raise e, w').
Proof.
  revert w. induction frames as [|[message now] rest IH]; intros w; simpl.
  - by eexists _, _.
  - unfold bind.
    destruct (handler_turn cfg fstr ws message now w) as [[[]|e] w1].
    + apply IH.
    + by eexists _, _.
Qed.

(** X25. When the connection of a socket is lost, [handler] either
    returns after the cleanup of the socket, which then has no name and
    no rooms recorded, or ends with an exception that is not
    [ConnectionClosed], raised by a turn of the loop, and then no
    cleanup has run: the world is the one the loop left. *)
Theorem handler_lost_connection (cfg : Config) (fstr : jval → pystr)
    (ws : conn) (frames : list (option (gmap pystr jval) * pystr))
    (w : World) :
  (∃ w1,
     handler_loop cfg fstr ws frames true w = (Raise ConnectionClosed, w1)
     ∧ handler cfg fstr ws frames true w = (Return (), cleanup_world ws w1)
     ∧ ws_to_username (cleanup_world ws w1) !! ws = None
     ∧ ws_to_rooms (cleanup_world ws w1) !! ws = None)
  ∨ (∃ e w1,
       e ≠ ConnectionClosed
       ∧ handler_loop cfg fstr ws frames true w = (Raise e, w1)
       ∧ handler cfg fstr ws frames true w = (Raise e, w1)).
Proof.
  destruct (handler_loop_lost cfg fstr ws frames w) as (e & w1 & Hloop).
  unfold handler, try_except. rewrite Hloop.
  destruct (decide (e = ConnectionClosed)) as [->|Hne].
  - left. exists w1. split; [done|]. split; [done|].
    rewrite cleanup_ws_to_username, cleanup_ws_to_rooms.
    by rewrite !lookup_delete_eq.
  - right. by exists e, w1.
Qed.



(** ** The client's command line *)

Lemma rstrip_space_snoc (l : list N) (c : N) :
  isspace c = false → rstrip_space (l ++ [c]) = l ++ [c].
Proof.
  intros Hc. induction l as [|a l IH]; simpl.
  - by rewrite Hc.
  - rewrite IH. by destruct l.
Qed.

Lemma rstrip_space_last (s : list N) :
  rstrip_space s = []
  ∨ ∃ l c, rstrip_space s = l ++ [c] ∧ isspace c = false.
Proof.
  induction s as [|x s IH]; simpl; [by left|].
  destruct IH as [->|(l & c & -> & Hc)].
  - destruct (isspace x) eqn:E; [by left|]. right. by exists [], x.
  - right. exists (x :: l), c. split; [by destruct l|done].
Qed.

Lemma lstrip_snoc (l : list N) (c : N) :
  isspace c = false → ∃ l', lstrip (l ++ [c]) = l' ++ [c].
Proof.
  intros Hc. induction l as [|a l IH]; simpl.
  - rewrite Hc. by exists [].
  - destruct (isspace a); [done|]. by exists (a :: l).
Qed.

Lemma strip_snoc (l : list N) (c : N) :
  isspace c = false → strip (l ++ [c]) ≠ [].
Proof.
  intros Hc. unfold strip. destruct (lstrip_snoc l c Hc) as [l' ->].
  rewrite rstrip_space_snoc by done. by destruct l'.
Qed.

Lemma startswith_app (prefix s : list N) :
  startswith prefix s = true → s = prefix ++ drop (length prefix) s.
Proof.
  revert s. induction prefix as [|p prefix IH]; intros [|c s]; simpl;
    try done.
  intros [Hc Hs]%andb_true_iff. apply N.eqb_eq in Hc as ->.
  f_equal. by apply IH.
Qed.

Lemma subscribe_envelope_fields (room : list N) :
  dict_get (subscribe_envelope room) (py "action") = JStr (py "subscribe")
  ∧ dict_get (subscribe_envelope room) (py "room") = JStr room.
Proof.
  unfold dict_get, subscribe_envelope. split.
  - rewrite lookup_insert_ne by (by vm_compute). by rewrite lookup_singleton_eq.
  - by rewrite lookup_insert_eq.
Qed.

Lemma publish_envelope_fields (room message : list N) :
  dict_get (publish_envelope room message) (py "action") = JStr (py "publish")
  ∧ dict_get (publish_envelope room message) (py "room") = JStr room
  ∧ dict_get (publish_envelope room message) (py "message") = JStr message.
Proof.
  unfold dict_get, publish_envelope. split; [|split].
  - rewrite !lookup_insert_ne by (by vm_compute). by rewrite lookup_singleton_eq.
  - rewrite lookup_insert_ne by (by vm_compute). by rewrite lookup_insert_eq.
  - by rewrite lookup_insert_eq.
Qed.

Lemma login_envelope_fields (username : list N) :
  dict_get (login_envelope username) (py "action") = JStr (py "login")
  ∧ dict_get (login_envelope username) (py "username") = JStr username.
Proof.
  unfold dict_get, login_envelope. split.
  - rewrite lookup_insert_ne by (by vm_compute). by rewrite lookup_singleton_eq.
  - by rewrite lookup_insert_eq.
Qed.

Lemma handler_turn_subscribe (cfg : Config) (fstr : jval → list N)
    (ws : nat) (room now : list N) :
  handler_turn cfg fstr ws (Some (subscribe_envelope room)) now
  = _handle_subscribe cfg ws (subscribe_envelope room).
Proof.
  unfold handler_turn.
  by rewrite (proj1 (subscribe_envelope_fields room)).
Qed.

Lemma handler_turn_publish (cfg : Config) (fstr : jval → list N)
    (ws : nat) (room message now : list N) :
  handler_turn cfg fstr ws (Some (publish_envelope room message)) now
  = _handle_publish cfg ws (publish_envelope room message) now.
Proof.
  unfold handler_turn.
  by rewrite (proj1 (publish_envelope_fields room message)).
Qed.

Lemma handler_turn_login (cfg : Config) (fstr : jval → list N)
    (ws : nat) (username now : list N) :
  handler_turn cfg fstr ws (Some (login_envelope username)) now
  = _handle_login ws (login_envelope username).
Proof.
  unfold handler_turn.
  by rewrite (proj1 (login_envelope_fields username)).
Qed.

(** The room named by a join command is never empty. *)
Lemma join_room (line : list N) :
  startswith (py "/join ") (strip line) = true →
  split SPACE 1 (strip line) = [py "/join"; drop 6 (strip line)]
  ∧ strip (drop 6 (strip line)) ≠ [].
Proof.
  intros Hjoin. apply startswith_app in Hjoin.
  change (length (py "/join ")) with 6%nat in Hjoin.
  set (rest := drop 6 (strip line)) in *. split.
  - rewrite Hjoin. reflexivity.
  - unfold strip at 1 in Hjoin.
    destruct (rstrip_space_last (lstrip line)) as [Hnil|(l & c & Hl & Hc)].
    + by rewrite Hnil in Hjoin.
    + rewrite Hl in Hjoin.
      destruct rest as [|r rest'] using rev_ind.
      * change (py "/join " ++ []) with (py "/join" ++ [32]) in Hjoin.
        apply app_inj_tail in Hjoin as [_ ->]. done.
      * rewrite app_assoc in Hjoin. apply app_inj_tail in Hjoin as [_ ->].
        by apply strip_snoc.
Qed.

(** X27. A line [/join ROOM] typed at the client always names a room
    that is not empty, whatever the spaces around it; the client sends
    one subscribe envelope for it and makes it the current room, and
    the server, on an open socket, subscribes the socket to that room
    and answers [subscribed]. *)
Theorem join_command_subscribes (cfg : Config) (fstr : jval → pystr)
    (last_room : option pystr) (line now : pystr) (ws : conn) (w : World) :
  startswith (py "/join ") (strip line) = true →
  is_open w ws →
  ∃ room w',
    room = strip (drop 6 (strip line)) ∧ room ≠ []
    ∧ publisher_turn last_room line
      = ([Send (subscribe_envelope room)], Some (Some room))
    ∧ handler_turn cfg fstr ws (Some (subscribe_envelope room)) now w
      = (Return (), w')
    ∧ ws ∈ subscribers w' room
    ∧ ∃ replay,
        outbox w' ws
        = outbox w ws ++ OkFrame (py "subscribed") [(py "room", room)] :: replay.
Proof.
  intros Hjoin Hopen.
  destruct (join_room line Hjoin) as [Hsplit Hroom].
  set (room := strip (drop 6 (strip line))) in *.
  destruct (handle_subscribe_run cfg w ws (subscribe_envelope room) room)
    as (w' & Hrun & Hsub & _ & _ & _ & Hout);
    [apply subscribe_envelope_fields|done|done|].
  exists room, w'. split; [done|]. split; [done|]. split.
  - unfold publisher_turn.
    destruct line as [|c line]; [done|].
    destruct (strip (c :: line)) as [|c' line'] eqn:Hline; [done|].
    assert (Hquit : startswith (py "/quit") (c' :: line') = false).
    { apply startswith_app in Hjoin. rewrite Hjoin. reflexivity. }
    rewrite Hquit, Hjoin, Hsplit. done.
  - rewrite handler_turn_subscribe. split; [done|]. split; [done|].
    by eexists.
Qed.

Lemma join_command_subscribes_witness :
  ∃ room w',
    room = strip (drop 6 (strip (py "  /join   lobby  " ++ [NL])))
    ∧ room ≠ []
    ∧ publisher_turn None (py "  /join   lobby  " ++ [NL])
      = ([Send (subscribe_envelope room)], Some (Some room))
    ∧ handler_turn default_config str_of 1%nat
        (Some (subscribe_envelope room)) (py "t") empty_world
      = (Return (), w')
    ∧ 1%nat ∈ subscribers w' room
    ∧ ∃ replay,
        outbox w' 1%nat
        = outbox empty_world 1%nat
          ++ OkFrame (py "subscribed") [(py "room", room)] :: replay.
Proof.
  apply (join_command_subscribes default_config str_of None
           (py "  /join   lobby  " ++ [NL]) (py "t") 1%nat empty_world).
  - vm_compute. reflexivity.
  - reflexivity.
Defined.

Lemma contains_elem_of (c : N) (s : list N) :
  contains c s = true ↔ c ∈ s.
Proof.
  unfold contains. rewrite existsb_exists. split.
  - intros (x & Hin & ->%N.eqb_eq). by apply list_elem_of_In.
  - intros Hin. exists c. split; [by apply list_elem_of_In|apply N.eqb_refl].
Qed.

(** X28. A line with no colon that is not a command is published, with
    the spaces around it removed, to the current room, which stays the
    current room; sent by a logged-in client whose room log can be
    written, it is stored by the server under the sender's name as the
    newest record of that room. *)
Theorem plain_line_published (cfg : Config) (fstr : jval → pystr)
    (room line now username : pystr) (bytes : pybytes) (ws : conn)
    (w : World) :
  strip line ≠ [] →
  startswith (py "/quit") (strip line) = false →
  startswith (py "/join ") (strip line) = false →
  contains COLON (strip line) = false →
  room ≠ [] →
  ws_to_username w !! ws = Some username → username ≠ [] →
  (_room_log_path cfg room ∉ unwritable w) →
  utf8_encode (log_line (mkMessage room username (strip line) now))
  = Some bytes →
  publisher_turn (Some room) line
  = ([Send (publish_envelope room (strip line))], Some (Some room))
  ∧ ∃ w',
      handler_turn cfg fstr ws
        (Some (publish_envelope room (strip line))) now w
      = (Return (), w')
      ∧ history w' room
        = deque_append (HISTORY_SIZE cfg) (history w room)
            (mkMessage room username (strip line) now)
      ∧ files w' !! _room_log_path cfg room
        = Some (default [] (files w !! _room_log_path cfg room) ++ bytes).
Proof.
  intros Hline Hquit Hjoin Hcolon Hroom Huser Hu Hpath Hbytes. split.
  - unfold publisher_turn.
    destruct line as [|c line]; [done|].
    destruct (strip (c :: line)) as [|c' line'] eqn:Hs; [done|].
    rewrite Hquit, Hjoin, Hcolon. by destruct room.
  - destruct (publish_envelope_fields room (strip line)) as (_ & Hr & Hm).
    eexists. split.
    { rewrite handler_turn_publish. by eapply handle_publish_success. }
    set (record := mkMessage room username (strip line) now).
    set (w2 := set_files _ _).
    destruct (deliver_frame (MessageFrame record)
                (elements (subscribers w room)) w2)
      as (_ & Hfiles & Hhist & _).
    split.
    + unfold history. rewrite Hhist. simpl. by rewrite lookup_insert_eq.
    + rewrite Hfiles. simpl. by rewrite lookup_insert_eq.
Qed.

Lemma plain_line_published_witness :
  let cfg := default_config in
  let w := run cfg empty_world [Login 1%nat (login_data "alice")] in
  let line := py "  hello there " ++ [NL] in
  publisher_turn (Some (py "lobby")) line
  = ([Send (publish_envelope (py "lobby") (strip line))],
     Some (Some (py "lobby")))
  ∧ ∃ w',
      handler_turn cfg str_of 1%nat
        (Some (publish_envelope (py "lobby") (strip line))) (py "T1") w
      = (Return (), w')
      ∧ history w' (py "lobby")
        = deque_append (HISTORY_SIZE cfg) (history w (py "lobby"))
            (mkMessage (py "lobby") (py "alice") (strip line) (py "T1"))
      ∧ files w' !! _room_log_path cfg (py "lobby")
        = Some (default [] (files w !! _room_log_path cfg (py "lobby"))
                ++ py "T1|alice|hello there" ++ [NL]).
Proof.
  intros cfg w line.
  apply (plain_line_published cfg str_of (py "lobby") line (py "T1")
           (py "alice") (py "T1|alice|hello there" ++ [NL]) 1%nat w).
  - vm_compute. discriminate.
  - vm_compute. reflexivity.
  - vm_compute. reflexivity.
  - vm_compute. reflexivity.
  - vm_compute. discriminate.
  - vm_compute. reflexivity.
  - vm_compute. discriminate.
  - vm_compute. discriminate.
  - vm_compute. reflexivity.
Defined.

(** X29. A line that holds a colon and is not a command is cut at its
    first colon: the text before it, stripped, is the room of the
    envelope and becomes the current room, the text after it, stripped,
    is the message.  When nothing but spaces stands before the colon the
    room is the empty string, which the server refuses with
    [invalid_room] and which leaves the client without a current room. *)
Theorem colon_line_names_room (cfg : Config) (fstr : jval → pystr)
    (last_room : option pystr) (line pre post now : pystr) (ws : conn)
    (w : World) :
  strip line = pre ++ COLON :: post → (COLON ∉ pre) →
  startswith (py "/quit") (strip line) = false →
  startswith (py "/join ") (strip line) = false →
  is_open w ws →
  publisher_turn last_room line
  = ([Send (publish_envelope (strip pre) (strip post))],
     Some (Some (strip pre)))
  ∧ (strip pre = [] →
     handler_turn cfg fstr ws
       (Some (publish_envelope (strip pre) (strip post))) now w
     = (Return (),
        set_sent
          <[ws := outbox w ws
              ++ [ErrorFrame (py "invalid_room")
                    (py "'room' must be a non-empty string")]]> w)
     ∧ ∀ next, strip next ≠ [] →
         startswith (py "/quit") (strip next) = false →
         startswith (py "/join ") (strip next) = false →
         contains COLON (strip next) = false →
         publisher_turn (Some (strip pre)) next
         = ([Say (py "No room selected. Use '/join ROOM' or 'ROOM: message'.")],
            Some (Some (strip pre)))).
Proof.
  intros Hline Hpre Hquit Hjoin Hopen. split.
  - unfold publisher_turn.
    destruct line as [|c line]; [by destruct pre|].
    destruct (strip (c :: line)) as [|c' line'] eqn:Hs; [by destruct pre|].
    rewrite Hquit, Hjoin.
    assert (Hin : contains COLON (c' :: line') = true).
    { apply contains_elem_of. rewrite Hline.
      apply elem_of_app. right. by left. }
    rewrite Hin, Hline. unfold split.
    by rewrite partition_at_first.
  - intros Hempty. split.
    + rewrite handler_turn_publish. unfold _handle_publish.
      destruct (publish_envelope_fields (strip pre) (strip post))
        as (_ & -> & _).
      rewrite Hempty. simpl. unfold _send_error. by rewrite ws_send_open.
    + intros next Hnext Hq Hj Hc. unfold publisher_turn.
      destruct next as [|c next]; [done|].
      destruct (strip (c :: next)) as [|c' next'] eqn:Hs; [done|].
      by rewrite Hq, Hj, Hc, Hempty.
Qed.

Lemma colon_line_names_room_witness :
  let line := py " : see you at 10:30" ++ [NL] in
  publisher_turn (Some (py "lobby")) line
  = ([Send (publish_envelope (strip []) (strip (py " see you at 10:30")))],
     Some (Some (strip [])))
  ∧ (strip [] = [] →
     handler_turn default_config str_of 1%nat
       (Some (publish_envelope (strip []) (strip (py " see you at 10:30"))))
       (py "T1") empty_world
     = (Return (),
        set_sent
          <[1%nat := outbox empty_world 1%nat
              ++ [ErrorFrame (py "invalid_room")
                    (py "'room' must be a non-empty string")]]> empty_world)
     ∧ ∀ next, strip next ≠ [] →
         startswith (py "/quit") (strip next) = false →
         startswith (py "/join ") (strip next) = false →
         contains COLON (strip next) = false →
         publisher_turn (Some (strip [])) next
         = ([Say (py "No room selected. Use '/join ROOM' or 'ROOM: message'.")],
            Some (Some (strip [])))).
Proof.
  intros line.
  apply (colon_line_names_room default_config str_of (Some (py "lobby")) line
           [] (py " see you at 10:30") (py "T1") 1%nat empty_world).
  - vm_compute. reflexivity.
  - apply not_elem_of_nil.
  - vm_compute. reflexivity.
  - vm_compute. reflexivity.
  - reflexivity.
Defined.

(** ** The client's opening frames *)

Lemma serve_subscriptions (cfg : Config) (fstr : jval → list N) (ws : nat)
    (now : list N) (rooms : list (list N)) (w : World) :
  is_open w ws → Forall (λ r, r ≠ []) rooms →
  ∃ w',
    handler_loop cfg fstr ws
      ((λ data, (Some data, now)) <$> (subscribe_envelope <$> rooms)) false w
    = (Return (), w')
    ∧ is_open w' ws
    ∧ ws_to_username w' = ws_to_username w
    ∧ username_to_ws w' = username_to_ws w
    ∧ ∀ r, r ∈ rooms ∨ ws ∈ subscribers w r → ws ∈ subscribers w' r.
Proof.
  revert w. induction rooms as [|room rooms IH]; intros w Hopen Hrooms.
  - exists w. simpl. split; [done|]. split; [done|]. split; [done|].
    split; [done|]. intros r [Hin|Hin]; [|done]. by apply elem_of_nil in Hin.
  - apply Forall_cons in Hrooms as [Hroom Hrooms].
    destruct (handle_subscribe_run cfg w ws (subscribe_envelope room) room)
      as (w1 & Hrun & Hsub & _ & Hname & Hopen1 & _);
      [apply subscribe_envelope_fields|done|done|].
    destruct (handle_subscribe_sets cfg w ws (subscribe_envelope room) room)
      as (w1' & Hrun' & Hsubs & _ & Huser & _);
      [apply subscribe_envelope_fields|done|done|].
    rewrite Hrun in Hrun'. injection Hrun' as <-.
    destruct (IH w1 Hopen1 Hrooms) as (w' & Hloop & Hopen' & Hname' & Huser' & Hall).
    exists w'. split.
    { rewrite !fmap_cons. cbn [handler_loop]. unfold bind at 1.
      rewrite handler_turn_subscribe, Hrun. apply Hloop. }
    split; [done|]. split; [congruence|]. split; [congruence|].
    intros r [Hin|Hin].
    + apply elem_of_cons in Hin as [->|Hin]; apply Hall; [by right|by left].
    + apply Hall. right. unfold subscribers. rewrite Hsubs.
      destruct (decide (r = room)) as [->|Hne].
      * rewrite lookup_insert_eq. simpl. set_solver.
      * by rewrite lookup_insert_ne.
Qed.

(** X30. The frames the client sends when it starts - a login, then one
    subscribe for each room of the command line - are all accepted by
    the server when the name is a non-empty string not in use and no
    listed room is the empty string: the loop of [handler] returns from
    every turn, the socket stays open, it is bound to the name and it
    is a subscriber of every listed room. *)
Theorem client_start_is_served (cfg : Config) (fstr : jval → pystr)
    (ws : conn) (username now : pystr) (rooms : list pystr) (w : World) :
  is_open w ws → username ≠ [] →
  username_to_ws w !! username = None →
  Forall (λ r, r ≠ []) rooms →
  ∃ w',
    handler_loop cfg fstr ws
      ((λ data, (Some data, now)) <$> main_sends username rooms) false w
    = (Return (), w')
    ∧ is_open w' ws
    ∧ ws_to_username w' !! ws = Some username
    ∧ username_to_ws w' !! username = Some ws
    ∧ ∀ r, r ∈ rooms → ws ∈ subscribers w' r.
Proof.
  intros Hopen Hname Hfree Hrooms.
  pose proof (handle_login_free w ws (login_envelope username) username
    (proj2 (login_envelope_fields username)) Hname Hopen Hfree) as Hlogin.
  set (w1 := set_sent _ _) in Hlogin.
  destruct (serve_subscriptions cfg fstr ws now rooms w1)
    as (w' & Hloop & Hopen' & Hname' & Huser' & Hall); [done..|].
  exists w'. split.
  { unfold main_sends. rewrite fmap_cons. cbn [handler_loop].
    unfold bind at 1. rewrite handler_turn_login, Hlogin. apply Hloop. }
  split; [done|]. split.
  { rewrite Hname'. simpl. by rewrite lookup_insert_eq. }
  split.
  { rewrite Huser'. simpl. by rewrite lookup_insert_eq. }
  intros r Hin. apply Hall. by left.
Qed.

Lemma client_start_is_served_witness :
  ∃ w',
    handler_loop default_config str_of 1%nat
      ((λ data, (Some data, py "T1"))
         <$> main_sends (py "alice") [py "lobby"; py "dev"]) false empty_world
    = (Return (), w')
    ∧ is_open w' 1%nat
    ∧ ws_to_username w' !! 1%nat = Some (py "alice")
    ∧ username_to_ws w' !! py "alice" = Some 1%nat
    ∧ ∀ r, r ∈ [py "lobby"; py "dev"] → 1%nat ∈ subscribers w' r.
Proof.
  apply (client_start_is_served default_config str_of 1%nat (py "alice")
           (py "T1") [py "lobby"; py "dev"] empty_world).
  - reflexivity.
  - vm_compute. discriminate.
  - reflexivity.
  - repeat constructor; vm_compute; discriminate.
Defined.
